(** * EmoConnect: service supervisor and rolling-window emotion decision

    A shallow embedding of the three programs of the repository:

    - [emotion_webcam.py]  (module [Webcam]): the producer, which keeps the
      last five one-second classification samples in a bounded deque and
      serves them as JSON;
    - [main_integrated.py] (module [Bot]): the consumer, whose
      [detect_emotion] fetches that window and turns it into one label,
      asking a language model when the window is all "neutral";
    - [controller.py]      (module [Controller]): the control panel, which
      starts, probes and stops the two processes.

    Modelling conventions.

    - Python [str] values are [string]s of ASCII characters; [str.lower] and
      [str.strip] are the ASCII restrictions of the Python methods.
    - Python [float]s that carry confidences and clock readings are the
      rationals they denote ([Q]); the programs only add, subtract and
      compare them.  NaN and infinities are outside the model.
    - A Python exception is a value [Raise e] of the [result] type; a
      [try ... except Exception] is a [match] on it.
    - Everything the programs obtain from outside (HTTP replies, the
      language model's answer, the behaviour of child processes, the clock)
      is an explicit argument or a field of the world state. *)

From Stdlib Require Import QArith Qround Lqa ZArith Lia List String Ascii Bool.
From stdpp Require Import gmap strings list.
Import ListNotations.
Local Open Scope string_scope.
Local Open Scope list_scope.
Set Warnings "-register-all".

(* ===================================================================== *)
(** * Python primitives shared by the three programs                      *)
(* ===================================================================== *)

Module Py.

(** Exceptions the modelled code can meet.  All of them derive from
    Python's [Exception]. *)
Inductive exn : Type :=
| AttributeError
| TypeError
| KeyError
| ValueError
| OSError
| RequestException
| JSONDecodeError
| APIError.

Inductive result (A : Type) : Type :=
| Ok (a : A)
| Raise (e : exn).
Arguments Ok {A} a.
Arguments Raise {A} e.

Definition bind {A B : Type} (m : result A) (k : A -> result B) : result B :=
  match m with
  | Ok a => k a
  | Raise e => Raise e
  end.

Notation "x <- m ;; k" := (bind m (fun x => k))
  (at level 100, m at next level, right associativity).

(** [try: m except Exception: handler] *)
Definition try_except {A : Type} (m : result A) (handler : exn -> A) : A :=
  match m with
  | Ok a => a
  | Raise e => handler e
  end.

(** ** Strings *)

Definition is_upper (c : ascii) : bool :=
  let n := nat_of_ascii c in (65 <=? n)%nat && (n <=? 90)%nat.

Definition lower_ascii (c : ascii) : ascii :=
  if is_upper c then ascii_of_nat (nat_of_ascii c + 32) else c.

(** [s.lower()] *)
Fixpoint lower (s : string) : string :=
  match s with
  | EmptyString => EmptyString
  | String c s' => String (lower_ascii c) (lower s')
  end.

(** The ASCII characters for which [str.isspace] holds: TAB, LF, VT, FF,
    CR, the four separators FS, GS, RS, US, and the space. *)
Definition is_space (c : ascii) : bool :=
  let n := nat_of_ascii c in
  ((9 <=? n)%nat && (n <=? 13)%nat) || ((28 <=? n)%nat && (n <=? 32)%nat).

Fixpoint lstrip (s : string) : string :=
  match s with
  | EmptyString => EmptyString
  | String c s' => if is_space c then lstrip s' else s
  end.

Definition rstrip (s : string) : string := String.rev (lstrip (String.rev s)).

(** [s.strip()] *)
Definition strip (s : string) : string := rstrip (lstrip s).

(** ** Parsed JSON, as [response.json()] returns it

    An object is the Python [dict] the parser built: keys in insertion
    order, each key once. *)
Inductive json : Type :=
| JNull
| JBool (b : bool)
| JNum (q : Q)
| JStr (s : string)
| JArr (xs : list json)
| JObj (kvs : list (string * json)).

Fixpoint assoc {V : Type} (key : string) (kvs : list (string * V)) : option V :=
  match kvs with
  | [] => None
  | (k, v) :: rest => if String.eqb k key then Some v else assoc key rest
  end.

(** [payload.get(key, default)]: only a [dict] has the method. *)
Definition get (payload : json) (key : string) (default : json) : result json :=
  match payload with
  | JObj kvs =>
      match assoc key kvs with
      | Some v => Ok v
      | None => Ok default
      end
  | _ => Raise AttributeError
  end.

(** Truth value of an object, as [if not frames] tests it. *)
Definition truthy (v : json) : bool :=
  match v with
  | JNull => false
  | JBool b => b
  | JNum q => negb (Qeq_bool q 0)
  | JStr s => negb (String.eqb s EmptyString)
  | JArr xs => negb (Nat.eqb (List.length xs) 0)
  | JObj kvs => negb (Nat.eqb (List.length kvs) 0)
  end.

Fixpoint chars (s : string) : list json :=
  match s with
  | EmptyString => []
  | String c s' => JStr (String c EmptyString) :: chars s'
  end.

(** The elements a [for f in frames] loop visits: the items of a list, the
    characters of a string, the keys of a dict; anything else is not
    iterable. *)
Definition iter (v : json) : result (list json) :=
  match v with
  | JArr xs => Ok xs
  | JStr s => Ok (chars s)
  | JObj kvs => Ok (map (fun kv => JStr (fst kv)) kvs)
  | _ => Raise TypeError
  end.

(** [f[key]] for a string key. *)
Definition getitem (f : json) (key : string) : result json :=
  match f with
  | JObj kvs =>
      match assoc key kvs with
      | Some v => Ok v
      | None => Raise KeyError
      end
  | _ => Raise TypeError
  end.

(** [v.lower()]: only a [str] has the method. *)
Definition lower_method (v : json) : result string :=
  match v with
  | JStr s => Ok (lower s)
  | _ => Raise AttributeError
  end.

Section Float.

(** Python's [float(s)] on a string: the number it denotes, or [None] when
    it raises [ValueError].  The parser is a builtin, not code of the
    repository, and stays a parameter. *)
Variable float_of_str : string -> option Q.

(** [float(v)] *)
Definition float (v : json) : result Q :=
  match v with
  | JNum q => Ok q
  | JBool b => Ok (if b then 1%Q else 0%Q)
  | JStr s =>
      match float_of_str s with
      | Some q => Ok q
      | None => Raise ValueError
      end
  | _ => Raise TypeError
  end.

End Float.

(** ** [max]

    [max(xs)] and [max(xs, key=f)] keep the first element and replace it
    only by a strictly greater one, so among equal maxima the first wins.
    Both raise [ValueError] on an empty sequence. *)
Definition Qltb (x y : Q) : bool := negb (Qle_bool y x).

Lemma Qltb_true (x y : Q) : Qltb x y = true <-> (x < y)%Q.
Proof.
  unfold Qltb. rewrite negb_true_iff. split.
  - intros H. apply Qnot_le_lt. intros Hle.
    apply Qle_bool_iff in Hle. congruence.
  - intros H. destruct (Qle_bool y x) eqn:E; [| reflexivity].
    apply Qle_bool_iff in E. apply Qlt_not_le in H. contradiction.
Qed.

Lemma Qltb_false (x y : Q) : Qltb x y = false <-> (y <= x)%Q.
Proof.
  unfold Qltb. rewrite negb_false_iff. apply Qle_bool_iff.
Qed.

Fixpoint max_from (best : Q) (xs : list Q) : Q :=
  match xs with
  | [] => best
  | x :: rest => if Qltb best x then max_from x rest else max_from best rest
  end.

Definition max (xs : list Q) : result Q :=
  match xs with
  | [] => Raise ValueError
  | x :: rest => Ok (max_from x rest)
  end.

Fixpoint max_by_from {A : Type} (key : A -> result Q) (best : A) (kbest : Q)
  (xs : list A) : result A :=
  match xs with
  | [] => Ok best
  | x :: rest =>
      k <- key x ;;
      if Qltb kbest k then max_by_from key x k rest
      else max_by_from key best kbest rest
  end.

Definition max_by {A : Type} (key : A -> result Q) (xs : list A) : result A :=
  match xs with
  | [] => Raise ValueError
  | x :: rest => k <- key x ;; max_by_from key x k rest
  end.

End Py.

(* ===================================================================== *)
(** * emotion_webcam.py: the rolling window                               *)
(* ===================================================================== *)

Module Webcam.

Definition CLASSES : list string :=
  ["angry"; "disgust"; "fear"; "happy"; "neutral"; "sad"; "surprise"].

(** One entry of the window: the dict with keys "timestamp", "emotion" and
    "confidence" that [webcam_loop] appends. *)
Record Sample : Type := mkSample {
  timestamp : Q;
  emotion : string;
  confidence : Q
}.

(** [collections.deque(maxlen=n)] *)
Record deque (A : Type) : Type := mkDeque {
  maxlen : nat;
  items : list A
}.
Arguments mkDeque {A} maxlen items.
Arguments maxlen {A} d.
Arguments items {A} d.

(** [d.append(x)]: the item goes to the right end and, when the deque has
    grown past [maxlen], one item is dropped from the left end. *)
Definition deque_append {A : Type} (d : deque A) (x : A) : deque A :=
  let grown := items d ++ [x] in
  if (maxlen d <? List.length grown)%nat
  then mkDeque (maxlen d) (tl grown)
  else mkDeque (maxlen d) grown.

(** [emotion_window = deque(maxlen=5)] *)
Definition emotion_window : deque Sample := mkDeque 5 [].

(** What [predict_emotion_from_frame] returns. *)
Record Prediction : Type := mkPrediction {
  p_emotion : string;
  p_confidence : Q
}.

(** One pass through the body of the [while] loop of [webcam_loop]: either
    [cap.read()] fails and the loop continues, or a frame is classified as
    [out] and the clock reads [now]. *)
Inductive Tick : Type :=
| ReadFailed
| Frame (out : Prediction) (now : Q).

Record LoopState : Type := mkLoop {
  window : deque Sample;
  last_sample_time : Q;
  latest : Sample
}.

Definition sample_of (out : Prediction) (now : Q) : Sample :=
  mkSample now (p_emotion out) (p_confidence out).

Definition webcam_step (st : LoopState) (t : Tick) : LoopState :=
  match t with
  | ReadFailed => st
  | Frame out now =>
      if Qle_bool 1 (now - last_sample_time st)
      then mkLoop (deque_append (window st) (sample_of out now)) now
                  (sample_of out now)
      else mkLoop (window st) (last_sample_time st) (sample_of out now)
  end.

Definition webcam_loop (st : LoopState) (ticks : list Tick) : LoopState :=
  fold_left webcam_step ticks st.

(** The state in which the loop starts: an empty window, [latest] as the
    module initialises it, and the clock reading [t0]. *)
Definition initial (t0 : Q) : LoopState :=
  mkLoop emotion_window t0 (mkSample t0 "neutral" 0).

(** The samples a run appends, in order (the ticks that pass the
    once-per-second test). *)
Fixpoint sampled (last : Q) (ticks : list Tick) : list Sample :=
  match ticks with
  | [] => []
  | ReadFailed :: rest => sampled last rest
  | Frame out now :: rest =>
      if Qle_bool 1 (now - last)
      then sample_of out now :: sampled now rest
      else sampled last rest
  end.

(** The last [n] elements of a list. *)
Definition last_n {A : Type} (n : nat) (xs : list A) : list A :=
  skipn (List.length xs - n) xs.

(** [GET /emotion]: the window as JSON. *)
Definition sample_to_json (s : Sample) : Py.json :=
  Py.JObj [("timestamp", Py.JNum (timestamp s));
           ("emotion", Py.JStr (emotion s));
           ("confidence", Py.JNum (confidence s))].

Definition get_emotion_window (w : deque Sample) : Py.json :=
  Py.JObj [("window_size", Py.JNum (inject_Z (Z.of_nat (List.length (items w)))));
           ("data", Py.JArr (map sample_to_json (items w)))].

(** ** Facts about the window *)

Lemma deque_append_maxlen {A : Type} (d : deque A) (x : A) :
  maxlen (deque_append d x) = maxlen d.
Proof.
  unfold deque_append. destruct (maxlen d <? _)%nat; reflexivity.
Qed.

Lemma deque_append_items {A : Type} (d : deque A) (x : A) :
  (List.length (items d) <= maxlen d)%nat ->
  items (deque_append d x) = last_n (maxlen d) (items d ++ [x]).
Proof.
  intros Hle. unfold deque_append, last_n. rewrite length_app. simpl.
  destruct (Nat.ltb_spec (maxlen d) (List.length (items d) + 1)) as [Hlt | Hge]; simpl.
  - replace (List.length (items d) + 1 - maxlen d)%nat with 1%nat by lia.
    destruct (items d ++ [x]); reflexivity.
  - replace (List.length (items d) + 1 - maxlen d)%nat with 0%nat by lia.
    reflexivity.
Qed.

Lemma last_n_length {A : Type} (n : nat) (xs : list A) :
  (List.length (last_n n xs) <= n)%nat.
Proof. unfold last_n. rewrite length_skipn. lia. Qed.

Lemma last_n_app {A : Type} (n : nat) (l xs : list A) :
  last_n n (last_n n l ++ xs) = last_n n (l ++ xs).
Proof.
  unfold last_n.
  rewrite !List.skipn_app, List.skipn_skipn, !length_app, !List.length_skipn.
  f_equal; f_equal; lia.
Qed.

(** Appending a list of samples one by one to a deque whose content is
    within its bound keeps exactly the newest [maxlen] items, in order. *)
Lemma fold_append_items {A : Type} (xs : list A) : forall (d : deque A),
  (List.length (items d) <= maxlen d)%nat ->
  maxlen (fold_left deque_append xs d) = maxlen d /\
  items (fold_left deque_append xs d) = last_n (maxlen d) (items d ++ xs).
Proof.
  induction xs as [| x xs IH]; intros d Hd; simpl.
  - split; [reflexivity |]. rewrite app_nil_r. unfold last_n.
    replace (List.length (items d) - maxlen d)%nat with 0%nat by lia. reflexivity.
  - destruct (IH (deque_append d x)) as [Hm Hi].
    + rewrite deque_append_maxlen, deque_append_items by exact Hd.
      apply last_n_length.
    + rewrite Hm, Hi, deque_append_maxlen. split; [reflexivity |].
      rewrite deque_append_items by exact Hd.
      rewrite last_n_app, <- app_assoc. reflexivity.
Qed.

Lemma webcam_loop_window (ticks : list Tick) : forall (st : LoopState),
  window (webcam_loop st ticks) =
  fold_left deque_append (sampled (last_sample_time st) ticks) (window st).
Proof.
  unfold webcam_loop.
  induction ticks as [| t ticks IH]; intros st; simpl; [reflexivity |].
  destruct t as [| out now]; simpl; [apply IH |].
  destruct (Qle_bool 1 (now - last_sample_time st)); rewrite IH; reflexivity.
Qed.

(** C6. The sample window always holds at most 5 samples in insertion
    order, and when full an append evicts exactly the oldest sample (FIFO):
    after any run of the webcam loop the window has capacity 5, holds at
    most 5 samples and holds exactly the newest 5 of the samples appended
    so far, oldest first; an append to a full window drops its first item
    and adds the new one at the end; and 7 appends to the empty window
    leave the last 5 of the 7, oldest first. *)
Theorem window_fifo_capacity_5 :
  (forall (t0 : Q) (ticks : list Tick),
     let w := window (webcam_loop (initial t0) ticks) in
     maxlen w = 5%nat /\
     (List.length (items w) <= 5)%nat /\
     items w = last_n 5 (sampled t0 ticks)) /\
  (forall (a b c d e x : Sample),
     deque_append (mkDeque 5 [a; b; c; d; e]) x = mkDeque 5 [b; c; d; e; x]) /\
  (forall (s1 s2 s3 s4 s5 s6 s7 : Sample),
     items (fold_left deque_append [s1; s2; s3; s4; s5; s6; s7] emotion_window)
     = [s3; s4; s5; s6; s7]).
Proof.
  split; [| split].
  - intros t0 ticks w. subst w. rewrite webcam_loop_window. simpl.
    destruct (fold_append_items (sampled t0 ticks) emotion_window) as [Hm Hi];
      [simpl; lia |].
    rewrite Hm, Hi. simpl. split; [reflexivity |]. split; [| reflexivity].
    apply last_n_length.
  - reflexivity.
  - reflexivity.
Qed.

End Webcam.

(* ===================================================================== *)
(** * main_integrated.py: the decision policy                             *)
(* ===================================================================== *)

Module Bot.
Import Py.

(** The six labels the language model may answer with. *)
Definition LABELS : list string :=
  ["happy"; "sad"; "angry"; "fear"; "disgust"; "surprise"].

(** [x in xs] on a list of strings. *)
Definition contains (xs : list string) (x : string) : bool :=
  existsb (String.eqb x) xs.

Definition nl : string := String (ascii_of_nat 10) EmptyString.

(** [str(user_input)] inside the f-string; the argument defaults to
    [None]. *)
Definition str (user_input : option string) : string :=
  match user_input with
  | Some s => s
  | None => "None"
  end.

Definition prompt (user_input : option string) : string :=
  "Based on the user's message, choose the ONE most likely emotion." +:+ nl +:+
  "Only return ONE word from this list:" +:+ nl +:+
  "happy, sad, angry, fear, disgust, surprise" +:+ nl +:+ nl +:+
  "User message: '" +:+ str user_input +:+ "'".

(** What [self.chat.send_message(prompt)] does: it raises, or it returns a
    response whose [text] attribute is a string or [None]. *)
Inductive Reply : Type :=
| SendRaises (e : exn)
| Text (text : option string).

(** The [try] block of [llm_emotion_fallback]: [Ok (Some emotion)] is its
    [return emotion], [Ok None] falls through to the final
    [return "neutral"]. *)
Definition llm_try (send_message : string -> Reply) (user_input : option string)
  : result (option string) :=
  match send_message (prompt user_input) with
  | SendRaises e => Raise e
  | Text None => Raise AttributeError
  | Text (Some text) =>
      let emotion := lower (strip text) in
      if contains LABELS emotion then Ok (Some emotion) else Ok None
  end.

Definition llm_emotion_fallback (send_message : string -> Reply)
  (user_input : option string) : string :=
  match try_except (llm_try send_message user_input) (fun _ => None) with
  | Some emotion => emotion
  | None => "neutral"
  end.

(** What [requests.get(...)] followed by [response.json()] can give. *)
Inductive Body : Type :=
| NotJson
| Json (payload : json).

Inductive Fetch : Type :=
| GetRaises (e : exn)
| Response (status_code : Z) (body : Body).

(** [counts.setdefault(emo, []).append(conf)] on an insertion-ordered
    dict. *)
Fixpoint setdefault_append (counts : list (string * list Q)) (emo : string)
  (conf : Q) : list (string * list Q) :=
  match counts with
  | [] => [(emo, [conf])]
  | (k, v) :: rest =>
      if String.eqb k emo then (k, v ++ [conf]) :: rest
      else (k, v) :: setdefault_append rest emo conf
  end.

(** Cases 1 and 2 and the all-neutral test, on the grouped confidences. *)
Definition is_neutral_key (kv : string * list Q) : bool :=
  String.eqb (fst kv) "neutral".

Definition keys_are_neutral (counts : list (string * list Q)) : bool :=
  match map fst counts with
  | [k] => String.eqb k "neutral"
  | _ => false
  end.

Definition choose (counts : list (string * list Q)) (fallback : string)
  : result string :=
  if keys_are_neutral counts then Ok fallback
  else
    let non_neutral := List.filter (fun kv => negb (is_neutral_key kv)) counts in
    if Nat.eqb (List.length non_neutral) 1
    then match non_neutral with
         | kv :: _ => Ok (fst kv)
         | [] => Raise ValueError
         end
    else
      best <- max_by (fun item => max (snd item)) non_neutral ;;
      Ok (fst best).

Section DetectEmotion.

Variable float_of_str : string -> option Q.

(** The body of the [for f in frames] loop, up to the update of
    [counts]. *)
Definition frame_entry (f : json) : result (string * Q) :=
  e <- getitem f "emotion" ;;
  emo <- lower_method e ;;
  c <- getitem f "confidence" ;;
  conf <- float float_of_str c ;;
  Ok (emo, conf).

Fixpoint group (frames : list json) (counts : list (string * list Q))
  : result (list (string * list Q)) :=
  match frames with
  | [] => Ok counts
  | f :: rest =>
      ec <- frame_entry f ;;
      group rest (setdefault_append counts (fst ec) (snd ec))
  end.

(** The [try] block of [detect_emotion]. *)
Definition detect_emotion_try (fetch : Fetch) (send_message : string -> Reply)
  (user_input : option string) : result string :=
  match fetch with
  | GetRaises e => Raise e
  | Response status_code body =>
      if negb (status_code =? 200)%Z then Ok "neutral"
      else
        match body with
        | NotJson => Raise JSONDecodeError
        | Json payload =>
            frames <- get payload "data" (JArr []) ;;
            if negb (truthy frames) then Ok "neutral"
            else
              fs <- iter frames ;;
              counts <- group fs [] ;;
              choose counts (llm_emotion_fallback send_message user_input)
        end
  end.

Definition detect_emotion (fetch : Fetch) (send_message : string -> Reply)
  (user_input : option string) : string :=
  try_except (detect_emotion_try fetch send_message user_input)
             (fun _ => "neutral").

End DetectEmotion.

(** The reply of the producer's [GET /emotion] when the window holds
    [w]. *)
Definition served (w : list Webcam.Sample) : Fetch :=
  Response 200 (Json (Webcam.get_emotion_window (Webcam.mkDeque 5 w))).

(** ** The decision the text describes

    The label of a sample is its lower-cased "emotion" field.  The distinct
    labels of a window are listed in the order in which they first occur;
    the candidates are those other than "neutral"; a label's confidences
    are those of its samples, in window order. *)
Definition label (s : Webcam.Sample) : string := lower (Webcam.emotion s).

Fixpoint first_seen (ls : list string) : list string :=
  match ls with
  | [] => []
  | l :: rest => l :: List.filter (fun k => negb (String.eqb k l)) (first_seen rest)
  end.

Definition confs_of (w : list Webcam.Sample) (l : string) : list Q :=
  map Webcam.confidence (List.filter (fun s => String.eqb (label s) l) w).

Definition candidates (w : list Webcam.Sample) : list string :=
  List.filter (fun l => negb (String.eqb l "neutral")) (first_seen (map label w)).

(** [m] is the greatest element of [xs]. *)
Definition is_max_of (m : Q) (xs : list Q) : Prop :=
  (exists x, In x xs /\ (x == m)%Q) /\ (forall x, In x xs -> (x <= m)%Q).

(** [m] is the maximum confidence of the samples of [w] labelled [l]. *)
Definition max_conf_of (w : list Webcam.Sample) (l : string) (m : Q) : Prop :=
  is_max_of m (confs_of w l).

(** The loop of [detect_emotion] on well-formed samples. *)
Definition group_samples (w : list Webcam.Sample)
  (counts : list (string * list Q)) : list (string * list Q) :=
  fold_left (fun c s => setdefault_append c (label s) (Webcam.confidence s)) w counts.

(** The labels the producer emits are already lower-case. *)
Lemma lower_CLASSES (l : string) : In l Webcam.CLASSES -> lower l = l.
Proof.
  unfold Webcam.CLASSES. simpl.
  intros [<- | [<- | [<- | [<- | [<- | [<- | [<- | []]]]]]]]; reflexivity.
Qed.

(** ** Comparison and [max] *)

Lemma max_from_spec (xs : list Q) : forall (best : Q),
  (max_from best xs = best \/ In (max_from best xs) xs) /\
  (best <= max_from best xs)%Q /\
  (forall x, In x xs -> (x <= max_from best xs)%Q).
Proof.
  induction xs as [| x xs IH]; intros best; simpl.
  - split; [left; reflexivity |]. split; [apply Qle_refl | intros x []].
  - destruct (Qltb best x) eqn:E.
    + apply Qltb_true in E. destruct (IH x) as (Hin & Hle & Hall).
      split; [right; destruct Hin as [-> | Hin]; [left; reflexivity | right; exact Hin] |].
      split; [lra |]. intros y [<- | Hy]; [exact Hle | apply Hall, Hy].
    + apply Qltb_false in E. destruct (IH best) as (Hin & Hle & Hall).
      split; [destruct Hin as [-> | Hin]; [left; reflexivity | right; right; exact Hin] |].
      split; [exact Hle |]. intros y [<- | Hy]; [lra | apply Hall, Hy].
Qed.

Lemma max_from_is_max (x : Q) (xs : list Q) : is_max_of (max_from x xs) (x :: xs).
Proof.
  destruct (max_from_spec xs x) as (Hin & Hle & Hall). split.
  - exists (max_from x xs). split; [| reflexivity].
    destruct Hin as [-> | Hin]; [left; reflexivity | right; exact Hin].
  - intros y [<- | Hy]; [exact Hle | apply Hall, Hy].
Qed.

Lemma is_max_of_unique (m m' : Q) (xs : list Q) :
  is_max_of m xs -> is_max_of m' xs -> (m == m')%Q.
Proof.
  intros [(x & Hx & Ex) Hm] [(x' & Hx' & Ex') Hm'].
  specialize (Hm _ Hx'). specialize (Hm' _ Hx). lra.
Qed.

(** [max(items, key=...)] returns the first item whose key is greatest. *)
Lemma max_by_from_spec {A : Type} (key : A -> result Q) (k : A -> Q)
  (xs : list A) : forall (best : A) (before after : list A),
  (forall x, In x xs -> key x = Ok (k x)) ->
  (forall y, In y before -> (k y < k best)%Q) ->
  (forall y, In y after -> (k y <= k best)%Q) ->
  exists b pre post,
    max_by_from key best (k best) xs = Ok b /\
    before ++ best :: after ++ xs = pre ++ b :: post /\
    (forall y, In y pre -> (k y < k b)%Q) /\
    (forall y, In y post -> (k y <= k b)%Q).
Proof.
  induction xs as [| x xs IH]; intros best before after Hkey Hb Ha; simpl.
  - exists best, before, after. rewrite app_nil_r. auto.
  - rewrite (Hkey x) by (left; reflexivity). simpl.
    destruct (Qltb (k best) (k x)) eqn:E.
    + apply Qltb_true in E.
      destruct (IH x (before ++ best :: after) []) as (b & pre & post & Hr & Hs & Hp & Hq).
      * intros y Hy. apply Hkey. right. exact Hy.
      * intros y Hy. apply in_app_or in Hy.
        destruct Hy as [Hy | [<- | Hy]];
          [specialize (Hb _ Hy); lra | exact E | specialize (Ha _ Hy); lra].
      * intros y [].
      * exists b, pre, post. split; [exact Hr |]. split; [| auto].
        rewrite <- Hs. simpl. rewrite <- !app_assoc. reflexivity.
    + apply Qltb_false in E.
      destruct (IH best before (after ++ [x])) as (b & pre & post & Hr & Hs & Hp & Hq).
      * intros y Hy. apply Hkey. right. exact Hy.
      * exact Hb.
      * intros y Hy. apply in_app_or in Hy.
        destruct Hy as [Hy | [<- | []]]; [apply Ha, Hy | exact E].
      * exists b, pre, post. split; [exact Hr |]. split; [| auto].
        rewrite <- Hs. rewrite <- !app_assoc. reflexivity.
Qed.

Lemma max_by_spec {A : Type} (key : A -> result Q) (k : A -> Q) (x : A)
  (xs : list A) :
  (forall y, In y (x :: xs) -> key y = Ok (k y)) ->
  exists b pre post,
    max_by key (x :: xs) = Ok b /\
    x :: xs = pre ++ b :: post /\
    (forall y, In y pre -> (k y < k b)%Q) /\
    (forall y, In y post -> (k y <= k b)%Q).
Proof.
  intros Hkey. unfold max_by. rewrite (Hkey x) by (left; reflexivity). simpl.
  destruct (max_by_from_spec key k xs x [] []) as (b & pre & post & Hr & Hs & Hp & Hq).
  - intros y Hy. apply Hkey. right. exact Hy.
  - intros y [].
  - intros y [].
  - exists b, pre, post. simpl in Hs. auto.
Qed.

(** ** First-occurrence order *)

Lemma contains_In (xs : list string) (x : string) :
  contains xs x = true <-> In x xs.
Proof.
  unfold contains. rewrite existsb_exists. split.
  - intros (y & Hy & E). apply String.eqb_eq in E. subst. exact Hy.
  - intros H. exists x. split; [exact H | apply String.eqb_refl].
Qed.

Lemma contains_not_In (xs : list string) (x : string) :
  contains xs x = false <-> ~ In x xs.
Proof.
  rewrite <- contains_In. destruct (contains xs x); split; congruence.
Qed.

Lemma In_filter_ne (k l : string) (xs : list string) :
  In k (List.filter (fun j => negb (String.eqb j l)) xs) <-> In k xs /\ k <> l.
Proof.
  rewrite filter_In, negb_true_iff, String.eqb_neq. reflexivity.
Qed.

Lemma In_first_seen (ls : list string) (k : string) :
  In k (first_seen ls) <-> In k ls.
Proof.
  induction ls as [| l ls IH]; simpl; [reflexivity |].
  rewrite In_filter_ne, IH. split.
  - intros [-> | [H _]]; auto.
  - intros [-> | H]; [left; reflexivity |].
    destruct (String.eqb_spec k l) as [-> | Hne]; [left; reflexivity | right; auto].
Qed.

Lemma NoDup_filter_str (p : string -> bool) (xs : list string) :
  List.NoDup xs -> List.NoDup (List.filter p xs).
Proof.
  induction 1 as [| x xs Hx Hnd IH]; simpl; [constructor |].
  destruct (p x); [| exact IH].
  constructor; [| exact IH]. rewrite filter_In. tauto.
Qed.

Lemma NoDup_first_seen (ls : list string) : List.NoDup (first_seen ls).
Proof.
  induction ls as [| l ls IH]; simpl; constructor.
  - rewrite In_filter_ne. tauto.
  - apply NoDup_filter_str, IH.
Qed.

Lemma first_seen_snoc (ls : list string) (l : string) :
  first_seen (ls ++ [l]) =
  if contains ls l then first_seen ls else first_seen ls ++ [l].
Proof.
  induction ls as [| a ls IH]; simpl; [reflexivity |].
  rewrite IH. unfold contains in *. simpl.
  destruct (String.eqb_spec l a) as [-> | Hne]; simpl.
  - destruct (existsb (String.eqb a) ls); [reflexivity |].
    rewrite List.filter_app. simpl. rewrite String.eqb_refl. simpl.
    rewrite app_nil_r. reflexivity.
  - destruct (existsb (String.eqb l) ls); [reflexivity |].
    rewrite List.filter_app. simpl.
    destruct (String.eqb_spec l a) as [-> | _]; [contradiction | reflexivity].
Qed.

(** ** What the grouping loop computes *)

Lemma setdefault_append_map (f : string -> list Q) (l : string) (c : Q)
  (ks : list string) :
  List.NoDup ks ->
  setdefault_append (map (fun k => (k, f k)) ks) l c =
  map (fun k => (k, if String.eqb k l then f k ++ [c] else f k)) ks
  ++ (if contains ks l then [] else [(l, [c])]).
Proof.
  induction 1 as [| a ks Ha Hnd IH]; simpl; [reflexivity |].
  unfold contains in *. simpl. rewrite (String.eqb_sym l a).
  destruct (String.eqb_spec a l) as [-> | Hne]; simpl.
  - rewrite app_nil_r. f_equal. apply map_ext_in. intros k Hk.
    destruct (String.eqb_spec k l) as [-> | _]; [contradiction | reflexivity].
  - rewrite IH. reflexivity.
Qed.

Lemma confs_of_snoc (w : list Webcam.Sample) (s : Webcam.Sample) (k : string) :
  confs_of (w ++ [s]) k =
  confs_of w k ++ (if String.eqb (label s) k then [Webcam.confidence s] else []).
Proof.
  unfold confs_of. rewrite List.filter_app, map_app. simpl.
  destruct (String.eqb (label s) k); reflexivity.
Qed.

Lemma confs_of_absent (w : list Webcam.Sample) (k : string) :
  ~ In k (map label w) -> confs_of w k = [].
Proof.
  unfold confs_of. induction w as [| s w IH]; simpl; [reflexivity |].
  intros Hn. destruct (String.eqb_spec (label s) k) as [E | _].
  - exfalso. apply Hn. left. exact E.
  - apply IH. intros H. apply Hn. right. exact H.
Qed.

Lemma confs_of_present (w : list Webcam.Sample) (k : string) :
  In k (map label w) -> confs_of w k <> [].
Proof.
  unfold confs_of. induction w as [| s w IH]; simpl; [intros [] |].
  intros [E | H].
  - rewrite E, String.eqb_refl. simpl. discriminate.
  - destruct (String.eqb (label s) k); [simpl; discriminate | apply IH, H].
Qed.

(** The dict built by the loop lists the distinct labels in
    first-occurrence order, each with its confidences in window order. *)
Lemma group_samples_spec (w : list Webcam.Sample) :
  group_samples w [] =
  map (fun k => (k, confs_of w k)) (first_seen (map label w)).
Proof.
  induction w as [| s w IH] using rev_ind; [reflexivity |].
  unfold group_samples in *. rewrite fold_left_app. simpl. rewrite IH.
  rewrite setdefault_append_map by apply NoDup_first_seen.
  rewrite map_app. simpl. rewrite first_seen_snoc.
  assert (Hmap : forall ks,
    map (fun k => (k, if String.eqb k (label s)
                      then confs_of w k ++ [Webcam.confidence s]
                      else confs_of w k)) ks =
    map (fun k => (k, confs_of (w ++ [s]) k)) ks).
  { intros ks. apply map_ext. intros k. rewrite confs_of_snoc.
    rewrite (String.eqb_sym (label s) k).
    destruct (String.eqb k (label s)); [reflexivity | rewrite app_nil_r; reflexivity]. }
  rewrite Hmap.
  destruct (contains (map label w) (label s)) eqn:E.
  - apply contains_In in E. apply In_first_seen in E. apply contains_In in E.
    rewrite E, app_nil_r. reflexivity.
  - apply contains_not_In in E.
    assert (E' : contains (first_seen (map label w)) (label s) = false).
    { apply contains_not_In. rewrite In_first_seen. exact E. }
    rewrite E', map_app. simpl. rewrite confs_of_snoc, String.eqb_refl.
    rewrite (confs_of_absent w _ E). reflexivity.
Qed.

Lemma frame_entry_sample (float_of_str : string -> option Q) (s : Webcam.Sample) :
  frame_entry float_of_str (Webcam.sample_to_json s) = Ok (label s, Webcam.confidence s).
Proof. reflexivity. Qed.

Lemma group_samples_json (float_of_str : string -> option Q)
  (w : list Webcam.Sample) : forall counts,
  group float_of_str (map Webcam.sample_to_json w) counts = Ok (group_samples w counts).
Proof.
  induction w as [| s w IH]; intros counts; [reflexivity |].
  cbn [map group]. rewrite frame_entry_sample. cbn [bind fst snd].
  rewrite IH. reflexivity.
Qed.

Lemma filter_keys (p : string -> bool) (f : string -> list Q) (ks : list string) :
  List.filter (fun kv : string * list Q => p (fst kv)) (map (fun k => (k, f k)) ks) =
  map (fun k => (k, f k)) (List.filter p ks).
Proof.
  induction ks as [| k ks IH]; simpl; [reflexivity |].
  destruct (p k); simpl; rewrite IH; reflexivity.
Qed.

(** The key [max] sees for one item of [non_neutral]. *)
Definition max_key (item : string * list Q) : Q :=
  match snd item with
  | [] => 0%Q
  | x :: rest => max_from x rest
  end.

Lemma max_key_ok (w : list Webcam.Sample) (l : string) :
  In l (map label w) ->
  max (confs_of w l) = Ok (max_key (l, confs_of w l)) /\
  max_conf_of w l (max_key (l, confs_of w l)).
Proof.
  intros Hl. apply confs_of_present in Hl. unfold max_conf_of, max_key. simpl.
  destruct (confs_of w l) as [| x rest]; [contradiction |].
  split; [reflexivity | apply max_from_is_max].
Qed.

Lemma candidates_In (w : list Webcam.Sample) (l : string) :
  In l (candidates w) <-> In l (map label w) /\ l <> "neutral".
Proof.
  unfold candidates. rewrite filter_In, In_first_seen, negb_true_iff, String.eqb_neq.
  reflexivity.
Qed.

(** On a window with a non-neutral sample, [choose] returns the first
    candidate whose maximum confidence is greatest. *)
Lemma choose_spec (w : list Webcam.Sample) (fallback : string) :
  (exists s, In s w /\ label s <> "neutral") ->
  exists l pre post m,
    choose (group_samples w []) fallback = Ok l /\
    candidates w = pre ++ l :: post /\
    max_conf_of w l m /\
    (forall l' m', In l' pre -> max_conf_of w l' m' -> (m' < m)%Q) /\
    (forall l' m', In l' post -> max_conf_of w l' m' -> (m' <= m)%Q).
Proof.
  intros (s & Hs & Hne).
  assert (Hcand : In (label s) (candidates w)).
  { apply candidates_In. split; [apply in_map, Hs | exact Hne]. }
  rewrite group_samples_spec. unfold choose.
  assert (Hkeys : keys_are_neutral
            (map (fun k => (k, confs_of w k)) (first_seen (map label w))) = false).
  { unfold keys_are_neutral. rewrite map_map. simpl. rewrite map_id.
    assert (Hin : In (label s) (first_seen (map label w)))
      by (apply In_first_seen, in_map, Hs).
    destruct (first_seen (map label w)) as [| k [| k' ks]]; try reflexivity.
    destruct Hin as [E | []]. subst k. apply String.eqb_neq. exact Hne. }
  rewrite Hkeys.
  change (fun kv : string * list Q => negb (is_neutral_key kv))
    with (fun kv : string * list Q =>
            (fun l => negb (String.eqb l "neutral")) (fst kv)).
  rewrite filter_keys. fold (candidates w).
  assert (Hsub : forall l, In l (candidates w) -> In l (map label w)).
  { intros l Hl. apply candidates_In in Hl. tauto. }
  destruct (candidates w) as [| l0 [| l1 cs]] eqn:EC; [destruct Hcand | |].
  - (* exactly one candidate *)
    simpl. destruct (max_key_ok w l0) as [_ Hm]; [apply Hsub; left; reflexivity |].
    exists l0, [], [], (max_key (l0, confs_of w l0)).
    split; [reflexivity |]. split; [reflexivity |]. split; [exact Hm |].
    split; intros l' m' [].
  - (* several candidates *)
    cbn [map List.length Nat.eqb].
    set (g := fun k : string => (k, confs_of w k)).
    destruct (max_by_spec (fun item : string * list Q => max (snd item)) max_key
                (g l0) (g l1 :: map g cs)) as (b & pre & post & Hr & Hsplit & Hp & Hq).
    { intros y Hy. change (g l0 :: g l1 :: map g cs) with (map g (l0 :: l1 :: cs)) in Hy.
      apply in_map_iff in Hy. destruct Hy as (l & <- & Hl).
      apply (max_key_ok w l), Hsub, Hl. }
    change (g l0 :: g l1 :: map g cs) with (map g (l0 :: l1 :: cs)) in Hr, Hsplit.
    change ((l0, confs_of w l0) :: (l1, confs_of w l1) :: map g cs)
      with (map g (l0 :: l1 :: cs)).
    rewrite Hr. cbn [bind].
    assert (Hitem : forall y, In y (map g (l0 :: l1 :: cs)) ->
              In (fst y) (map label w) /\ y = (fst y, confs_of w (fst y))).
    { intros y Hy. apply in_map_iff in Hy. destruct Hy as (l & <- & Hl).
      split; [apply Hsub, Hl | reflexivity]. }
    assert (Hb : In b (map g (l0 :: l1 :: cs)))
      by (rewrite Hsplit; apply in_elt).
    destruct (Hitem b Hb) as [Hbl Hbe].
    destruct (max_key_ok w (fst b) Hbl) as [_ Hbm]. rewrite <- Hbe in Hbm.
    exists (fst b), (map fst pre), (map fst post), (max_key b).
    split; [reflexivity |]. split.
    { assert (E : map fst (map g (l0 :: l1 :: cs)) = l0 :: l1 :: cs)
        by (rewrite map_map; apply map_id).
      rewrite <- E, Hsplit, map_app. reflexivity. }
    split; [exact Hbm |].
    split; intros l' m' Hl' Hm'; apply in_map_iff in Hl';
      destruct Hl' as (y & <- & Hy).
    + assert (Hy' : In y (map g (l0 :: l1 :: cs)))
        by (rewrite Hsplit; apply in_or_app; left; exact Hy).
      destruct (Hitem y Hy') as [Hyl Hye].
      destruct (max_key_ok w (fst y) Hyl) as [_ Hym]. rewrite <- Hye in Hym.
      pose proof (is_max_of_unique _ _ _ Hm' Hym) as E.
      specialize (Hp y Hy). lra.
    + assert (Hy' : In y (map g (l0 :: l1 :: cs)))
        by (rewrite Hsplit; apply in_or_app; right; right; exact Hy).
      destruct (Hitem y Hy') as [Hyl Hye].
      destruct (max_key_ok w (fst y) Hyl) as [_ Hym]. rewrite <- Hye in Hym.
      pose proof (is_max_of_unique _ _ _ Hm' Hym) as E.
      specialize (Hq y Hy). lra.
Qed.

(** [detect_emotion] on the producer's reply for a window [w]. *)
Lemma detect_emotion_try_served (float_of_str : string -> option Q)
  (w : list Webcam.Sample) (send_message : string -> Reply)
  (user_input : option string) :
  detect_emotion_try float_of_str (served w) send_message user_input =
  match w with
  | [] => Ok "neutral"
  | _ :: _ =>
      choose (group_samples w []) (llm_emotion_fallback send_message user_input)
  end.
Proof.
  destruct w as [| s w]; [reflexivity |].
  unfold detect_emotion_try, served, Webcam.get_emotion_window.
  cbn [Z.eqb Pos.eqb negb get assoc bind Webcam.items].
  change (String.eqb "window_size" "data") with false.
  change (String.eqb "data" "data") with true.
  cbn [bind truthy map List.length Nat.eqb negb iter].
  change (Webcam.sample_to_json s :: map Webcam.sample_to_json w)
    with (map Webcam.sample_to_json (s :: w)).
  rewrite group_samples_json. reflexivity.
Qed.

(** C1. For every sample window with at least one non-neutral sample, the
    decision policy returns a non-neutral label of the window: the
    candidates (the distinct non-neutral labels in first-occurrence order)
    split around the returned label so that every earlier candidate has a
    strictly smaller maximum confidence and every later one a smaller or
    equal maximum confidence; in particular a single candidate is returned
    as it is, and among several the one with the largest maximum confidence
    wins, the first-encountered one on a tie. *)
Theorem detect_emotion_non_neutral (float_of_str : string -> option Q)
  (w : list Webcam.Sample) (send_message : string -> Reply)
  (user_input : option string) :
  (exists s, In s w /\ label s <> "neutral") ->
  exists l pre post m,
    detect_emotion float_of_str (served w) send_message user_input = l /\
    l <> "neutral" /\
    In l (map label w) /\
    candidates w = pre ++ l :: post /\
    (forall l0, candidates w = [l0] -> l = l0) /\
    max_conf_of w l m /\
    (forall l' m', In l' pre -> max_conf_of w l' m' -> (m' < m)%Q) /\
    (forall l' m', In l' post -> max_conf_of w l' m' -> (m' <= m)%Q).
Proof.
  intros Hex.
  destruct (choose_spec w (llm_emotion_fallback send_message user_input) Hex)
    as (l & pre & post & m & Hr & Hc & Hm & Hp & Hq).
  assert (Hl : In l (candidates w)) by (rewrite Hc; apply in_elt).
  apply candidates_In in Hl. destruct Hl as [Hin Hne].
  exists l, pre, post, m.
  split.
  { unfold detect_emotion. rewrite detect_emotion_try_served.
    destruct w as [| s w]; [destruct Hex as (s & [] & _) |].
    rewrite Hr. reflexivity. }
  split; [exact Hne |]. split; [exact Hin |]. split; [exact Hc |].
  split; [| auto].
  intros l0 E. rewrite E in Hc.
  destruct pre as [| p pre]; simpl in Hc; [congruence |].
  destruct pre; discriminate.
Qed.

(** The window of the second decision example of the specification. *)
Definition sad_angry_window : list Webcam.Sample :=
  [Webcam.mkSample 1 "sad" 0.4; Webcam.mkSample 2 "sad" 0.4;
   Webcam.mkSample 3 "sad" 0.95; Webcam.mkSample 4 "angry" 0.5;
   Webcam.mkSample 5 "angry" 0.5].

Definition no_float : string -> option Q := fun _ => None.
Definition unreachable_model : string -> Reply := fun _ => SendRaises APIError.

Lemma detect_emotion_non_neutral_witness :
  exists l pre post m,
    detect_emotion no_float (served sad_angry_window) unreachable_model None = l /\
    l <> "neutral" /\
    In l (map label sad_angry_window) /\
    candidates sad_angry_window = pre ++ l :: post /\
    (forall l0, candidates sad_angry_window = [l0] -> l = l0) /\
    max_conf_of sad_angry_window l m /\
    (forall l' m', In l' pre -> max_conf_of sad_angry_window l' m' -> (m' < m)%Q) /\
    (forall l' m', In l' post -> max_conf_of sad_angry_window l' m' -> (m' <= m)%Q).
Proof.
  apply (detect_emotion_non_neutral no_float sad_angry_window unreachable_model None).
  exists (Webcam.mkSample 1 "sad" 0.4).
  split; [left; reflexivity | vm_compute; discriminate].
Defined.

(** The decision examples of the specification, evaluated. *)
Example decision_single_non_baseline :
  detect_emotion no_float
    (served [Webcam.mkSample 1 "neutral" 0.9; Webcam.mkSample 2 "neutral" 0.9;
             Webcam.mkSample 3 "neutral" 0.9; Webcam.mkSample 4 "neutral" 0.9;
             Webcam.mkSample 5 "happy" 0.6]) unreachable_model None = "happy".
Proof. reflexivity. Qed.

Example decision_max_confidence :
  detect_emotion no_float (served sad_angry_window) unreachable_model None = "sad".
Proof. reflexivity. Qed.

Example decision_tie_first_seen :
  detect_emotion no_float
    (served [Webcam.mkSample 1 "angry" 0.5; Webcam.mkSample 2 "sad" 0.5])
    unreachable_model None = "angry".
Proof. reflexivity. Qed.

(** ** The all-neutral window and the language-model fallback *)


Lemma llm_emotion_fallback_range (send_message : string -> Reply)
  (user_input : option string) :
  In (llm_emotion_fallback send_message user_input) ("neutral" :: LABELS).
Proof.
  unfold llm_emotion_fallback, llm_try.
  destruct (send_message (prompt user_input)) as [e | [t |]];
    try (left; reflexivity).
  destruct (contains LABELS (lower (strip t))) eqn:E; [| left; reflexivity].
  right. apply contains_In. exact E.
Qed.







(** ** Totality of [detect_emotion] *)



(** The same outcomes, told by the shape of the reply alone.

    A "confidence" value that is not a number: null, a list, an object, or
    a string that does not denote a number.  (A number, a boolean and a
    string that denotes a number are read.) *)
Definition no_number (float_of_str : string -> option Q) (c : json) : bool :=
  match c with
  | JNull | JArr _ | JObj _ => true
  | JStr s =>
      match float_of_str s with
      | Some _ => false
      | None => true
      end
  | JNum _ | JBool _ => false
  end.

(** An element of "data" that is not a frame: not an object, without an
    "emotion" entry or with one that is not a string, without a
    "confidence" entry or with one that is not a number. *)
Definition not_a_frame (float_of_str : string -> option Q) (f : json) : bool :=
  match f with
  | JObj kvs =>
      match assoc "emotion" kvs with
      | Some (JStr _) =>
          match assoc "confidence" kvs with
          | Some c => no_number float_of_str c
          | None => true
          end
      | _ => true
      end
  | _ => true
  end.

(** A connection error, a status other than 200, a malformed or missing
    payload (a body that is not JSON, a payload that is not an object or
    has no "data" entry, a "data" entry that is not a list, a list with an
    element that is not a frame), or an empty window. *)
Definition no_window (float_of_str : string -> option Q) (fetch : Fetch) : bool :=
  match fetch with
  | GetRaises _ => true
  | Response status_code body =>
      negb (status_code =? 200)%Z ||
      match body with
      | NotJson => true
      | Json (JObj kvs) =>
          match assoc "data" kvs with
          | None => true
          | Some (JArr []) => true
          | Some (JArr fs) => existsb (not_a_frame float_of_str) fs
          | Some _ => true
          end
      | Json _ => true
      end
  end.

(** The labels of the frames of a reply, as the loop reads them. *)
Definition frame_labels (float_of_str : string -> option Q) (fs : list json)
  : list string :=
  flat_map (fun f => match frame_entry float_of_str f with
                     | Ok ec => [fst ec]
                     | Raise _ => []
                     end) fs.

Definition fetched_labels (float_of_str : string -> option Q) (fetch : Fetch)
  : list string :=
  match fetch with
  | Response _ (Json (JObj kvs)) =>
      match assoc "data" kvs with
      | Some frames =>
          match iter frames with
          | Ok fs => frame_labels float_of_str fs
          | Raise _ => []
          end
      | None => []
      end
  | _ => []
  end.

Section Totality.

Variable float_of_str : string -> option Q.





Lemma setdefault_append_keys (counts : list (string * list Q)) (emo : string)
  (conf : Q) (k : string) :
  In k (map fst (setdefault_append counts emo conf)) ->
  In k (map fst counts) \/ k = emo.
Proof.
  induction counts as [| [k0 v0] counts IH]; simpl.
  - intros [<- | []]. right. reflexivity.
  - destruct (String.eqb k0 emo); simpl; [tauto |].
    intros [<- | H]; [tauto |]. destruct (IH H); tauto.
Qed.

Lemma group_keys (fs : list json) : forall counts counts' k,
  group float_of_str fs counts = Ok counts' ->
  In k (map fst counts') ->
  In k (map fst counts) \/ In k (frame_labels float_of_str fs).
Proof.
  induction fs as [| f fs IH]; intros counts counts' k Hg Hk.
  - simpl in Hg. injection Hg as <-. left. exact Hk.
  - cbn [group] in Hg. unfold frame_labels. cbn [flat_map].
    destruct (frame_entry float_of_str f) as [ec | e]; [| discriminate].
    cbn [bind] in Hg. destruct (IH _ _ _ Hg Hk) as [H | H].
    + apply setdefault_append_keys in H. destruct H as [H | ->]; [left; exact H |].
      right. left. reflexivity.
    + right. apply in_or_app. right. exact H.
Qed.

End Totality.

Lemma max_by_from_In {A : Type} (key : A -> result Q) (xs : list A) :
  forall best kbest b,
  max_by_from key best kbest xs = Ok b -> b = best \/ In b xs.
Proof.
  induction xs as [| x xs IH]; intros best kbest b H; simpl in H.
  - injection H as <-. left. reflexivity.
  - destruct (key x) as [k | e]; [| discriminate]. cbn [bind] in H.
    destruct (Qltb kbest k).
    + destruct (IH _ _ _ H) as [-> | Hin]; [right; left; reflexivity | right; right; exact Hin].
    + destruct (IH _ _ _ H) as [-> | Hin]; [left; reflexivity | right; right; exact Hin].
Qed.

Lemma max_by_In {A : Type} (key : A -> result Q) (xs : list A) (b : A) :
  max_by key xs = Ok b -> In b xs.
Proof.
  destruct xs as [| x xs]; simpl; [discriminate |].
  destruct (key x) as [k | e]; [| discriminate]. cbn [bind].
  intros H. apply max_by_from_In in H. destruct H as [-> | H]; auto.
Qed.

Lemma choose_range (counts : list (string * list Q)) (fallback l : string) :
  choose counts fallback = Ok l -> l = fallback \/ In l (map fst counts).
Proof.
  unfold choose. destruct (keys_are_neutral counts).
  - intros H. injection H as <-. left. reflexivity.
  - set (nn := List.filter _ counts).
    assert (Hsub : forall kv, In kv nn -> In (fst kv) (map fst counts)).
    { intros kv Hkv. apply filter_In in Hkv. apply in_map. tauto. }
    destruct (Nat.eqb (List.length nn) 1).
    + destruct nn as [| kv nn']; [discriminate |].
      intros H. injection H as <-. right. apply Hsub. left. reflexivity.
    + destruct (max_by _ nn) as [b | e] eqn:E; [| discriminate].
      cbn [bind]. intros H. injection H as <-. right.
      apply Hsub. apply (max_by_In _ _ _ E).
Qed.







(** Replies whose frame gives the confidence as a boolean or as a string,
    not as a number: [float] reads both. *)
Definition boolean_confidence_reply : Fetch :=
  Response 200
    (Json (JObj [("data", JArr [JObj [("emotion", JStr "sad");
                                      ("confidence", JBool true)]])])).

Definition string_confidence_reply : Fetch :=
  Response 200
    (Json (JObj [("data", JArr [JObj [("emotion", JStr "sad");
                                      ("confidence", JStr "0.7")]])])).


(** A [float] on strings that reads "0.7". *)
Definition reads_0_7 (s : string) : option Q :=
  if String.eqb s "0.7" then Some 0.7%Q else None.

Example confidence_need_not_be_a_number :
  detect_emotion reads_0_7 string_confidence_reply unreachable_model None = "sad" /\
  no_window no_float boolean_confidence_reply = false /\
  no_window reads_0_7 string_confidence_reply = false /\
  no_window no_float string_confidence_reply = true.
Proof. repeat split; reflexivity. Qed.

End Bot.

(* ===================================================================== *)
(** * controller.py: the supervisor and its control surface               *)
(* ===================================================================== *)

Module Controller.
Import Py.

(** A [subprocess.Popen] object; the programs only read its [pid]. *)
Record Popen : Type := mkPopen { pid : Z }.

(** How a child reacts to the graceful request of [stop_process]
    ([p.terminate()], or [p.send_signal(CTRL_BREAK_EVENT)] on Windows)
    followed by the 0.8 s sleep, and to [p.kill()]. *)
Inductive TermOutcome : Type :=
| TermRaises (e : exn)
| ExitsInGrace
| SurvivesGrace.

Inductive KillOutcome : Type :=
| KillRaises (e : exn)
| Killed.

(** One [requests.get] of the readiness probe: what came back and how long
    the call (and any oversleeping after it) took. *)
Inductive GetOutcome : Type :=
| GetFails (e : exn)
| Status (code : Z).

Record Attempt : Type := mkAttempt {
  outcome : GetOutcome;
  took : Q
}.

(** The surroundings of the controller: the platform, the file system,
    what the n-th [Popen] call does, how children react to signals, what
    the n-th HTTP request to the producer gives, and the text [str(e)] of
    an exception. *)
Record Env : Type := mkEnv {
  nt : bool;
  path_exists : string -> bool;
  popen : nat -> string -> result Z;
  graceful : Z -> TermOutcome;
  kill : Z -> KillOutcome;
  http_get : nat -> Attempt;
  describe : exn -> string
}.

Inductive Event : Type :=
| EvCall (f name : string)
| EvReturn (f name : string)
| EvPopen (script : string) (r : result Z)
| EvGraceful (p : Z)
| EvKill (p : Z)
| EvSleep (d : Q)
| EvGet (n : nat) (o : GetOutcome)
| EvProbe (ready : bool).

(** The state the controller runs in: the module-level registry [PROCS],
    the children still running (those whose [poll()] is [None]), the
    clock, the numbers of [Popen] calls and HTTP requests made so far, and
    the events so far, oldest first. *)
Record World : Type := mkWorld {
  PROCS : gmap string (option Popen);
  alive : gset Z;
  clock : Q;
  spawns : nat;
  requests : nat;
  trace : list Event
}.

(** [PROCS = {"emotion": None, "bot": None}] *)
Definition PROCS0 : gmap string (option Popen) :=
  <["bot" := None]> (<["emotion" := None]> ∅).

Definition log (ev : Event) (w : World) : World :=
  mkWorld (PROCS w) (alive w) (clock w) (spawns w) (requests w) (trace w ++ [ev]).

Definition set_proc (name : string) (v : option Popen) (w : World) : World :=
  mkWorld (<[name := v]> (PROCS w)) (alive w) (clock w) (spawns w) (requests w)
          (trace w).

Definition sleep (d : Q) (w : World) : World :=
  mkWorld (PROCS w) (alive w) (clock w + d)%Q (spawns w) (requests w)
          (trace w ++ [EvSleep d]).

Definition exits (p : Z) (w : World) : World :=
  mkWorld (PROCS w) (alive w ∖ {[p]}) (clock w) (spawns w) (requests w) (trace w).

(** The dict a control operation returns; ["pid"] is present only in some
    of them. *)
Record Result : Type := mkResult {
  ok : bool;
  message : string;
  r_pid : option Z
}.

(** [PROCS.get(name)] *)
Definition get_proc (w : World) (name : string) : option Popen :=
  match PROCS w !! name with
  | Some (Some p) => Some p
  | _ => None
  end.

(** [p.poll() is None] *)
Definition poll_is_none (w : World) (p : Popen) : bool :=
  bool_decide (pid p ∈ alive w).

Definition is_running (w : World) (name : string) : bool :=
  match get_proc w name with
  | Some p => poll_is_none w p
  | None => false
  end.

(** [subprocess.Popen([pyexe(), script], ...)] *)
Definition spawn (env : Env) (script : string) (w : World) : result Popen * World :=
  let r := popen env (spawns w) script in
  let w1 := mkWorld (PROCS w) (alive w) (clock w) (S (spawns w)) (requests w)
                    (trace w ++ [EvPopen script r]) in
  match r with
  | Raise e => (Raise e, w1)
  | Ok child =>
      (Ok (mkPopen child),
       mkWorld (PROCS w1) (alive w1 ∪ {[child]}) (clock w1) (spawns w1)
               (requests w1) (trace w1))
  end.

Definition start_process (env : Env) (name script : string) (w : World)
  : result Result * World :=
  let w := log (EvCall "start_process" name) w in
  if is_running w name then
    match PROCS w !! name with
    | Some (Some p) =>
        (Ok (mkResult true (name +:+ " already running") (Some (pid p))),
         log (EvReturn "start_process" name) w)
    | Some None => (Raise AttributeError, w)
    | None => (Raise KeyError, w)
    end
  else if negb (path_exists env script) then
    (Ok (mkResult false ("Missing file: " +:+ script) None),
     log (EvReturn "start_process" name) w)
  else
    match spawn env script w with
    | (Raise e, w1) => (Raise e, w1)
    | (Ok p, w1) =>
        (Ok (mkResult true ("Started " +:+ name) (Some (pid p))),
         log (EvReturn "start_process" name) (set_proc name (Some p) w1))
    end.

(** The [try] block of [stop_process], entered with a recorded process
    that is still running. *)
Definition stop_try (env : Env) (name : string) (p : Popen) (w : World)
  : result Result * World :=
  let w1 := log (EvGraceful (pid p)) w in
  match graceful env (pid p) with
  | TermRaises e => (Raise e, w1)
  | reaction =>
      let w2 := sleep 0.8 w1 in
      let w3 := match reaction with
                | ExitsInGrace => exits (pid p) w2
                | _ => w2
                end in
      let killed :=
        if poll_is_none w3 p then
          match kill env (pid p) with
          | KillRaises e => (Raise e, log (EvKill (pid p)) w3)
          | Killed => (Ok tt, exits (pid p) (log (EvKill (pid p)) w3))
          end
        else (Ok tt, w3) in
      match killed with
      | (Raise e, w4) => (Raise e, w4)
      | (Ok _, w4) =>
          (Ok (mkResult true ("Stopped " +:+ name) None), set_proc name None w4)
      end
  end.

Definition stop_process (env : Env) (name : string) (w : World) : Result * World :=
  let w := log (EvCall "stop_process" name) w in
  let (res, w') :=
    match get_proc w name with
    | None => (mkResult true (name +:+ " not running") None, w)
    | Some p =>
        if negb (poll_is_none w p) then
          (mkResult true (name +:+ " already stopped") None, set_proc name None w)
        else
          match stop_try env name p w with
          | (Ok res, w1) => (res, w1)
          | (Raise e, w1) =>
              (mkResult false ("Stop failed: " +:+ describe env e) None, w1)
          end
    end in
  (res, log (EvReturn "stop_process" name) w').

(** [r.status_code == 200] inside [try ... except Exception: pass] *)
Definition is_ready (o : GetOutcome) : bool :=
  match o with
  | Status code => (code =? 200)%Z
  | GetFails _ => false
  end.

Definition do_get (env : Env) (w : World) : GetOutcome * World :=
  let a := http_get env (requests w) in
  (outcome a,
   mkWorld (PROCS w) (alive w) (clock w + took a)%Q (spawns w) (S (requests w))
           (trace w ++ [EvGet (requests w) (outcome a)])).

(** The [while] loop of [wait_for_emotion_api]; [None] means the model ran
    out of fuel before the loop ended. *)
Fixpoint wait_loop (env : Env) (fuel : nat) (timeout start : Q) (w : World)
  : option (bool * World) :=
  match fuel with
  | O => None
  | S fuel' =>
      if Qltb (clock w - start) timeout then
        let (o, w1) := do_get env w in
        if is_ready o then Some (true, log (EvProbe true) w1)
        else wait_loop env fuel' timeout start (sleep 0.2 w1)
      else Some (false, log (EvProbe false) w)
  end.

(** Passes through the loop that suffice when every pass takes at least
    the 0.2 s of its sleep. *)
Definition probe_fuel (timeout : Q) : nat := S (Z.to_nat (Qceiling (timeout * 5))).

Definition wait_for_emotion_api (env : Env) (timeout : Q) (w : World)
  : option (bool * World) :=
  wait_loop env (probe_fuel timeout) timeout (clock w) w.

Record StatusPayload : Type := mkStatus {
  emotion_running : bool;
  bot_running : bool;
  emotion_pid : option Z;
  bot_pid : option Z;
  emotion_api_reachable : bool
}.

(** [PROCS[name].pid if is_running(name) else None] *)
Definition pid_if_running (w : World) (name : string) : option Z :=
  if is_running w name then
    match PROCS w !! name with
    | Some (Some p) => Some (pid p)
    | _ => None
    end
  else None.

Definition status_payload (env : Env) (w : World) : option (StatusPayload * World) :=
  match wait_for_emotion_api env 0.1 w with
  | None => None
  | Some (reachable, w') =>
      Some (mkStatus (is_running w "emotion") (is_running w "bot")
                     (pid_if_running w "emotion") (pid_if_running w "bot")
                     reachable, w')
  end.

Record StartResponse : Type := mkStartResponse {
  sr_emotion : Result;
  emotion_api_ready : bool;
  sr_bot : Result
}.

(** [POST /start] *)
Definition start (env : Env) (w : World) : option (result StartResponse * World) :=
  match start_process env "emotion" "emotion_webcam.py" w with
  | (Raise e, w1) => Some (Raise e, w1)
  | (Ok res_emotion, w1) =>
      match wait_for_emotion_api env 30 w1 with
      | None => None
      | Some (true, w2) =>
          match start_process env "bot" "main_integrated.py" w2 with
          | (Raise e, w3) => Some (Raise e, w3)
          | (Ok res_bot, w3) =>
              Some (Ok (mkStartResponse res_emotion true res_bot), w3)
          end
      | Some (false, w2) =>
          Some (Ok (mkStartResponse res_emotion false
                      (mkResult false
                         "Emotion API did not come up. Bot not started." None)),
                w2)
      end
  end.

Record StopResponse : Type := mkStopResponse {
  sp_bot : Result;
  sp_emotion : Result
}.

(** [POST /stop] *)
Definition stop (env : Env) (w : World) : StopResponse * World :=
  let (res_bot, w1) := stop_process env "bot" w in
  let (res_emotion, w2) := stop_process env "emotion" w1 in
  (mkStopResponse res_bot res_emotion, w2).

(** ** Starting a service *)

Lemma is_running_log (ev : Event) (w : World) (name : string) :
  is_running (log ev w) name = is_running w name.
Proof. reflexivity. Qed.

Lemma is_running_true (w : World) (name : string) :
  is_running w name = true <->
  exists p, PROCS w !! name = Some (Some p) /\ pid p ∈ alive w.
Proof.
  unfold is_running, get_proc, poll_is_none.
  destruct (PROCS w !! name) as [[p |] |]; split.
  - intros H. apply bool_decide_eq_true in H. exists p. auto.
  - intros (q & E & H). injection E as <-. apply bool_decide_eq_true. exact H.
  - discriminate.
  - intros (q & E & _). discriminate.
  - discriminate.
  - intros (q & E & _). discriminate.
Qed.

Definition popen_events (t : list Event) : list Event :=
  List.filter (fun ev => match ev with EvPopen _ _ => true | _ => false end) t.

(** C2. [start_process] is idempotent.  For a service whose recorded
    process is running, it returns success with the pid of that process,
    leaves the registry, the set of running children and the number of
    [Popen] calls as they were, and emits no [Popen] event.  Hence two
    calls in succession, the first of which spawns a child that is running
    when the second is made, return the same pid, make one [Popen] call in
    total, and the second leaves the stored handle as the first set it. *)
Theorem start_process_idempotent (env : Env) (name script : string) (w : World) :
  (forall p, PROCS w !! name = Some (Some p) -> pid p ∈ alive w ->
   exists w',
     start_process env name script w =
       (Ok (mkResult true (name +:+ " already running") (Some (pid p))), w') /\
     PROCS w' = PROCS w /\ alive w' = alive w /\ spawns w' = spawns w /\
     trace w' = trace w ++ [EvCall "start_process" name;
                            EvReturn "start_process" name]) /\
  (forall child, is_running w name = false -> path_exists env script = true ->
   popen env (spawns w) script = Ok child ->
   exists r2 w1 w2,
     start_process env name script w =
       (Ok (mkResult true ("Started " +:+ name) (Some child)), w1) /\
     start_process env name script w1 = (Ok r2, w2) /\
     ok r2 = true /\ r_pid r2 = Some child /\
     PROCS w1 !! name = Some (Some (mkPopen child)) /\
     PROCS w2 = PROCS w1 /\ alive w2 = alive w1 /\
     spawns w2 = S (spawns w) /\
     exists t, trace w2 = trace w ++ t /\
               popen_events t = [EvPopen script (Ok child)]).
Proof.
  assert (Hrun : forall (w0 : World) p, PROCS w0 !! name = Some (Some p) ->
            pid p ∈ alive w0 ->
            start_process env name script w0 =
              (Ok (mkResult true (name +:+ " already running") (Some (pid p))),
               log (EvReturn "start_process" name)
                   (log (EvCall "start_process" name) w0))).
  { intros w0 p Hp Ha. unfold start_process. rewrite is_running_log.
    assert (Hr : is_running w0 name = true)
      by (apply is_running_true; exists p; auto).
    rewrite Hr. cbn [log PROCS]. rewrite Hp. reflexivity. }
  split.
  - intros p Hp Ha. eexists. split; [apply Hrun; assumption |].
    cbn. rewrite <- app_assoc. auto.
  - intros child Hnot Hex Hpo.
    set (w1 := log (EvReturn "start_process" name)
                 (set_proc name (Some (mkPopen child))
                    (snd (spawn env script (log (EvCall "start_process" name) w))))).
    assert (H1 : start_process env name script w =
                 (Ok (mkResult true ("Started " +:+ name) (Some child)), w1)).
    { unfold start_process. rewrite is_running_log, Hnot, Hex. cbn [negb].
      subst w1. unfold spawn. cbn [log spawns]. rewrite Hpo. reflexivity. }
    assert (Hp1 : PROCS w1 !! name = Some (Some (mkPopen child))).
    { subst w1. unfold spawn. cbn [log spawns]. rewrite Hpo. cbn.
      apply lookup_insert_eq. }
    assert (Ha1 : pid (mkPopen child) ∈ alive w1).
    { subst w1. unfold spawn. cbn [log spawns]. rewrite Hpo. cbn. set_solver. }
    exists (mkResult true (name +:+ " already running") (Some child)).
    exists w1. eexists.
    split; [exact H1 |]. split; [apply (Hrun w1 _ Hp1 Ha1) |].
    cbn. split; [reflexivity |]. split; [reflexivity |]. split; [exact Hp1 |].
    split; [reflexivity |]. split; [reflexivity |].
    subst w1. unfold spawn. cbn [log spawns]. rewrite Hpo. cbn.
    split; [reflexivity |].
    eexists. split.
    + rewrite <- !app_assoc. reflexivity.
    + reflexivity.
Qed.

(** ** Stopping a service *)

Lemma not_alive_after_exit (p : Z) (running : gset Z) : p ∉ running ∖ {[p]}.
Proof.
  intros H. apply elem_of_difference in H. destruct H as [_ H].
  apply H, elem_of_singleton. reflexivity.
Qed.

Lemma get_proc_set_None (w : World) (name : string) :
  get_proc (set_proc name None w) name = None.
Proof.
  unfold get_proc, set_proc. cbn. rewrite lookup_insert_eq. reflexivity.
Qed.

Lemma get_proc_log (ev : Event) (w : World) (name : string) :
  get_proc (log ev w) name = get_proc w name.
Proof. reflexivity. Qed.

(** The termination primitive raises: the recorded process is running and
    either the graceful request raises or the process survives the grace
    period and [kill] raises. *)
Definition primitive_raises (env : Env) (w : World) (name : string) : bool :=
  match get_proc w name with
  | Some p =>
      poll_is_none w p &&
      match graceful env (pid p) with
      | TermRaises _ => true
      | ExitsInGrace => false
      | SurvivesGrace =>
          match kill env (pid p) with
          | KillRaises _ => true
          | Killed => false
          end
      end
  | None => false
  end.

(** The events an operation adds to the trace. *)
Definition emitted (w w' : World) : list Event :=
  skipn (List.length (trace w)) (trace w').

Lemma emitted_app (w w' : World) (t : list Event) :
  trace w' = trace w ++ t -> emitted w w' = t.
Proof.
  intros E. unfold emitted. rewrite E, List.skipn_app, List.skipn_all, Nat.sub_diag.
  reflexivity.
Qed.

Section StopCases.

Variables (env : Env) (name : string) (w : World).

Let entered : World := log (EvCall "stop_process" name) w.
Let returned (w0 : World) : World := log (EvReturn "stop_process" name) w0.

Lemma stop_not_recorded :
  get_proc w name = None ->
  stop_process env name w =
    (mkResult true (name +:+ " not running") None, returned entered).
Proof.
  intros Eg. unfold stop_process. rewrite get_proc_log, Eg. reflexivity.
Qed.

Lemma stop_already_exited (p : Popen) :
  get_proc w name = Some p -> pid p ∉ alive w ->
  stop_process env name w =
    (mkResult true (name +:+ " already stopped") None,
     returned (set_proc name None entered)).
Proof.
  intros Eg Ha. unfold stop_process. rewrite get_proc_log, Eg.
  unfold poll_is_none. cbn [log alive]. rewrite bool_decide_eq_false_2 by exact Ha.
  reflexivity.
Qed.

Lemma stop_graceful_raises (p : Popen) (e : exn) :
  get_proc w name = Some p -> pid p ∈ alive w ->
  graceful env (pid p) = TermRaises e ->
  stop_process env name w =
    (mkResult false ("Stop failed: " +:+ describe env e) None,
     returned (log (EvGraceful (pid p)) entered)).
Proof.
  intros Eg Ha Et. unfold stop_process. rewrite get_proc_log, Eg.
  unfold poll_is_none. cbn [log alive]. rewrite bool_decide_eq_true_2 by exact Ha.
  cbn [negb]. unfold stop_try. rewrite Et. reflexivity.
Qed.

Lemma stop_exits_in_grace (p : Popen) :
  get_proc w name = Some p -> pid p ∈ alive w ->
  graceful env (pid p) = ExitsInGrace ->
  stop_process env name w =
    (mkResult true ("Stopped " +:+ name) None,
     returned (set_proc name None
                 (exits (pid p) (sleep 0.8 (log (EvGraceful (pid p)) entered))))).
Proof.
  intros Eg Ha Et. unfold stop_process. rewrite get_proc_log, Eg.
  unfold poll_is_none at 1. cbn [log alive].
  rewrite bool_decide_eq_true_2 by exact Ha.
  cbn [negb]. unfold stop_try. rewrite Et.
  unfold poll_is_none. cbn [exits sleep log alive].
  rewrite bool_decide_eq_false_2 by apply not_alive_after_exit. reflexivity.
Qed.

Lemma stop_kill_raises (p : Popen) (e : exn) :
  get_proc w name = Some p -> pid p ∈ alive w ->
  graceful env (pid p) = SurvivesGrace -> kill env (pid p) = KillRaises e ->
  stop_process env name w =
    (mkResult false ("Stop failed: " +:+ describe env e) None,
     returned (log (EvKill (pid p))
                 (sleep 0.8 (log (EvGraceful (pid p)) entered)))).
Proof.
  intros Eg Ha Et Ek. unfold stop_process. rewrite get_proc_log, Eg.
  unfold poll_is_none at 1. cbn [log alive].
  rewrite bool_decide_eq_true_2 by exact Ha.
  cbn [negb]. unfold stop_try. rewrite Et.
  unfold poll_is_none. cbn [exits sleep log alive].
  rewrite bool_decide_eq_true_2 by exact Ha. rewrite Ek. reflexivity.
Qed.

Lemma stop_killed (p : Popen) :
  get_proc w name = Some p -> pid p ∈ alive w ->
  graceful env (pid p) = SurvivesGrace -> kill env (pid p) = Killed ->
  stop_process env name w =
    (mkResult true ("Stopped " +:+ name) None,
     returned (set_proc name None
                 (exits (pid p)
                    (log (EvKill (pid p))
                       (sleep 0.8 (log (EvGraceful (pid p)) entered)))))).
Proof.
  intros Eg Ha Et Ek. unfold stop_process. rewrite get_proc_log, Eg.
  unfold poll_is_none at 1. cbn [log alive].
  rewrite bool_decide_eq_true_2 by exact Ha.
  cbn [negb]. unfold stop_try. rewrite Et.
  unfold poll_is_none. cbn [exits sleep log alive].
  rewrite bool_decide_eq_true_2 by exact Ha. rewrite Ek. reflexivity.
Qed.

End StopCases.

(** Events of the inside of [stop_process]. *)
Definition is_signal_event (ev : Event) : Prop :=
  match ev with
  | EvGraceful _ | EvKill _ | EvSleep _ => True
  | _ => False
  end.

(** The six ways through [stop_process]. *)
Inductive StopCase (env : Env) (name : string) (w : World) : Type :=
| NotRecorded (Eg : get_proc w name = None)
| AlreadyExited (p : Popen) (Eg : get_proc w name = Some p) (Ha : pid p ∉ alive w)
| GracefulRaises (p : Popen) (e : exn) (Eg : get_proc w name = Some p)
    (Ha : pid p ∈ alive w) (Et : graceful env (pid p) = TermRaises e)
| Graceful (p : Popen) (Eg : get_proc w name = Some p)
    (Ha : pid p ∈ alive w) (Et : graceful env (pid p) = ExitsInGrace)
| KillFails (p : Popen) (e : exn) (Eg : get_proc w name = Some p)
    (Ha : pid p ∈ alive w) (Et : graceful env (pid p) = SurvivesGrace)
    (Ek : kill env (pid p) = KillRaises e)
| ForceKilled (p : Popen) (Eg : get_proc w name = Some p)
    (Ha : pid p ∈ alive w) (Et : graceful env (pid p) = SurvivesGrace)
    (Ek : kill env (pid p) = Killed).

Lemma stop_case (env : Env) (name : string) (w : World) : StopCase env name w.
Proof.
  destruct (get_proc w name) as [p |] eqn:Eg; [| apply NotRecorded; exact Eg].
  destruct (decide (pid p ∈ alive w)) as [Ha | Ha];
    [| apply (AlreadyExited _ _ _ p); assumption].
  destruct (graceful env (pid p)) as [e | |] eqn:Et.
  - apply (GracefulRaises _ _ _ p e); assumption.
  - apply (Graceful _ _ _ p); assumption.
  - destruct (kill env (pid p)) as [e |] eqn:Ek.
    + apply (KillFails _ _ _ p e); assumption.
    + apply (ForceKilled _ _ _ p); assumption.
Qed.

Lemma primitive_raises_case (env : Env) (name : string) (w : World) :
  primitive_raises env w name =
  match stop_case env name w with
  | GracefulRaises _ _ _ _ _ _ _ _ | KillFails _ _ _ _ _ _ _ _ _ => true
  | _ => false
  end.
Proof.
  unfold primitive_raises, poll_is_none.
  destruct (stop_case env name w); rewrite Eg;
    try reflexivity;
    try (rewrite bool_decide_eq_false_2 by exact Ha; reflexivity);
    rewrite bool_decide_eq_true_2 by exact Ha; rewrite Et; try rewrite Ek;
    reflexivity.
Qed.

Ltac stop_eq :=
  match goal with
  | Ek : kill _ _ = Killed |- _ =>
      rewrite (stop_killed _ _ _ _ ltac:(eassumption) ltac:(eassumption)
                 ltac:(eassumption) Ek) in *
  | Ek : kill _ _ = KillRaises _ |- _ =>
      rewrite (stop_kill_raises _ _ _ _ _ ltac:(eassumption) ltac:(eassumption)
                 ltac:(eassumption) Ek) in *
  | Et : graceful _ _ = ExitsInGrace |- _ =>
      rewrite (stop_exits_in_grace _ _ _ _ ltac:(eassumption) ltac:(eassumption) Et) in *
  | Et : graceful _ _ = TermRaises _ |- _ =>
      rewrite (stop_graceful_raises _ _ _ _ _ ltac:(eassumption) ltac:(eassumption) Et) in *
  | Ha : _ ∉ alive _ |- _ =>
      rewrite (stop_already_exited _ _ _ _ ltac:(eassumption) Ha) in *
  | Eg : get_proc _ _ = None |- _ =>
      rewrite (stop_not_recorded _ _ _ Eg) in *
  end.

Lemma stop_process_ok (env : Env) (name : string) (w : World) :
  ok (fst (stop_process env name w)) = negb (primitive_raises env w name).
Proof.
  rewrite primitive_raises_case.
  destruct (stop_case env name w); stop_eq; reflexivity.
Qed.

Lemma stop_process_clears (env : Env) (name : string) (w : World) :
  ok (fst (stop_process env name w)) = true ->
  get_proc (snd (stop_process env name w)) name = None /\
  forall p, get_proc w name = Some p ->
            pid p ∉ alive (snd (stop_process env name w)).
Proof.
  destruct (stop_case env name w); stop_eq; cbn [fst snd ok];
    try discriminate; intros _.
  - split; [exact Eg | intros q E; congruence].
  - split; [apply get_proc_set_None |].
    intros q E. rewrite Eg in E. injection E as <-. exact Ha.
  - split; [apply get_proc_set_None |].
    intros q E. rewrite Eg in E. injection E as <-. cbn.
    apply not_alive_after_exit.
  - split; [apply get_proc_set_None |].
    intros q E. rewrite Eg in E. injection E as <-. cbn.
    apply not_alive_after_exit.
Qed.

Lemma stop_process_failure_frame (env : Env) (name : string) (w : World) :
  ok (fst (stop_process env name w)) = false ->
  PROCS (snd (stop_process env name w)) = PROCS w.
Proof.
  destruct (stop_case env name w); stop_eq; cbn [fst snd ok];
    try discriminate; reflexivity.
Qed.

Lemma stop_process_other (env : Env) (name other : string) (w : World) :
  other <> name ->
  PROCS (snd (stop_process env name w)) !! other = PROCS w !! other.
Proof.
  intros Hne.
  destruct (stop_case env name w); stop_eq; cbn; try reflexivity;
    apply lookup_insert_ne; auto.
Qed.

Lemma stop_process_trace (env : Env) (name : string) (w : World) :
  exists t,
    trace (snd (stop_process env name w)) =
      trace w ++ [EvCall "stop_process" name] ++ t ++ [EvReturn "stop_process" name] /\
    Forall is_signal_event t /\
    (forall p, In (EvKill p) t ->
       get_proc w name = Some (mkPopen p) /\ p ∈ alive w /\
       graceful env p = SurvivesGrace).
Proof.
  destruct (stop_case env name w); stop_eq; cbn [snd];
    [ exists []
    | exists []
    | exists [EvGraceful (pid p)]
    | exists [EvGraceful (pid p); EvSleep 0.8]
    | exists [EvGraceful (pid p); EvSleep 0.8; EvKill (pid p)]
    | exists [EvGraceful (pid p); EvSleep 0.8; EvKill (pid p)] ];
    (split; [cbn; rewrite <- ?app_assoc; reflexivity |]);
    (split; [repeat constructor |]);
    intros q Hq; cbn in Hq; intuition (try discriminate);
    match goal with H : EvKill _ = EvKill _ |- _ => injection H as <- end;
    destruct p; cbn in *; auto.
Qed.

(** C3. [stop_process] is best-effort and always terminal.  It reports
    failure exactly when the termination primitive raises.  When it reports
    success (nothing recorded, the process already exited, it exited within
    the grace period, or it survived and was killed) no process is recorded
    for the name afterwards and the process that was recorded is not
    running; when it reports failure the registry is left as it was.
    Entries of other names are never touched.  The four ways to succeed are
    spelled out: nothing recorded; already exited; exits within the grace
    period (no kill is sent); survives the grace period and is killed (a
    kill is sent). *)
Theorem stop_process_best_effort (env : Env) (name : string) (w : World) :
  let res := fst (stop_process env name w) in
  let w' := snd (stop_process env name w) in
  ok res = negb (primitive_raises env w name) /\
  (ok res = true ->
   get_proc w' name = None /\
   forall p, get_proc w name = Some p -> pid p ∉ alive w') /\
  (ok res = false -> PROCS w' = PROCS w) /\
  (forall other, other <> name -> PROCS w' !! other = PROCS w !! other) /\
  (get_proc w name = None -> ok res = true /\ PROCS w' = PROCS w) /\
  (forall p, get_proc w name = Some p -> pid p ∉ alive w -> ok res = true) /\
  (forall p, get_proc w name = Some p -> pid p ∈ alive w ->
   graceful env (pid p) = ExitsInGrace ->
   ok res = true /\ ~ In (EvKill (pid p)) (emitted w w')) /\
  (forall p, get_proc w name = Some p -> pid p ∈ alive w ->
   graceful env (pid p) = SurvivesGrace -> kill env (pid p) = Killed ->
   ok res = true /\ In (EvKill (pid p)) (emitted w w')).
Proof.
  intros res w'. subst res w'.
  split; [apply stop_process_ok |].
  split; [apply stop_process_clears |].
  split; [apply stop_process_failure_frame |].
  split; [intros other Hne; apply stop_process_other, Hne |].
  split; [| split; [| split]].
  - intros Eg. rewrite (stop_not_recorded _ _ _ Eg). split; reflexivity.
  - intros p Eg Ha. rewrite (stop_already_exited _ _ _ _ Eg Ha). reflexivity.
  - intros p Eg Ha Et. rewrite (stop_exits_in_grace _ _ _ _ Eg Ha Et).
    split; [reflexivity |].
    erewrite emitted_app; [| cbn; rewrite <- !app_assoc; reflexivity].
    cbn. intuition discriminate.
  - intros p Eg Ha Et Ek. rewrite (stop_killed _ _ _ _ Eg Ha Et Ek).
    split; [reflexivity |].
    erewrite emitted_app; [| cbn; rewrite <- !app_assoc; reflexivity].
    cbn. auto.
Qed.

(** ** Concrete surroundings used to exercise the statements *)

(** A POSIX machine on which every script exists, the n-th [Popen] yields
    pid 100 + n, children ignore the graceful request but can be killed,
    and the producer never answers. *)
Definition stubborn_env : Env :=
  mkEnv false (fun _ => true) (fun n _ => Ok (Z.of_nat (100 + n)))
        (fun _ => SurvivesGrace) (fun _ => Killed)
        (fun _ => mkAttempt (GetFails RequestException) 0.4)
        (fun _ => "error").

(** The same machine, except that [Popen] fails. *)
Definition no_fork_env : Env :=
  mkEnv false (fun _ => true) (fun _ _ => Raise OSError)
        (fun _ => SurvivesGrace) (fun _ => Killed)
        (fun _ => mkAttempt (GetFails RequestException) 0.4)
        (fun _ => "error").

(** The controller right after import: nothing recorded, nothing running. *)
Definition world0 : World := mkWorld PROCS0 ∅ 0 0 0 [].

(** The producer recorded with pid 7 and running. *)
Definition world_emotion_up : World :=
  mkWorld (<["emotion" := Some (mkPopen 7)]> PROCS0) {[ 7%Z ]} 0 1 0 [].

(** The producer recorded with pid 7, but the process has exited. *)
Definition world_emotion_dead : World :=
  mkWorld (<["emotion" := Some (mkPopen 7)]> PROCS0) ∅ 0 1 0 [].

Lemma start_process_idempotent_witness :
  (exists w',
     start_process stubborn_env "emotion" "emotion_webcam.py" world_emotion_up =
       (Ok (mkResult true "emotion already running" (Some 7%Z)), w') /\
     PROCS w' = PROCS world_emotion_up /\ alive w' = alive world_emotion_up /\
     spawns w' = spawns world_emotion_up /\
     trace w' = trace world_emotion_up ++
                [EvCall "start_process" "emotion";
                 EvReturn "start_process" "emotion"]) /\
  (exists r2 w1 w2,
     start_process stubborn_env "emotion" "emotion_webcam.py" world0 =
       (Ok (mkResult true "Started emotion" (Some 100%Z)), w1) /\
     start_process stubborn_env "emotion" "emotion_webcam.py" w1 = (Ok r2, w2) /\
     ok r2 = true /\ r_pid r2 = Some 100%Z /\
     PROCS w1 !! "emotion" = Some (Some (mkPopen 100)) /\
     PROCS w2 = PROCS w1 /\ alive w2 = alive w1 /\
     spawns w2 = S (spawns world0) /\
     exists t, trace w2 = trace world0 ++ t /\
               popen_events t = [EvPopen "emotion_webcam.py" (Ok 100%Z)]).
Proof.
  split.
  - apply (proj1 (start_process_idempotent stubborn_env "emotion"
                    "emotion_webcam.py" world_emotion_up) (mkPopen 7)).
    + reflexivity.
    + vm_compute. reflexivity.
  - apply (proj2 (start_process_idempotent stubborn_env "emotion"
                    "emotion_webcam.py" world0) 100%Z); reflexivity.
Defined.

Lemma stop_process_best_effort_witness :
  let res := fst (stop_process stubborn_env "emotion" world_emotion_up) in
  let w' := snd (stop_process stubborn_env "emotion" world_emotion_up) in
  ok res = true /\
  get_proc w' "emotion" = None /\
  (7%Z ∉ alive w') /\
  In (EvKill 7) (emitted world_emotion_up w').
Proof.
  pose proof (stop_process_best_effort stubborn_env "emotion" world_emotion_up)
    as (_ & Hclear & _ & _ & _ & _ & _ & Hkill).
  destruct (Hkill (mkPopen 7)) as [Hok Hev];
    [reflexivity | vm_compute; reflexivity | reflexivity | reflexivity |].
  destruct (Hclear Hok) as [Hnone Hdead].
  split; [exact Hok |]. split; [exact Hnone |].
  split; [apply (Hdead (mkPopen 7)); reflexivity | exact Hev].
Defined.

(** ** Launch failures *)

(** What [start_process] does when the launch fails: for a missing script
    it returns a failure dict; when [Popen] raises, the exception leaves the
    function.  The registry is unchanged in both cases. *)
Lemma start_process_launch_failure (env : Env) (name script : string) (w : World) :
  is_running w name = false ->
  (path_exists env script = false ->
   exists w',
     start_process env name script w =
       (Ok (mkResult false ("Missing file: " +:+ script) None), w') /\
     PROCS w' = PROCS w /\ popen_events (emitted w w') = []) /\
  (forall e, path_exists env script = true ->
   popen env (spawns w) script = Raise e ->
   exists w', start_process env name script w = (Raise e, w') /\ PROCS w' = PROCS w).
Proof.
  intros Hnot. split.
  - intros Hex. unfold start_process. rewrite is_running_log, Hnot, Hex. cbn [negb].
    eexists. split; [reflexivity |]. split; [reflexivity |].
    erewrite emitted_app; [| cbn; rewrite <- app_assoc; reflexivity]. reflexivity.
  - intros e Hex Hpo. unfold start_process. rewrite is_running_log, Hnot, Hex.
    cbn [negb]. unfold spawn. cbn [log spawns]. rewrite Hpo.
    eexists. split; reflexivity.
Qed.

(** C8, at a launch whose [Popen] call fails although the script exists:
    [start_process] does not return a failure dict, the [OSError] leaves
    it; the registry is unchanged. *)
Theorem start_process_popen_error_escapes :
  fst (start_process no_fork_env "bot" "main_integrated.py" world0) = Raise OSError /\
  PROCS (snd (start_process no_fork_env "bot" "main_integrated.py" world0)) =
    PROCS world0.
Proof.
  split; reflexivity.
Qed.

(** ** The readiness probe *)

(** The time that has passed when the loop makes its [k]-th test, counted
    from 0, if none of the earlier requests succeeded: each earlier pass
    took the time of its request plus the 0.2 s sleep.  [r0] is the number
    of requests made before the probe started. *)
Fixpoint elapsed_before (env : Env) (r0 k : nat) : Q :=
  match k with
  | O => 0
  | S k' => elapsed_before env r0 k' + took (http_get env (r0 + k')) + 0.2
  end.

(** The [k]-th request of the probe gets status 200. *)
Definition ready_at (env : Env) (r0 k : nat) : bool :=
  is_ready (outcome (http_get env (r0 + k))).

(** Events of the probe other than its verdict. *)
Definition is_probe_io (ev : Event) : Prop :=
  match ev with
  | EvGet _ _ | EvSleep _ => True
  | _ => False
  end.

Lemma inject_Z_S (n : nat) :
  (inject_Z (Z.of_nat (S n)) == inject_Z (Z.of_nat n) + 1)%Q.
Proof.
  rewrite Nat2Z.inj_succ. unfold Z.succ. rewrite inject_Z_plus. reflexivity.
Qed.

Section Probe.

Variables (env : Env) (timeout start : Q) (r0 : nat).

Hypothesis took_nonneg : forall n, (0 <= took (http_get env n))%Q.

Lemma wait_loop_spec (fuel : nat) : forall (w : World) (j : nat),
  requests w = (r0 + j)%nat ->
  (clock w - start == elapsed_before env r0 j)%Q ->
  ((timeout - elapsed_before env r0 j) * 5 <= inject_Z (Z.of_nat fuel))%Q ->
  exists b w' k,
    wait_loop env (S fuel) timeout start w = Some (b, w') /\
    (j <= k)%nat /\
    (forall i, (j <= i < k)%nat ->
       ready_at env r0 i = false /\ (elapsed_before env r0 i < timeout)%Q) /\
    (b = true ->
       ready_at env r0 k = true /\ (elapsed_before env r0 k < timeout)%Q /\
       requests w' = (r0 + S k)%nat /\
       (clock w' - start == elapsed_before env r0 k + took (http_get env (r0 + k)))%Q) /\
    (b = false ->
       (timeout <= elapsed_before env r0 k)%Q /\ requests w' = (r0 + k)%nat /\
       (clock w' - start == elapsed_before env r0 k)%Q) /\
    PROCS w' = PROCS w /\ alive w' = alive w /\ spawns w' = spawns w /\
    exists t, trace w' = trace w ++ t ++ [EvProbe b] /\ Forall is_probe_io t.
Proof.
  induction fuel as [| fuel IH]; intros w j Hreq Hclk Hfuel.
  - (* no pass left: the deadline has passed *)
    assert (Hle : (timeout <= clock w - start)%Q).
    { change (inject_Z (Z.of_nat 0)) with 0%Q in Hfuel. lra. }
    cbn [wait_loop]. apply Qltb_false in Hle. rewrite Hle.
    exists false, (log (EvProbe false) w), j.
    split; [reflexivity |]. split; [lia |]. split; [intros i Hi; lia |].
    split; [discriminate |].
    split; [intros _; apply Qltb_false in Hle; split; [lra | auto] |].
    repeat (split; [reflexivity |]). exists []. split; [reflexivity | constructor].
  - cbn [wait_loop]. destruct (Qltb (clock w - start) timeout) eqn:Elt.
    + apply Qltb_true in Elt. unfold do_get. rewrite Hreq.
      destruct (is_ready (outcome (http_get env (r0 + j)))) eqn:Er.
      * (* status 200: return at once *)
        eexists true, _, j. split; [reflexivity |].
        split; [lia |]. split; [intros i Hi; lia |].
        split.
        { intros _. split; [exact Er |]. split; [lra |].
          cbn. split; [lia | lra]. }
        split; [discriminate |].
        repeat (split; [reflexivity |]).
        exists [EvGet (r0 + j) (outcome (http_get env (r0 + j)))].
        split; [cbn; rewrite <- app_assoc; reflexivity |].
        repeat constructor.
      * (* anything else: sleep and go round again *)
        set (w2 := sleep 0.2 _).
        assert (Hclk2 : (clock w2 - start == elapsed_before env r0 (S j))%Q).
        { subst w2. cbn. lra. }
        destruct (IH w2 (S j)) as (b & w' & k & Hr & Hjk & Hbefore & Ht & Hf & Hp & Ha & Hs & (t & Htr & Hio)).
        { subst w2. cbn. lia. }
        { exact Hclk2. }
        { pose proof (took_nonneg (r0 + j)) as Hn. rewrite inject_Z_S in Hfuel.
          cbn [elapsed_before]. lra. }
        exists b, w', k. split; [exact Hr |]. split; [lia |].
        split.
        { intros i Hi. destruct (Nat.eq_dec i j) as [-> | Hne].
          - split; [exact Er | lra].
          - apply Hbefore. lia. }
        split; [exact Ht |]. split; [exact Hf |].
        split; [rewrite Hp; reflexivity |].
        split; [rewrite Ha; reflexivity |].
        split; [rewrite Hs; reflexivity |].
        exists (EvGet (r0 + j) (outcome (http_get env (r0 + j))) :: EvSleep 0.2 :: t).
        split; [rewrite Htr; subst w2; cbn; rewrite <- !app_assoc; reflexivity |].
        repeat constructor. exact Hio.
    + apply Qltb_false in Elt.
      exists false, (log (EvProbe false) w), j.
      split; [reflexivity |]. split; [lia |]. split; [intros i Hi; lia |].
      split; [discriminate |].
      split; [intros _; split; [lra | auto] |].
      repeat (split; [reflexivity |]). exists []. split; [reflexivity | constructor].
Qed.

End Probe.

Lemma elapsed_before_mono (env : Env) (r0 : nat) :
  (forall n, (0 <= took (http_get env n))%Q) ->
  forall i k, (i <= k)%nat ->
    (elapsed_before env r0 i <= elapsed_before env r0 k)%Q.
Proof.
  intros Hnn i k Hik. induction Hik as [| k Hik IH]; [apply Qle_refl |].
  cbn [elapsed_before]. pose proof (Hnn (r0 + k)%nat). lra.
Qed.

Lemma probe_fuel_enough (timeout : Q) :
  (timeout * 5 <= inject_Z (Z.of_nat (Z.to_nat (Qceiling (timeout * 5)))))%Q.
Proof.
  pose proof (Qle_ceiling (timeout * 5)) as H.
  destruct (Z.le_gt_cases 0 (Qceiling (timeout * 5))) as [Hpos | Hneg].
  - rewrite Z2Nat.id by exact Hpos. exact H.
  - replace (Z.to_nat (Qceiling (timeout * 5))) with 0%nat by lia.
    assert (Hlt : (inject_Z (Qceiling (timeout * 5)) < inject_Z 0)%Q)
      by (rewrite <- Zlt_Qlt; exact Hneg).
    change (inject_Z (Z.of_nat 0)) with (inject_Z 0). lra.
Qed.

(** Two surroundings whose requests take the same time and succeed at the
    same places make the loop return the same verdict, whatever the
    failures are. *)
Lemma wait_loop_agree (env1 env2 : Env) (timeout start : Q) :
  (forall n, took (http_get env1 n) = took (http_get env2 n)) ->
  (forall n, is_ready (outcome (http_get env1 n)) =
             is_ready (outcome (http_get env2 n))) ->
  forall fuel (w1 w2 : World),
    clock w1 = clock w2 -> requests w1 = requests w2 ->
    option_map fst (wait_loop env1 fuel timeout start w1) =
    option_map fst (wait_loop env2 fuel timeout start w2).
Proof.
  intros Htook Hready. induction fuel as [| fuel IH]; intros w1 w2 Hc Hr;
    [reflexivity |].
  cbn [wait_loop]. rewrite Hc.
  destruct (Qltb (clock w2 - start) timeout); [| reflexivity].
  unfold do_get. rewrite Hr, Hready.
  destruct (is_ready (outcome (http_get env2 (requests w2)))); [reflexivity |].
  apply IH; cbn; [rewrite Hc, Htook; reflexivity | reflexivity].
Qed.

(** Whatever the requests do, a probe that returns has only made requests
    and slept: it leaves the registry, the children and the [Popen] count
    alone, and its last event is its verdict. *)
Lemma wait_loop_frame (env : Env) (timeout start : Q) (fuel : nat) :
  forall (w : World) b w',
  wait_loop env fuel timeout start w = Some (b, w') ->
  PROCS w' = PROCS w /\ alive w' = alive w /\ spawns w' = spawns w /\
  exists t, trace w' = trace w ++ t ++ [EvProbe b] /\ Forall is_probe_io t.
Proof.
  induction fuel as [| fuel IH]; intros w b w' H; [discriminate |].
  cbn [wait_loop] in H. destruct (Qltb (clock w - start) timeout).
  - unfold do_get in H.
    destruct (is_ready (outcome (http_get env (requests w)))).
    + injection H as <- <-. repeat (split; [reflexivity |]).
      exists [EvGet (requests w) (outcome (http_get env (requests w)))].
      split; [cbn; rewrite <- app_assoc; reflexivity | repeat constructor].
    + apply IH in H. destruct H as (Hp & Ha & Hs & t & Ht & Hio).
      split; [exact Hp |]. split; [exact Ha |]. split; [exact Hs |].
      exists (EvGet (requests w) (outcome (http_get env (requests w)))
              :: EvSleep 0.2 :: t).
      split; [rewrite Ht; cbn; rewrite <- !app_assoc; reflexivity |].
      repeat constructor. exact Hio.
  - injection H as <- <-. repeat (split; [reflexivity |]).
    exists []. split; [reflexivity | constructor].
Qed.

(** What one call of the probe does. *)
Lemma wait_for_emotion_api_returns (env : Env) (timeout : Q) (w : World) :
  (forall n, (0 <= took (http_get env n))%Q) ->
  exists b w' k,
    wait_for_emotion_api env timeout w = Some (b, w') /\
    (forall i, (i < k)%nat ->
       ready_at env (requests w) i = false /\
       (elapsed_before env (requests w) i < timeout)%Q) /\
    (b = true ->
       ready_at env (requests w) k = true /\
       (elapsed_before env (requests w) k < timeout)%Q /\
       requests w' = (requests w + S k)%nat) /\
    (b = false ->
       (timeout <= elapsed_before env (requests w) k)%Q /\
       requests w' = (requests w + k)%nat) /\
    (b = true <->
       exists k', ready_at env (requests w) k' = true /\
                  (elapsed_before env (requests w) k' < timeout)%Q) /\
    PROCS w' = PROCS w /\ alive w' = alive w /\
    exists t, trace w' = trace w ++ t ++ [EvProbe b] /\ Forall is_probe_io t.
Proof.
  intros Hnn. unfold wait_for_emotion_api, probe_fuel.
  destruct (wait_loop_spec env timeout (clock w) (requests w) Hnn
              (Z.to_nat (Qceiling (timeout * 5))) w 0%nat)
    as (b & w' & k & Hr & _ & Hbefore & Ht & Hf & Hp & Ha & _ & Htr).
  - lia.
  - cbn. lra.
  - cbn [elapsed_before]. pose proof (probe_fuel_enough timeout). lra.
  - exists b, w', k. split; [exact Hr |].
    split; [intros i Hi; apply Hbefore; lia |].
    split; [intros Hb; destruct (Ht Hb) as (? & ? & ? & _); auto |].
    split; [intros Hb; destruct (Hf Hb) as (? & ? & _); auto |].
    split; [| auto].
    split.
    + intros Hb. exists k. destruct (Ht Hb) as (? & ? & _). auto.
    + intros (k' & Hready & Hlt). destruct b; [reflexivity | exfalso].
      destruct (Hf eq_refl) as (Hge & _).
      destruct (Nat.lt_ge_cases k' k) as [Hk | Hk].
      * destruct (Hbefore k') as [Hnot _]; [lia | congruence].
      * pose proof (elapsed_before_mono env (requests w) Hnn k k' Hk). lra.
Qed.

(** [is_ready] holds of a reply with status 200 and of nothing else. *)
Lemma is_ready_200 (o : GetOutcome) : is_ready o = true <-> o = Status 200.
Proof.
  destruct o as [e | code]; cbn [is_ready]; [split; discriminate |].
  rewrite Z.eqb_eq. split; [intros ->; reflexivity |].
  intros E. injection E as ->. reflexivity.
Qed.

Lemma is_ready_not_200 (o : GetOutcome) : is_ready o = false <-> o <> Status 200.
Proof.
  rewrite <- is_ready_200. destruct (is_ready o); split; congruence.
Qed.

(** C7, as the code has it.  The readiness probe always returns a boolean,
    provided no request takes negative time.  It returns [true] right after
    the first request that gets status 200, if that request starts before
    the timeout has elapsed, and makes no further request; the time that
    has passed by then is the time before that request plus the time the
    request took, which may be more than the timeout.  It returns [false]
    at the first test of the loop at which the elapsed time has reached the
    timeout, all earlier requests having got something else than status
    200.  So it returns [true] exactly when some request that starts before
    the timeout has elapsed gets status 200.  A request that raises and a
    status other than 200 are both "not ready": the verdict depends only on
    how long the requests take and on which of them get status 200.  The
    probe leaves the registry and the running children untouched. *)
Theorem wait_for_emotion_api_total (env : Env) (timeout : Q) (w : World) :
  (forall n, (0 <= took (http_get env n))%Q) ->
  (exists b w' k,
     wait_for_emotion_api env timeout w = Some (b, w') /\
     (forall i, (i < k)%nat ->
        outcome (http_get env (requests w + i)) <> Status 200 /\
        (elapsed_before env (requests w) i < timeout)%Q) /\
     (b = true ->
        outcome (http_get env (requests w + k)) = Status 200 /\
        (elapsed_before env (requests w) k < timeout)%Q /\
        requests w' = (requests w + S k)%nat /\
        (clock w' - clock w ==
           elapsed_before env (requests w) k +
           took (http_get env (requests w + k)))%Q) /\
     (b = false ->
        (timeout <= elapsed_before env (requests w) k)%Q /\
        requests w' = (requests w + k)%nat /\
        (clock w' - clock w == elapsed_before env (requests w) k)%Q) /\
     (b = true <->
        exists k', outcome (http_get env (requests w + k')) = Status 200 /\
                   (elapsed_before env (requests w) k' < timeout)%Q) /\
     PROCS w' = PROCS w /\ alive w' = alive w /\
     exists t, trace w' = trace w ++ t ++ [EvProbe b] /\ Forall is_probe_io t) /\
  (forall env2,
     (forall n, took (http_get env n) = took (http_get env2 n)) ->
     (forall n, outcome (http_get env n) = Status 200 <->
                outcome (http_get env2 n) = Status 200) ->
     option_map fst (wait_for_emotion_api env timeout w) =
     option_map fst (wait_for_emotion_api env2 timeout w)).
Proof.
  intros Hnn. split.
  - unfold wait_for_emotion_api, probe_fuel.
    destruct (wait_loop_spec env timeout (clock w) (requests w) Hnn
                (Z.to_nat (Qceiling (timeout * 5))) w 0%nat)
      as (b & w' & k & Hr & _ & Hbefore & Ht & Hf & Hp & Ha & _ & Htr).
    + lia.
    + cbn. lra.
    + cbn [elapsed_before]. pose proof (probe_fuel_enough timeout). lra.
    + exists b, w', k. split; [exact Hr |].
      split.
      { intros i Hi. destruct (Hbefore i) as [Hnot Hlt]; [lia |].
        split; [apply is_ready_not_200; exact Hnot | exact Hlt]. }
      split.
      { intros Hb. destruct (Ht Hb) as (Hready & Hlt & Hreq & Hclk).
        split; [apply is_ready_200; exact Hready | auto]. }
      split; [exact Hf |].
      split; [| auto].
      split.
      * intros Hb. exists k. destruct (Ht Hb) as (Hready & Hlt & _).
        split; [apply is_ready_200; exact Hready | exact Hlt].
      * intros (k' & Hready & Hlt). destruct b; [reflexivity | exfalso].
        destruct (Hf eq_refl) as (Hge & _).
        destruct (Nat.lt_ge_cases k' k) as [Hk | Hk].
        -- destruct (Hbefore k') as [Hnot _]; [lia |].
           apply is_ready_not_200 in Hnot. contradiction.
        -- pose proof (elapsed_before_mono env (requests w) Hnn k k' Hk). lra.
  - intros env2 Htook Hready. unfold wait_for_emotion_api.
    apply wait_loop_agree; auto.
    intros n. specialize (Hready n). rewrite <- !is_ready_200 in Hready.
    destruct (is_ready (outcome (http_get env n))),
             (is_ready (outcome (http_get env2 n))); intuition congruence.
Qed.

(** The producer answers 503 once and 200 from then on; each request takes
    0.1 s. *)
Definition warming_env : Env :=
  mkEnv false (fun _ => true) (fun n _ => Ok (Z.of_nat (100 + n)))
        (fun _ => ExitsInGrace) (fun _ => Killed)
        (fun n => match n with
                  | O => mkAttempt (Status 503) 0.1
                  | S _ => mkAttempt (Status 200) 0.1
                  end)
        (fun _ => "error").

Lemma wait_for_emotion_api_total_witness :
  exists w',
    wait_for_emotion_api warming_env 30 world0 = Some (true, w') /\
    requests w' = 2%nat /\ (clock w' - clock world0 == 0.4)%Q.
Proof.
  assert (Hnn : forall n, (0 <= took (http_get warming_env n))%Q).
  { intros [| n]; cbn; lra. }
  destruct (wait_for_emotion_api_total warming_env 30 world0 Hnn)
    as [(b & w' & k & Hr & Hbefore & Ht & _ & Hiff & _) _].
  assert (Hb : b = true).
  { apply Hiff. exists 1%nat. split; [reflexivity | cbn; lra]. }
  subst b. destruct (Ht eq_refl) as (H200 & _ & Hreq & Hclk).
  assert (Hk : k = 1%nat).
  { destruct k as [| [| k]]; [discriminate H200 | reflexivity |].
    destruct (Hbefore 1%nat) as [Hnot _]; [lia |]. exfalso. apply Hnot. reflexivity. }
  subst k. exists w'. split; [exact Hr |]. split; [exact Hreq |].
  rewrite Hclk. cbn. lra.
Defined.

Example probe_ready_on_second_request :
  option_map fst (wait_for_emotion_api warming_env 30 world0) = Some true /\
  option_map (fun r => requests (snd r)) (wait_for_emotion_api warming_env 30 world0)
    = Some 2%nat.
Proof. split; vm_compute; reflexivity. Qed.

Example probe_times_out :
  option_map fst (wait_for_emotion_api stubborn_env 0.1 world0) = Some false /\
  option_map (fun r => requests (snd r)) (wait_for_emotion_api stubborn_env 0.1 world0)
    = Some 1%nat.
Proof. split; vm_compute; reflexivity. Qed.

(** A producer that answers 200, but only after 5 s; and one that answers
    204 at once. *)
Definition slow_env : Env :=
  mkEnv false (fun _ => true) (fun n _ => Ok (Z.of_nat (100 + n)))
        (fun _ => ExitsInGrace) (fun _ => Killed)
        (fun _ => mkAttempt (Status 200) 5)
        (fun _ => "error").

Definition no_content_env : Env :=
  mkEnv false (fun _ => true) (fun n _ => Ok (Z.of_nat (100 + n)))
        (fun _ => ExitsInGrace) (fun _ => Killed)
        (fun _ => mkAttempt (Status 204) 0)
        (fun _ => "error").

(** The probe with a timeout of 0.1 s returns [true] for a reply that
    arrives after 5 s, long after the timeout was exceeded: the timeout is
    tested before a request is made, not when its reply arrives.  And a
    reply with the success status 204 within the timeout is "not ready":
    the probe with a timeout of 1 s keeps asking and returns [false]. *)
Lemma probe_true_after_timeout_false_on_204 :
  (exists w',
     wait_for_emotion_api slow_env 0.1 world0 = Some (true, w') /\
     (clock w' - clock world0 == 5)%Q /\
     (0.1 < clock w' - clock world0)%Q) /\
  (exists w',
     wait_for_emotion_api no_content_env 1 world0 = Some (false, w') /\
     requests w' = 5%nat /\
     forall n, outcome (http_get no_content_env n) = Status 204).
Proof.
  split.
  - eexists. split; [vm_compute; reflexivity |]. cbn. split; lra.
  - eexists. split; [vm_compute; reflexivity |]. split; reflexivity.
Qed.

(** ** The status query *)

(** C9, as the code has it.  The status query re-checks liveness on every
    call and never writes to the registry.  Whenever it returns, the
    registry, the running children and the number of [Popen] calls are as
    before; the running flags are those of [is_running]; and for a service
    whose recorded process has exited it reports not running and no pid
    while the registry still holds the handle of the exited process.
    Provided no request takes negative time, it does return. *)
Theorem status_payload_reads_only (env : Env) (w : World) :
  (forall payload w',
     status_payload env w = Some (payload, w') ->
     PROCS w' = PROCS w /\ alive w' = alive w /\ spawns w' = spawns w /\
     emotion_running payload = is_running w "emotion" /\
     bot_running payload = is_running w "bot" /\
     (forall p, get_proc w "emotion" = Some p -> pid p ∉ alive w ->
        emotion_running payload = false /\ emotion_pid payload = None /\
        get_proc w' "emotion" = Some p) /\
     (forall p, get_proc w "bot" = Some p -> pid p ∉ alive w ->
        bot_running payload = false /\ bot_pid payload = None /\
        get_proc w' "bot" = Some p)) /\
  ((forall n, (0 <= took (http_get env n))%Q) ->
   exists payload w', status_payload env w = Some (payload, w')).
Proof.
  split.
  - intros payload w' H. unfold status_payload in H.
    destruct (wait_for_emotion_api env 0.1 w) as [[reachable w1] |] eqn:Hw;
      [| discriminate].
    injection H as <- <-.
    apply wait_loop_frame in Hw. destruct Hw as (Hp & Ha & Hs & _).
    cbn. split; [exact Hp |]. split; [exact Ha |]. split; [exact Hs |].
    split; [reflexivity |]. split; [reflexivity |].
    assert (Hdead : forall name p, get_proc w name = Some p -> pid p ∉ alive w ->
              is_running w name = false /\ pid_if_running w name = None /\
              get_proc w1 name = Some p).
    { intros name p Eg Hd.
      assert (Hrun : is_running w name = false).
      { unfold is_running. rewrite Eg. unfold poll_is_none.
        apply bool_decide_eq_false_2. exact Hd. }
      split; [exact Hrun |]. split.
      - unfold pid_if_running. rewrite Hrun. reflexivity.
      - unfold get_proc in *. rewrite Hp. exact Eg. }
    split; intros p Eg Hd; apply (Hdead _ p Eg Hd).
  - intros Hnn. unfold status_payload.
    destruct (wait_for_emotion_api_returns env 0.1 w Hnn) as (b & w' & _ & Hr & _).
    rewrite Hr. eexists _, _. reflexivity.
Qed.

Lemma status_payload_reads_only_witness :
  exists payload w',
    status_payload stubborn_env world_emotion_dead = Some (payload, w') /\
    PROCS w' = PROCS world_emotion_dead /\
    emotion_running payload = false /\ emotion_pid payload = None /\
    get_proc w' "emotion" = Some (mkPopen 7).
Proof.
  destruct (status_payload_reads_only stubborn_env world_emotion_dead)
    as [Hread Hreturns].
  destruct Hreturns as (payload & w' & Hs); [intros n; cbn; lra |].
  exists payload, w'. split; [exact Hs |].
  destruct (Hread payload w' Hs) as (Hp & _ & _ & _ & _ & Hdead & _).
  split; [exact Hp |].
  apply (Hdead (mkPopen 7)); [reflexivity | cbn; set_solver].
Defined.

(** The producer's process has exited; the status query reports it as not
    running, without a pid, and the registry still holds its handle
    afterwards. *)
Lemma status_payload_keeps_dead_handle :
  get_proc world_emotion_dead "emotion" = Some (mkPopen 7) /\
  (7%Z ∉ alive world_emotion_dead) /\
  option_map (fun r => emotion_running (fst r))
    (status_payload stubborn_env world_emotion_dead) = Some false /\
  option_map (fun r => emotion_pid (fst r))
    (status_payload stubborn_env world_emotion_dead) = Some None /\
  option_map (fun r => get_proc (snd r) "emotion")
    (status_payload stubborn_env world_emotion_dead) = Some (Some (mkPopen 7)) /\
  option_map (fun r => get_proc (snd r) "emotion")
    (status_payload stubborn_env world_emotion_dead) <> Some None.
Proof.
  split; [reflexivity |]. split; [cbn; set_solver |].
  split; [vm_compute; reflexivity |]. split; [vm_compute; reflexivity |].
  assert (E : option_map (fun r => get_proc (snd r) "emotion")
                (status_payload stubborn_env world_emotion_dead)
              = Some (Some (mkPopen 7))) by (vm_compute; reflexivity).
  split; [exact E |]. rewrite E. discriminate.
Qed.

(** ** The start and stop sequences *)

(** Events of [start_process name script]. *)
Definition is_start_event (name script : string) (ev : Event) : Prop :=
  ev = EvCall "start_process" name \/ ev = EvReturn "start_process" name \/
  exists r, ev = EvPopen script r.

(** Events that belong to launching the consumer. *)
Definition is_bot_launch (ev : Event) : Prop :=
  ev = EvCall "start_process" "bot" \/ exists r, ev = EvPopen "main_integrated.py" r.

Ltac start_events :=
  cbn [app];
  repeat first
    [ apply List.Forall_nil
    | apply List.Forall_cons;
      [ unfold is_start_event;
        solve [ left; reflexivity
              | right; left; reflexivity
              | right; right; eexists; reflexivity ] | ] ].

Lemma start_process_trace (env : Env) (name script : string) (w : World) :
  exists t,
    trace (snd (start_process env name script w)) = trace w ++ t /\
    Forall (is_start_event name script) t /\
    forall other, other <> name ->
      PROCS (snd (start_process env name script w)) !! other = PROCS w !! other.
Proof.
  unfold start_process. rewrite is_running_log.
  destruct (is_running w name).
  - cbn [log PROCS]. destruct (PROCS w !! name) as [[p |] |]; cbn.
    + eexists. split; [rewrite <- app_assoc; reflexivity |].
      split; [start_events | reflexivity].
    + eexists. split; [reflexivity |]. split; [start_events | reflexivity].
    + eexists. split; [reflexivity |]. split; [start_events | reflexivity].
  - destruct (negb (path_exists env script)); cbn.
    + eexists. split; [rewrite <- app_assoc; reflexivity |].
      split; [start_events | reflexivity].
    + unfold spawn. cbn [log spawns].
      destruct (popen env (spawns w) script) as [child | e] eqn:Ep; cbn.
      * eexists. split; [rewrite <- !app_assoc; reflexivity |].
        split; [start_events |].
        intros other Hne. apply lookup_insert_ne. auto.
      * eexists. split; [rewrite <- !app_assoc; reflexivity |].
        split; [start_events | reflexivity].
Qed.

(** If a trace splits into a part without any [P]-event followed by a part
    that is non-empty only when [x] occurs in the first, then [x] occurs
    before every [P]-event. *)
Lemma occurs_before {A : Type} (P : A -> Prop) (x : A) (before after : list A) :
  (forall ev, In ev before -> ~ P ev) ->
  (after <> [] -> In x before) ->
  forall pre ev post, before ++ after = pre ++ ev :: post -> P ev -> In x pre.
Proof.
  intros Hno Hfirst pre ev post E HP.
  apply app_eq_app in E. destruct E as (l & [[E1 E2] | [E1 E2]]).
  - destruct l as [| a l].
    + rewrite app_nil_r in E1. subst pre. apply Hfirst.
      simpl in E2. rewrite <- E2. discriminate.
    + simpl in E2. injection E2 as <- _. exfalso. apply (Hno ev); [| exact HP].
      rewrite E1. apply in_elt.
  - rewrite E1. apply in_or_app. left. apply Hfirst. rewrite E2.
    destruct l; discriminate.
Qed.

Lemma start_event_not_bot_launch (ev : Event) :
  is_start_event "emotion" "emotion_webcam.py" ev -> ~ is_bot_launch ev.
Proof.
  intros [-> | [-> | [r ->]]] [H | [r' H]]; discriminate.
Qed.

Lemma probe_io_not_bot_launch (ev : Event) : is_probe_io ev -> ~ is_bot_launch ev.
Proof.
  intros Hio [-> | [r ->]]; exact Hio.
Qed.

(** C5. In the events [start] emits, every event of launching the
    consumer (the call of [start_process] for "bot", its [Popen]) comes
    after the event of the probe returning true.  When the probe returns
    false no such event is emitted, the response reports the consumer as
    not started with the reason "Emotion API did not come up. Bot not
    started.", and the registry entry of the consumer is unchanged.
    Provided no request takes negative time, [start] does return.  The
    events [stop] emits are those of stopping "bot", from call to return,
    followed by those of stopping "emotion", from call to return. *)
Theorem start_stop_ordering (env : Env) (w : World) :
  (forall r w',
     start env w = Some (r, w') ->
     exists t,
       trace w' = trace w ++ t /\
       (forall pre ev post, t = pre ++ ev :: post -> is_bot_launch ev ->
          In (EvProbe true) pre) /\
       (In (EvProbe false) t ->
          (forall ev, In ev t -> ~ is_bot_launch ev) /\
          (exists res_emotion,
             r = Ok (mkStartResponse res_emotion false
                       (mkResult false
                          "Emotion API did not come up. Bot not started." None))) /\
          PROCS w' !! "bot" = PROCS w !! "bot")) /\
  ((forall n, (0 <= took (http_get env n))%Q) ->
   exists r w', start env w = Some (r, w')) /\
  (exists tb te,
     trace (snd (stop env w)) =
       trace w ++ [EvCall "stop_process" "bot"] ++ tb ++
       [EvReturn "stop_process" "bot"; EvCall "stop_process" "emotion"] ++ te ++
       [EvReturn "stop_process" "emotion"] /\
     Forall is_signal_event tb /\ Forall is_signal_event te).
Proof.
  split; [| split].
  - intros r w' Hstart. unfold start in Hstart.
    destruct (start_process_trace env "emotion" "emotion_webcam.py" w)
      as (tE & HtE & HfE & HoE).
    assert (HnoE : forall ev, In ev tE -> ~ is_bot_launch ev).
    { intros ev Hev. apply start_event_not_bot_launch.
      rewrite List.Forall_forall in HfE. apply HfE, Hev. }
    assert (HnpE : forall b, ~ In (EvProbe b) tE).
    { intros b Hin. rewrite List.Forall_forall in HfE.
      destruct (HfE _ Hin) as [H | [H | [r0 H]]]; discriminate. }
    destruct (start_process env "emotion" "emotion_webcam.py" w)
      as [[res_emotion | e] w1] eqn:E1; cbn [snd] in HtE, HoE.
    2:{ injection Hstart as <- <-. exists tE. split; [exact HtE |].
        split.
        - intros pre ev post E Hev. exfalso. apply (HnoE ev); [| exact Hev].
          rewrite E. apply in_elt.
        - intros Hin. exfalso. apply (HnpE false Hin). }
    destruct (wait_for_emotion_api env 30 w1) as [[b w2] |] eqn:Hwait;
      [| discriminate].
    apply wait_loop_frame in Hwait.
    destruct Hwait as (Hp2 & _ & _ & tp & Htp & Hio).
    assert (HnoP : forall ev, In ev tp -> ~ is_bot_launch ev).
    { intros ev Hev. apply probe_io_not_bot_launch.
      rewrite List.Forall_forall in Hio. apply Hio, Hev. }
    assert (HnpP : forall b', ~ In (EvProbe b') tp).
    { intros b' Hin. rewrite List.Forall_forall in Hio. exact (Hio _ Hin). }
    assert (Hnob : forall b', ~ is_bot_launch (EvProbe b')).
    { intros b' [H | [r0 H]]; discriminate. }
    destruct b.
    + (* ready: the consumer is started *)
      destruct (start_process_trace env "bot" "main_integrated.py" w2)
        as (tB & HtB & HfB & _).
      assert (HnpB : ~ In (EvProbe false) tB).
      { intros Hin. rewrite List.Forall_forall in HfB.
        destruct (HfB _ Hin) as [H | [H | [r0 H]]]; discriminate. }
      exists ((tE ++ tp ++ [EvProbe true]) ++ tB).
      split.
      { assert (Hw3 : w' = snd (start_process env "bot" "main_integrated.py" w2)).
        { destruct (start_process env "bot" "main_integrated.py" w2)
            as [[res_bot | e] w3]; injection Hstart as <- <-; reflexivity. }
        rewrite Hw3, HtB, Htp, HtE, <- !app_assoc. reflexivity. }
      split.
      { apply occurs_before.
        - intros ev Hev. rewrite !in_app_iff in Hev.
          destruct Hev as [Hev | [Hev | [<- | []]]]; auto.
        - intros _. rewrite !in_app_iff. right. right. left. reflexivity. }
      intros Hin. exfalso. rewrite !in_app_iff in Hin.
      destruct Hin as [[Hin | [Hin | [Hin | []]]] | Hin].
      * exact (HnpE _ Hin).
      * exact (HnpP _ Hin).
      * discriminate.
      * exact (HnpB Hin).
    + (* not ready: the consumer is not started *)
      injection Hstart as <- <-.
      exists (tE ++ tp ++ [EvProbe false]).
      split; [rewrite Htp, HtE, <- !app_assoc; reflexivity |].
      assert (Hnone : forall ev, In ev (tE ++ tp ++ [EvProbe false]) ->
                ~ is_bot_launch ev).
      { intros ev Hev. rewrite !in_app_iff in Hev.
        destruct Hev as [Hev | [Hev | [<- | []]]]; auto. }
      split.
      * intros pre ev post E Hev. exfalso. apply (Hnone ev); [| exact Hev].
        rewrite E. apply in_elt.
      * intros _. split; [exact Hnone |]. split; [eexists; reflexivity |].
        rewrite Hp2. apply HoE. discriminate.
  - intros Hnn. unfold start.
    destruct (start_process env "emotion" "emotion_webcam.py" w)
      as [[res_emotion | e] w1]; [| eexists _, _; reflexivity].
    destruct (wait_for_emotion_api_returns env 30 w1 Hnn)
      as (b & w2 & _ & Hwait & _).
    rewrite Hwait. destruct b; [| eexists _, _; reflexivity].
    destruct (start_process env "bot" "main_integrated.py" w2)
      as [[res_bot | e] w3]; eexists _, _; reflexivity.
  - unfold stop.
    destruct (stop_process_trace env "bot" w) as (tb & Htb & Hfb & _).
    destruct (stop_process env "bot" w) as [res_bot w1]. cbn [snd] in Htb.
    destruct (stop_process_trace env "emotion" w1) as (te & Hte & Hfe & _).
    destruct (stop_process env "emotion" w1) as [res_emotion w2]. cbn [snd] in Hte.
    exists tb, te. cbn [snd]. split.
    + rewrite Hte, Htb. rewrite <- !app_assoc. reflexivity.
    + split; [exact Hfb | exact Hfe].
Qed.

Lemma start_stop_ordering_witness :
  exists r w' t,
    start stubborn_env world0 = Some (r, w') /\
    trace w' = trace world0 ++ t /\
    (forall pre ev post, t = pre ++ ev :: post -> is_bot_launch ev ->
       In (EvProbe true) pre) /\
    (In (EvProbe false) t ->
       (forall ev, In ev t -> ~ is_bot_launch ev) /\
       (exists res_emotion,
          r = Ok (mkStartResponse res_emotion false
                    (mkResult false
                       "Emotion API did not come up. Bot not started." None))) /\
       PROCS w' !! "bot" = PROCS world0 !! "bot").
Proof.
  destruct (start_stop_ordering stubborn_env world0) as (Horder & Hreturns & _).
  destruct Hreturns as (r & w' & Hs); [intros n; cbn; lra |].
  destruct (Horder r w' Hs) as (t & Ht & Hbefore & Hfalse).
  exists r, w', t. auto.
Defined.

(** The two sequences on concrete surroundings: with a producer that
    becomes ready the consumer is started after the probe; with one that
    never answers it is not started. *)
Example start_with_ready_producer :
  option_map (fun r => trace (snd r)) (start warming_env world0) =
  Some [EvCall "start_process" "emotion";
        EvPopen "emotion_webcam.py" (Ok 100%Z);
        EvReturn "start_process" "emotion";
        EvGet 0 (Status 503); EvSleep 0.2; EvGet 1 (Status 200);
        EvProbe true;
        EvCall "start_process" "bot";
        EvPopen "main_integrated.py" (Ok 101%Z);
        EvReturn "start_process" "bot"].
Proof. vm_compute. reflexivity. Qed.

Example start_with_silent_producer :
  option_map (fun r => (fst r, popen_events (trace (snd r))))
    (start stubborn_env world0) =
  Some (Ok (mkStartResponse
              (mkResult true "Started emotion" (Some 100%Z)) false
              (mkResult false "Emotion API did not come up. Bot not started." None)),
        [EvPopen "emotion_webcam.py" (Ok 100%Z)]).
Proof. vm_compute. reflexivity. Qed.

End Controller.

(* ===================================================================== *)
(** * controller.py: how the operations compose                           *)
(* ===================================================================== *)

Module ControllerFacts.
Import Py Controller.

(** ** [stop_process] and [start_process] *)

(** After a stop that reported success, a second stop of the same service
    finds nothing recorded: it reports "not running", sends no signal and
    leaves the registry and the children as they are. *)
Theorem stop_process_twice (env : Env) (name : string) (w : World) :
  ok (fst (stop_process env name w)) = true ->
  let w1 := snd (stop_process env name w) in
  let again := stop_process env name w1 in
  fst again = mkResult true (name +:+ " not running") None /\
  PROCS (snd again) = PROCS w1 /\ alive (snd again) = alive w1 /\
  emitted w1 (snd again) =
    [EvCall "stop_process" name; EvReturn "stop_process" name].
Proof.
  intros Hok w1 again. subst again.
  destruct (stop_process_clears env name w Hok) as [Hnone _]. fold w1 in Hnone.
  rewrite (stop_not_recorded env name w1 Hnone). cbn [fst snd].
  split; [reflexivity |]. split; [reflexivity |]. split; [reflexivity |].
  apply emitted_app. cbn. rewrite <- app_assoc. reflexivity.
Qed.

Lemma stop_process_twice_witness :
  let w1 := snd (stop_process stubborn_env "emotion" world_emotion_up) in
  let again := stop_process stubborn_env "emotion" w1 in
  fst again = mkResult true "emotion not running" None /\
  PROCS (snd again) = PROCS w1 /\ alive (snd again) = alive w1 /\
  emitted w1 (snd again) =
    [EvCall "stop_process" "emotion"; EvReturn "stop_process" "emotion"].
Proof.
  apply (stop_process_twice stubborn_env "emotion" world_emotion_up).
  vm_compute. reflexivity.
Defined.

(** A recorded process that has exited does not block a restart:
    [start_process] spawns a new child, records it in place of the old
    handle, and the service is running afterwards.  Entries of other names
    are untouched. *)
Theorem start_process_replaces_exited (env : Env) (name script : string)
  (w : World) (p : Popen) (child : Z) :
  get_proc w name = Some p -> pid p ∉ alive w ->
  path_exists env script = true ->
  popen env (spawns w) script = Ok child ->
  exists w',
    start_process env name script w =
      (Ok (mkResult true ("Started " +:+ name) (Some child)), w') /\
    get_proc w' name = Some (mkPopen child) /\
    is_running w' name = true /\
    spawns w' = S (spawns w) /\
    forall other, other <> name -> PROCS w' !! other = PROCS w !! other.
Proof.
  intros Eg Hdead Hex Hpo.
  assert (Hnot : is_running w name = false).
  { unfold is_running. rewrite Eg. unfold poll_is_none.
    apply bool_decide_eq_false_2. exact Hdead. }
  unfold start_process. rewrite is_running_log, Hnot, Hex. cbn [negb].
  unfold spawn. cbn [log spawns]. rewrite Hpo.
  eexists. split; [reflexivity |].
  split; [unfold get_proc; cbn; rewrite lookup_insert_eq; reflexivity |].
  split.
  - apply is_running_true. exists (mkPopen child). cbn.
    split; [apply lookup_insert_eq |].
    apply elem_of_union. right. apply elem_of_singleton. reflexivity.
  - split; [reflexivity |].
    intros other Hne. cbn. apply lookup_insert_ne. auto.
Qed.

Lemma start_process_replaces_exited_witness :
  exists w',
    start_process stubborn_env "emotion" "emotion_webcam.py" world_emotion_dead =
      (Ok (mkResult true "Started emotion" (Some 101%Z)), w') /\
    get_proc w' "emotion" = Some (mkPopen 101) /\
    is_running w' "emotion" = true /\
    spawns w' = S (spawns world_emotion_dead) /\
    forall other, other <> "emotion" ->
      PROCS w' !! other = PROCS world_emotion_dead !! other.
Proof.
  apply (start_process_replaces_exited stubborn_env "emotion" "emotion_webcam.py"
           world_emotion_dead (mkPopen 7) 101%Z).
  - reflexivity.
  - cbn. apply not_elem_of_empty.
  - reflexivity.
  - reflexivity.
Defined.

(** When the script is missing and the service is not running,
    [start_process] returns the failure dict naming the file; it makes no
    [Popen] call and changes neither the registry nor the children, so a
    stale handle stays recorded. *)
Theorem start_process_missing_script (env : Env) (name script : string) (w : World) :
  is_running w name = false -> path_exists env script = false ->
  exists w',
    start_process env name script w =
      (Ok (mkResult false ("Missing file: " +:+ script) None), w') /\
    PROCS w' = PROCS w /\ alive w' = alive w /\ spawns w' = spawns w /\
    emitted w w' = [EvCall "start_process" name; EvReturn "start_process" name].
Proof.
  intros Hnot Hex. unfold start_process. rewrite is_running_log, Hnot, Hex.
  cbn [negb]. eexists. split; [reflexivity |].
  repeat (split; [reflexivity |]).
  apply emitted_app. cbn. rewrite <- app_assoc. reflexivity.
Qed.

(** A machine on which no script exists. *)
Definition empty_disk_env : Env :=
  mkEnv false (fun _ => false) (fun n _ => Ok (Z.of_nat (100 + n)))
        (fun _ => ExitsInGrace) (fun _ => Killed)
        (fun _ => mkAttempt (Status 200) 0.1)
        (fun _ => "error").

Lemma start_process_missing_script_witness :
  exists w',
    start_process empty_disk_env "emotion" "emotion_webcam.py" world_emotion_dead =
      (Ok (mkResult false "Missing file: emotion_webcam.py" None), w') /\
    PROCS w' = PROCS world_emotion_dead /\ alive w' = alive world_emotion_dead /\
    spawns w' = spawns world_emotion_dead /\
    emitted world_emotion_dead w' =
      [EvCall "start_process" "emotion"; EvReturn "start_process" "emotion"].
Proof.
  apply (start_process_missing_script empty_disk_env "emotion" "emotion_webcam.py"
           world_emotion_dead); reflexivity.
Defined.

(** ** The probe in numbers *)

Lemma elapsed_before_sleeps (env : Env) (r0 : nat) :
  (forall n, (0 <= took (http_get env n))%Q) ->
  forall k, (inject_Z (Z.of_nat k) * 0.2 <= elapsed_before env r0 k)%Q.
Proof.
  intros Hnn. induction k as [| k IH].
  - change (inject_Z (Z.of_nat 0)) with 0%Q. cbn [elapsed_before]. lra.
  - cbn [elapsed_before]. rewrite inject_Z_S.
    pose proof (Hnn (r0 + k)%nat). lra.
Qed.

Lemma sleeps_below_ceiling (n : nat) (timeout : Q) :
  (inject_Z (Z.of_nat n) * 0.2 < timeout)%Q ->
  (S n <= Z.to_nat (Qceiling (timeout * 5)))%nat.
Proof.
  intros H. pose proof (Qle_ceiling (timeout * 5)) as Hc.
  assert (Hlt : (inject_Z (Z.of_nat n) < inject_Z (Qceiling (timeout * 5)))%Q) by lra.
  rewrite <- Zlt_Qlt in Hlt. lia.
Qed.

(** Every pass through the loop sleeps 0.2 s, so a probe with timeout [t]
    makes at most the ceiling of [5 t] requests, and none at all when [t]
    is zero or negative, in which case it returns [false] at once. *)
Theorem probe_request_bound (env : Env) (timeout : Q) (w : World) :
  (forall n, (0 <= took (http_get env n))%Q) ->
  exists b w',
    wait_for_emotion_api env timeout w = Some (b, w') /\
    (requests w <= requests w')%nat /\
    (requests w' - requests w <= Z.to_nat (Qceiling (timeout * 5)))%nat /\
    ((timeout <= 0)%Q -> b = false /\ requests w' = requests w).
Proof.
  intros Hnn.
  destruct (wait_for_emotion_api_returns env timeout w Hnn)
    as (b & w' & k & Hr & Hbefore & Ht & Hf & _).
  exists b, w'. split; [exact Hr |].
  pose proof (elapsed_before_sleeps env (requests w) Hnn) as Hsl.
  destruct b.
  - destruct (Ht eq_refl) as (_ & Hlt & Hreq).
    assert (Hk : (inject_Z (Z.of_nat k) * 0.2 < timeout)%Q)
      by (pose proof (Hsl k); lra).
    pose proof (sleeps_below_ceiling k timeout Hk).
    split; [lia |]. split; [lia |].
    intros Hle. exfalso. pose proof (Hsl k).
    assert (0 <= inject_Z (Z.of_nat k))%Q
      by (change 0%Q with (inject_Z 0); rewrite <- Zle_Qle; lia).
    lra.
  - destruct (Hf eq_refl) as (_ & Hreq).
    split; [lia |]. split.
    + destruct k as [| k]; [lia |].
      destruct (Hbefore k) as [_ Hlt]; [lia |].
      assert (Hk : (inject_Z (Z.of_nat k) * 0.2 < timeout)%Q)
        by (pose proof (Hsl k); lra).
      pose proof (sleeps_below_ceiling k timeout Hk). lia.
    + intros Hle. split; [reflexivity |].
      destruct k as [| k]; [lia |].
      destruct (Hbefore 0%nat) as [_ Hlt]; [lia |]. cbn in Hlt. lra.
Qed.

Lemma probe_request_bound_witness :
  exists b w',
    wait_for_emotion_api stubborn_env 30 world0 = Some (b, w') /\
    (requests world0 <= requests w')%nat /\
    (requests w' - requests world0 <= 150)%nat /\
    ((30 <= 0)%Q -> b = false /\ requests w' = requests world0).
Proof.
  refine (probe_request_bound stubborn_env 30 world0 _).
  intros n. cbn. lra.
Defined.

(** The status query costs one HTTP request: the probe with timeout 0.1 s
    makes exactly one request, reports the endpoint as reachable exactly
    when that request got status 200, however long the reply took, and
    takes the time of that request plus, when it failed, one 0.2 s
    sleep. *)
Theorem status_payload_one_request (env : Env) (w : World) :
  (forall n, (0 <= took (http_get env n))%Q) ->
  exists payload w',
    status_payload env w = Some (payload, w') /\
    requests w' = S (requests w) /\
    (emotion_api_reachable payload = true <->
       outcome (http_get env (requests w)) = Status 200) /\
    (clock w' - clock w ==
       took (http_get env (requests w)) +
       (if emotion_api_reachable payload then 0 else 0.2))%Q.
Proof.
  intros Hnn. unfold status_payload, wait_for_emotion_api, probe_fuel.
  destruct (wait_loop_spec env 0.1 (clock w) (requests w) Hnn
              (Z.to_nat (Qceiling (0.1 * 5))) w 0%nat)
    as (b & w' & k & Hr & _ & Hbefore & Ht & Hf & _).
  - lia.
  - cbn. lra.
  - cbn [elapsed_before]. pose proof (probe_fuel_enough 0.1). lra.
  - rewrite Hr. eexists _, w'. split; [reflexivity |]. cbn [emotion_api_reachable].
    assert (Hone : forall n, (0.2 <= elapsed_before env (requests w) (S n))%Q).
    { intros n. pose proof (elapsed_before_sleeps env (requests w) Hnn (S n)) as H.
      rewrite inject_Z_S in H.
      assert (0 <= inject_Z (Z.of_nat n))%Q
        by (change 0%Q with (inject_Z 0); rewrite <- Zle_Qle; lia).
      lra. }
    destruct b.
    + destruct (Ht eq_refl) as (Hready & Hlt & Hreq & Hclk).
      destruct k as [| k]; [| pose proof (Hone k); lra].
      unfold ready_at in Hready. rewrite Nat.add_0_r in Hready, Hclk.
      split; [lia |].
      split; [rewrite <- is_ready_200, Hready; tauto |].
      cbn [elapsed_before] in Hclk. lra.
    + destruct (Hf eq_refl) as (Hge & Hreq & Hclk).
      destruct k as [| [| k]].
      * cbn in Hge. lra.
      * destruct (Hbefore 0%nat) as [Hnot _]; [lia |].
        unfold ready_at in Hnot. rewrite Nat.add_0_r in Hnot.
        split; [lia |].
        split; [rewrite <- is_ready_200, Hnot; split; discriminate |].
        cbn [elapsed_before] in Hclk. rewrite Nat.add_0_r in Hclk. lra.
      * destruct (Hbefore 1%nat) as [_ Hlt]; [lia |].
        pose proof (Hone 0%nat). lra.
Qed.

Lemma status_payload_one_request_witness :
  (exists payload w',
     status_payload slow_env world0 = Some (payload, w') /\
     requests w' = 1%nat /\ emotion_api_reachable payload = true /\
     (clock w' - clock world0 == 5)%Q) /\
  (exists payload w',
     status_payload stubborn_env world0 = Some (payload, w') /\
     requests w' = 1%nat /\ emotion_api_reachable payload = false).
Proof.
  split.
  - destruct (status_payload_one_request slow_env world0)
      as (payload & w' & Hr & Hreq & Hiff & Hclk); [intros n; cbn; lra |].
    assert (Hb : emotion_api_reachable payload = true)
      by (apply Hiff; reflexivity).
    exists payload, w'. split; [exact Hr |]. split; [exact Hreq |].
    split; [exact Hb |]. rewrite Hclk, Hb. cbn. lra.
  - destruct (status_payload_one_request stubborn_env world0)
      as (payload & w' & Hr & Hreq & Hiff & _); [intros n; cbn; lra |].
    exists payload, w'. split; [exact Hr |]. split; [exact Hreq |].
    destruct (emotion_api_reachable payload); [| reflexivity].
    destruct Hiff as [Hiff _]. specialize (Hiff eq_refl). discriminate Hiff.
Defined.

(** ** The start and stop sequences as wholes *)

Definition enter_start (name : string) (w : World) : World :=
  log (EvCall "start_process" name) w.

Definition leave_start (name : string) (w : World) : World :=
  log (EvReturn "start_process" name) w.

Lemma start_process_running_eq (env : Env) (name script : string) (w : World)
  (p : Popen) :
  get_proc w name = Some p -> pid p ∈ alive w ->
  start_process env name script w =
    (Ok (mkResult true (name +:+ " already running") (Some (pid p))),
     leave_start name (enter_start name w)).
Proof.
  intros Eg Ha.
  assert (Hp : PROCS w !! name = Some (Some p)).
  { unfold get_proc in Eg. destruct (PROCS w !! name) as [[q |] |];
      congruence. }
  unfold start_process. rewrite is_running_log.
  assert (Hr : is_running w name = true)
    by (apply is_running_true; exists p; auto).
  rewrite Hr. cbn [log PROCS]. rewrite Hp. reflexivity.
Qed.

Lemma start_process_missing_eq (env : Env) (name script : string) (w : World) :
  is_running w name = false -> path_exists env script = false ->
  start_process env name script w =
    (Ok (mkResult false ("Missing file: " +:+ script) None),
     leave_start name (enter_start name w)).
Proof.
  intros Hnot Hex. unfold start_process. rewrite is_running_log, Hnot, Hex.
  reflexivity.
Qed.

Lemma start_process_started_eq (env : Env) (name script : string) (w : World)
  (child : Z) :
  is_running w name = false -> path_exists env script = true ->
  popen env (spawns w) script = Ok child ->
  start_process env name script w =
    (Ok (mkResult true ("Started " +:+ name) (Some child)),
     leave_start name
       (set_proc name (Some (mkPopen child))
          (snd (spawn env script (enter_start name w))))).
Proof.
  intros Hnot Hex Hpo. unfold start_process. rewrite is_running_log, Hnot, Hex.
  cbn [negb]. unfold enter_start, spawn. cbn [log spawns]. rewrite Hpo.
  reflexivity.
Qed.

(** A producer that answers 200 to the first request ends the probe at
    once. *)
Lemma wait_ready_at_once (env : Env) (timeout : Q) (w : World) :
  (0 < timeout)%Q ->
  is_ready (outcome (http_get env (requests w))) = true ->
  wait_for_emotion_api env timeout w =
    Some (true, log (EvProbe true) (snd (do_get env w))).
Proof.
  intros Hpos Hready. unfold wait_for_emotion_api, probe_fuel. cbn [wait_loop].
  assert (Hlt : Qltb (clock w - clock w) timeout = true)
    by (apply Qltb_true; lra).
  rewrite Hlt. unfold do_get. rewrite Hready. reflexivity.
Qed.

(** The consumer is gated by the probe alone, not by the result of starting
    the producer: when the producer's script is missing, so that its start
    reports failure, but the endpoint answers 200 (a producer started by
    other means), [start] still launches the consumer and reports the
    producer's failure beside the consumer's success. *)
Theorem start_launches_bot_when_api_answers (env : Env) (w : World) (child : Z) :
  is_running w "emotion" = false ->
  path_exists env "emotion_webcam.py" = false ->
  is_ready (outcome (http_get env (requests w))) = true ->
  is_running w "bot" = false ->
  path_exists env "main_integrated.py" = true ->
  popen env (spawns w) "main_integrated.py" = Ok child ->
  exists w',
    start env w =
      Some (Ok (mkStartResponse
                  (mkResult false "Missing file: emotion_webcam.py" None)
                  true
                  (mkResult true "Started bot" (Some child))), w') /\
    get_proc w' "bot" = Some (mkPopen child) /\
    get_proc w' "emotion" = get_proc w "emotion" /\
    spawns w' = S (spawns w).
Proof.
  intros HnotE HexE Hready HnotB HexB Hpo. unfold start.
  rewrite (start_process_missing_eq env "emotion" "emotion_webcam.py" w HnotE HexE).
  rewrite wait_ready_at_once; [| lra | exact Hready].
  rewrite (start_process_started_eq env "bot" "main_integrated.py" _ child);
    [| exact HnotB | exact HexB | exact Hpo].
  eexists. split; [reflexivity |].
  unfold spawn. cbn [enter_start leave_start log do_get snd spawns].
  rewrite Hpo. cbn.
  split; [unfold get_proc; cbn; rewrite lookup_insert_eq; reflexivity |].
  split; [| reflexivity].
  unfold get_proc. cbn. rewrite lookup_insert_ne by discriminate. reflexivity.
Qed.

(** A machine without the producer's script on which the endpoint answers
    200 all the same. *)
Definition foreign_producer_env : Env :=
  mkEnv false (fun f => String.eqb f "main_integrated.py")
        (fun n _ => Ok (Z.of_nat (100 + n)))
        (fun _ => ExitsInGrace) (fun _ => Killed)
        (fun _ => mkAttempt (Status 200) 0.1)
        (fun _ => "error").

Lemma start_launches_bot_when_api_answers_witness :
  exists w',
    start foreign_producer_env world0 =
      Some (Ok (mkStartResponse
                  (mkResult false "Missing file: emotion_webcam.py" None)
                  true
                  (mkResult true "Started bot" (Some 100%Z))), w') /\
    get_proc w' "bot" = Some (mkPopen 100) /\
    get_proc w' "emotion" = get_proc world0 "emotion" /\
    spawns w' = S (spawns world0).
Proof.
  apply (start_launches_bot_when_api_answers foreign_producer_env world0 100%Z);
    reflexivity.
Defined.

(** [start] on a system that is already up changes nothing: with both
    services running and the endpoint answering 200 it reports both as
    already running with their pids, makes no [Popen] call and one HTTP
    request, and leaves the registry and the children as they are. *)
Theorem start_when_already_up (env : Env) (w : World) (pe pb : Popen) :
  get_proc w "emotion" = Some pe -> pid pe ∈ alive w ->
  get_proc w "bot" = Some pb -> pid pb ∈ alive w ->
  is_ready (outcome (http_get env (requests w))) = true ->
  exists w',
    start env w =
      Some (Ok (mkStartResponse
                  (mkResult true "emotion already running" (Some (pid pe)))
                  true
                  (mkResult true "bot already running" (Some (pid pb)))), w') /\
    PROCS w' = PROCS w /\ alive w' = alive w /\ spawns w' = spawns w /\
    requests w' = S (requests w) /\
    popen_events (emitted w w') = [].
Proof.
  intros HgE HaE HgB HaB Hready. unfold start.
  rewrite (start_process_running_eq env "emotion" "emotion_webcam.py" w pe HgE HaE).
  rewrite wait_ready_at_once; [| lra | exact Hready].
  rewrite (start_process_running_eq env "bot" "main_integrated.py" _ pb);
    [| exact HgB | exact HaB].
  eexists. split; [reflexivity |].
  repeat (split; [reflexivity |]).
  erewrite emitted_app; [| cbn; rewrite <- !app_assoc; reflexivity].
  reflexivity.
Qed.

(** Both services recorded and running, the endpoint answering. *)
Definition world_all_up : World :=
  mkWorld (<["bot" := Some (mkPopen 8)]> (<["emotion" := Some (mkPopen 7)]> PROCS0))
          ({[ 7%Z ]} ∪ {[ 8%Z ]}) 0 2 0 [].

Lemma start_when_already_up_witness :
  exists w',
    start warming_env (mkWorld (PROCS world_all_up) (alive world_all_up) 0 2 1 []) =
      Some (Ok (mkStartResponse
                  (mkResult true "emotion already running" (Some 7%Z))
                  true
                  (mkResult true "bot already running" (Some 8%Z))), w') /\
    PROCS w' = PROCS world_all_up /\ alive w' = alive world_all_up /\
    spawns w' = 2%nat /\ requests w' = 2%nat /\
    popen_events
      (emitted (mkWorld (PROCS world_all_up) (alive world_all_up) 0 2 1 []) w') = [].
Proof.
  apply (start_when_already_up warming_env
           (mkWorld (PROCS world_all_up) (alive world_all_up) 0 2 1 [])
           (mkPopen 7) (mkPopen 8)).
  - reflexivity.
  - vm_compute. reflexivity.
  - reflexivity.
  - vm_compute. reflexivity.
  - reflexivity.
Defined.

Lemma not_running_unrecorded (w : World) (name : string) :
  get_proc w name = None -> is_running w name = false /\ pid_if_running w name = None.
Proof.
  intros Eg. unfold pid_if_running, is_running. rewrite Eg. split; reflexivity.
Qed.

(** After a [stop] in which both stops reported success nothing is recorded
    for either service, and a status query made next reports both as not
    running, without pids.  The query does return when no request takes
    negative time. *)
Theorem stop_then_status (env : Env) (w : World) :
  let resp := fst (stop env w) in
  let w1 := snd (stop env w) in
  ok (sp_bot resp) = true -> ok (sp_emotion resp) = true ->
  get_proc w1 "bot" = None /\ get_proc w1 "emotion" = None /\
  (forall payload w2,
     status_payload env w1 = Some (payload, w2) ->
     emotion_running payload = false /\ bot_running payload = false /\
     emotion_pid payload = None /\ bot_pid payload = None) /\
  ((forall n, (0 <= took (http_get env n))%Q) ->
   exists payload w2,
     status_payload env w1 = Some (payload, w2) /\
     emotion_running payload = false /\ bot_running payload = false /\
     emotion_pid payload = None /\ bot_pid payload = None).
Proof.
  unfold stop.
  pose proof (stop_process_clears env "bot" w) as Hb.
  destruct (stop_process env "bot" w) as [res_bot wb]. cbn [fst snd] in Hb.
  pose proof (stop_process_clears env "emotion" wb) as He.
  pose proof (stop_process_other env "emotion" "bot" wb) as Hfr.
  destruct (stop_process env "emotion" wb) as [res_emotion we].
  cbn [fst snd sp_bot sp_emotion] in *.
  intros Hokb Hoke.
  destruct (Hb Hokb) as [Hnb _]. destruct (He Hoke) as [Hne _].
  assert (Hnb' : get_proc we "bot" = None).
  { unfold get_proc in *. rewrite Hfr by discriminate. exact Hnb. }
  split; [exact Hnb' |]. split; [exact Hne |].
  assert (Hfields : forall payload w2,
            status_payload env we = Some (payload, w2) ->
            emotion_running payload = false /\ bot_running payload = false /\
            emotion_pid payload = None /\ bot_pid payload = None).
  { intros payload w2 Hs. unfold status_payload in Hs.
    destruct (wait_for_emotion_api env 0.1 we) as [[reachable w3] |];
      [| discriminate].
    injection Hs as <- <-. cbn.
    destruct (not_running_unrecorded we "bot" Hnb') as [-> ->].
    destruct (not_running_unrecorded we "emotion" Hne) as [-> ->].
    auto. }
  split; [exact Hfields |].
  intros Hnn.
  destruct (wait_for_emotion_api_returns env 0.1 we Hnn) as (b & w3 & k & Hr & _).
  assert (Hs : status_payload env we =
               Some (mkStatus (is_running we "emotion") (is_running we "bot")
                       (pid_if_running we "emotion") (pid_if_running we "bot") b,
                     w3)).
  { unfold status_payload. rewrite Hr. reflexivity. }
  eexists _, w3. split; [exact Hs |]. exact (Hfields _ _ Hs).
Qed.

Lemma stop_then_status_witness :
  let w1 := snd (stop stubborn_env world_all_up) in
  get_proc w1 "bot" = None /\ get_proc w1 "emotion" = None /\
  exists payload w2,
    status_payload stubborn_env w1 = Some (payload, w2) /\
    emotion_running payload = false /\ bot_running payload = false /\
    emotion_pid payload = None /\ bot_pid payload = None.
Proof.
  destruct (stop_then_status stubborn_env world_all_up)
    as (Hbot & Hemotion & _ & Hreturns); [vm_compute; reflexivity .. |].
  split; [exact Hbot |]. split; [exact Hemotion |].
  apply Hreturns. intros n. cbn. lra.
Defined.

End ControllerFacts.

(* ===================================================================== *)
(** * emotion_webcam.py: face crop and prediction                         *)
(* ===================================================================== *)

Module Vision.
Import Py.

(** A rectangle [(x, y, w, h)] as the cascade reports it, in pixels. *)
Record Rect : Type := mkRect { rx : Z; ry : Z; rw : Z; rh : Z }.

Definition area (r : Rect) : Z := rw r * rh r.

(** [max(faces, key=lambda r: r[2] * r[3])]: the first face of greatest
    area. *)
Fixpoint largest_from (best : Rect) (rest : list Rect) : Rect :=
  match rest with
  | [] => best
  | r :: rest' =>
      if (area best <? area r)%Z then largest_from r rest'
      else largest_from best rest'
  end.

(** [r] lies in a frame of the given width and height and is not empty. *)
Definition inside (width height : Z) (r : Rect) : Prop :=
  (0 <= rx r /\ 0 <= ry r /\ 0 < rw r /\ 0 < rh r /\
   rx r + rw r <= width /\ ry r + rh r <= height)%Z.

(** [inner] lies within [outer]. *)
Definition within (inner outer : Rect) : Prop :=
  (rx outer <= rx inner /\ rx inner + rw inner <= rx outer + rw outer /\
   ry outer <= ry inner /\ ry inner + rh inner <= ry outer + rh outer)%Z.

(** [np.argmax(probs)]: the first index of the greatest entry. *)
Fixpoint argmax_from (best_i : nat) (best : Q) (i : nat) (xs : list Q) : nat :=
  match xs with
  | [] => best_i
  | x :: rest =>
      if Qltb best x then argmax_from i x (S i) rest
      else argmax_from best_i best (S i) rest
  end.

Section Predict.

(** [int(0.2 * w)], the padding for a face of width [w]. *)
Variable int_fifth : Z -> Z.

(** [detect_face], on the faces the cascade found in a frame of the given
    size; the result is the rectangle of the slice
    [frame_bgr[y:y + h, x:x + w]]. *)
Definition detect_face (faces : list Rect) (width height : Z) : option Rect :=
  match faces with
  | [] => None
  | f :: rest =>
      let best := largest_from f rest in
      let padding := int_fifth (rw best) in
      let x := Z.max 0 (rx best - padding) in
      let y := Z.max 0 (ry best - padding) in
      let w := Z.min (width - x) (rw best + 2 * padding) in
      let h := Z.min (height - y) (rh best + 2 * padding) in
      Some (mkRect x y w h)
  end.

(** The network followed by softmax, on a face crop. *)
Variable probs_of : Rect -> list Q.

(** [predict_emotion_from_frame]; [None] stands for the exception raised
    when the network's output is empty or has more entries than there are
    classes and the greatest lies beyond them. *)
Definition predict_emotion_from_frame (faces : list Rect) (width height : Z)
  : option Webcam.Prediction :=
  match detect_face faces width height with
  | None => Some (Webcam.mkPrediction "neutral" 0)
  | Some face =>
      match probs_of face with
      | [] => None
      | p :: rest =>
          let pred_idx := argmax_from 0 p 1 rest in
          let conf := max_from p rest in
          match nth_error Webcam.CLASSES pred_idx with
          | Some pred_label => Some (Webcam.mkPrediction pred_label conf)
          | None => None
          end
      end
  end.

End Predict.

(** ** The chosen face and its crop *)

Lemma largest_from_spec (rest : list Rect) : forall best,
  In (largest_from best rest) (best :: rest) /\
  (area best <= area (largest_from best rest))%Z /\
  forall r, In r rest -> (area r <= area (largest_from best rest))%Z.
Proof.
  induction rest as [| r rest IH]; intros best; simpl.
  - split; [left; reflexivity |]. split; [lia | intros r []].
  - destruct (Z.ltb_spec (area best) (area r)) as [Hlt | Hge].
    + destruct (IH r) as (Hin & Hle & Hall).
      split; [right; exact Hin |]. split; [lia |].
      intros q [<- | Hq]; [exact Hle | apply Hall, Hq].
    + destruct (IH best) as (Hin & Hle & Hall).
      split; [destruct Hin as [<- | Hin]; [left; reflexivity | right; right; exact Hin] |].
      split; [exact Hle |].
      intros q [<- | Hq]; [lia | apply Hall, Hq].
Qed.

(** When the cascade reports at least one face and every reported face
    lies in the frame, [detect_face] crops around a face of greatest area;
    the crop lies in the frame, contains that face, starts at most one
    padding to the left of and above it, and is at most two paddings wider
    and higher than it (the padding is computed from the face's width for
    both directions). *)
Theorem detect_face_crop (int_fifth : Z -> Z) (faces : list Rect)
  (width height : Z) :
  (forall w, (0 <= w)%Z -> (0 <= int_fifth w)%Z) ->
  faces <> [] ->
  (forall r, In r faces -> inside width height r) ->
  exists face crop,
    detect_face int_fifth faces width height = Some crop /\
    In face faces /\
    (forall r, In r faces -> (area r <= area face)%Z) /\
    inside width height crop /\
    within face crop /\
    (rx face - rx crop <= int_fifth (rw face))%Z /\
    (ry face - ry crop <= int_fifth (rw face))%Z /\
    (rw crop <= rw face + 2 * int_fifth (rw face))%Z /\
    (rh crop <= rh face + 2 * int_fifth (rw face))%Z.
Proof.
  intros Hpad Hne Hin. destruct faces as [| f rest]; [contradiction |].
  destruct (largest_from_spec rest f) as (Hmem & Hle & Hall).
  set (face := largest_from f rest) in *.
  exists face. eexists. split; [reflexivity |].
  split; [exact Hmem |].
  split; [intros r [<- | Hr]; [exact Hle | apply Hall, Hr] |].
  destruct (Hin face Hmem) as (Hx & Hy & Hw & Hh & Hxw & Hyh).
  pose proof (Hpad (rw face) ltac:(lia)) as Hp.
  unfold inside, within. cbn [rx ry rw rh detect_face]. fold face. lia.
Qed.

Lemma detect_face_crop_witness :
  exists face crop,
    detect_face (fun w => w / 5)%Z [mkRect 10 20 100 120; mkRect 300 200 200 150] 640 480
      = Some crop /\
    In face [mkRect 10 20 100 120; mkRect 300 200 200 150] /\
    (forall r, In r [mkRect 10 20 100 120; mkRect 300 200 200 150] ->
       (area r <= area face)%Z) /\
    inside 640 480 crop /\
    within face crop /\
    (rx face - rx crop <= rw face / 5)%Z /\
    (ry face - ry crop <= rw face / 5)%Z /\
    (rw crop <= rw face + 2 * (rw face / 5))%Z /\
    (rh crop <= rh face + 2 * (rw face / 5))%Z.
Proof.
  apply (detect_face_crop (fun w => w / 5)%Z
           [mkRect 10 20 100 120; mkRect 300 200 200 150] 640 480).
  - intros w Hw. apply Z.div_pos; lia.
  - discriminate.
  - intros r [<- | [<- | []]]; unfold inside; cbn; lia.
Defined.

Example detect_face_clips_at_the_border :
  detect_face (fun w => w / 5)%Z [mkRect 10 20 100 120; mkRect 500 300 140 180] 640 480
  = Some (mkRect 472 272 168 208) /\
  detect_face (fun w => w / 5)%Z [] 640 480 = None.
Proof. split; reflexivity. Qed.

(** ** The prediction *)

Lemma argmax_from_spec (xs : list Q) : forall (pre : list Q) (best_i : nat) (best : Q),
  nth_error pre best_i = Some best ->
  (forall j p, nth_error pre j = Some p ->
     (p <= best)%Q /\ ((j < best_i)%nat -> (p < best)%Q)) ->
  let idx := argmax_from best_i best (List.length pre) xs in
  nth_error (pre ++ xs) idx = Some (max_from best xs) /\
  (idx < List.length (pre ++ xs))%nat /\
  forall j p, nth_error (pre ++ xs) j = Some p ->
    (p <= max_from best xs)%Q /\ ((j < idx)%nat -> (p < max_from best xs)%Q).
Proof.
  induction xs as [| x xs IH]; intros pre best_i best Hbest Hpre; cbn zeta.
  - cbn [argmax_from max_from]. rewrite app_nil_r.
    split; [exact Hbest |].
    split; [apply nth_error_Some; congruence | exact Hpre].
  - cbn [argmax_from max_from].
    replace (pre ++ x :: xs) with ((pre ++ [x]) ++ xs)
      by (rewrite <- app_assoc; reflexivity).
    replace (S (List.length pre)) with (List.length (pre ++ [x]))
      by (rewrite length_app; simpl; lia).
    assert (Hsnoc : forall j p, nth_error (pre ++ [x]) j = Some p ->
              (j < List.length pre)%nat /\ nth_error pre j = Some p \/
              j = List.length pre /\ p = x).
    { intros j p Hj. destruct (Nat.lt_ge_cases j (List.length pre)) as [Hlt | Hge].
      - left. split; [exact Hlt |]. rewrite nth_error_app1 in Hj by exact Hlt. exact Hj.
      - right. rewrite nth_error_app2 in Hj by exact Hge.
        destruct (j - List.length pre)%nat as [| d] eqn:Ed; simpl in Hj.
        + split; [lia | congruence].
        + destruct d; discriminate. }
    destruct (Qltb best x) eqn:E.
    + apply Qltb_true in E. apply IH.
      * rewrite nth_error_app2 by lia. rewrite Nat.sub_diag. reflexivity.
      * intros j p Hj. destruct (Hsnoc j p Hj) as [[Hlt Hp] | [-> ->]].
        -- destruct (Hpre j p Hp) as [Hle _]. split; [lra | intros _; lra].
        -- split; [lra | intros Hc; lia].
    + apply Qltb_false in E. apply IH.
      * rewrite nth_error_app1 by (apply nth_error_Some; congruence). exact Hbest.
      * intros j p Hj. destruct (Hsnoc j p Hj) as [[Hlt Hp] | [-> ->]].
        -- apply Hpre, Hp.
        -- split; [exact E |]. intros Hc.
           assert (best_i < List.length pre)%nat by (apply nth_error_Some; congruence).
           lia.
Qed.

(** With a network of seven outputs, [predict_emotion_from_frame] always
    returns a prediction whose label is one of the seven classes.  Without
    a face it is "neutral" with confidence 0; with a face the label is the
    class at the first index of the greatest probability and the confidence
    is that probability. *)
Theorem predict_emotion_in_classes (int_fifth : Z -> Z) (probs_of : Rect -> list Q)
  (faces : list Rect) (width height : Z) :
  (forall face, List.length (probs_of face) = 7%nat) ->
  exists out,
    predict_emotion_from_frame int_fifth probs_of faces width height = Some out /\
    In (Webcam.p_emotion out) Webcam.CLASSES /\
    (faces = [] -> out = Webcam.mkPrediction "neutral" 0) /\
    (forall face, detect_face int_fifth faces width height = Some face ->
     exists idx,
       nth_error Webcam.CLASSES idx = Some (Webcam.p_emotion out) /\
       nth_error (probs_of face) idx = Some (Webcam.p_confidence out) /\
       forall j p, nth_error (probs_of face) j = Some p ->
         (p <= Webcam.p_confidence out)%Q /\
         ((j < idx)%nat -> (p < Webcam.p_confidence out)%Q)).
Proof.
  intros Hlen. unfold predict_emotion_from_frame.
  destruct (detect_face int_fifth faces width height) as [face |] eqn:Ed.
  - specialize (Hlen face).
    destruct (probs_of face) as [| p rest] eqn:Ep; [discriminate |].
    destruct (argmax_from_spec rest [p] 0%nat p eq_refl) as (Hnth & Hlt & Hall).
    { intros j q Hj. destruct j as [| j]; simpl in Hj.
      - injection Hj as <-. split; [lra | lia].
      - destruct j; discriminate. }
    cbn [List.length app] in Hnth, Hlt, Hall.
    assert (Hidx : (argmax_from 0 p 1 rest < List.length Webcam.CLASSES)%nat).
    { simpl in Hlen. simpl in Hlt. simpl. lia. }
    destruct (nth_error Webcam.CLASSES (argmax_from 0 p 1 rest)) as [label |] eqn:El.
    2:{ apply nth_error_None in El. lia. }
    eexists. split; [reflexivity |]. cbn [Webcam.p_emotion Webcam.p_confidence].
    split; [apply (nth_error_In _ _ El) |].
    split.
    + intros ->. discriminate.
    + intros face' Hf. injection Hf as <-. rewrite Ep.
      exists (argmax_from 0 p 1 rest). auto.
  - eexists. split; [reflexivity |]. cbn.
    split; [unfold Webcam.CLASSES; simpl; tauto |].
    split; [reflexivity | intros face Hf; discriminate].
Qed.

Lemma predict_emotion_in_classes_witness :
  exists out,
    predict_emotion_from_frame (fun w => w / 5)%Z
      (fun _ => [0.05; 0.05; 0.1; 0.3; 0.3; 0.1; 0.1]%Q)
      [mkRect 10 20 100 120] 640 480 = Some out /\
    In (Webcam.p_emotion out) Webcam.CLASSES /\
    ([mkRect 10 20 100 120] = [] -> out = Webcam.mkPrediction "neutral" 0) /\
    (forall face,
     detect_face (fun w => w / 5)%Z [mkRect 10 20 100 120] 640 480 = Some face ->
     exists idx,
       nth_error Webcam.CLASSES idx = Some (Webcam.p_emotion out) /\
       nth_error [0.05; 0.05; 0.1; 0.3; 0.3; 0.1; 0.1]%Q idx
         = Some (Webcam.p_confidence out) /\
       forall j p, nth_error [0.05; 0.05; 0.1; 0.3; 0.3; 0.1; 0.1]%Q j = Some p ->
         (p <= Webcam.p_confidence out)%Q /\
         ((j < idx)%nat -> (p < Webcam.p_confidence out)%Q)).
Proof.
  apply (predict_emotion_in_classes (fun w => w / 5)%Z
           (fun _ => [0.05; 0.05; 0.1; 0.3; 0.3; 0.1; 0.1]%Q)
           [mkRect 10 20 100 120] 640 480).
  intros face. reflexivity.
Defined.

Example predict_first_of_equal_maxima :
  predict_emotion_from_frame (fun w => w / 5)%Z
    (fun _ => [0.05; 0.05; 0.1; 0.3; 0.3; 0.1; 0.1]%Q)
    [mkRect 10 20 100 120] 640 480
  = Some (Webcam.mkPrediction "happy" 0.3).
Proof. reflexivity. Qed.

End Vision.

(* ===================================================================== *)
(** * From the webcam loop to the decision                                *)
(* ===================================================================== *)

Module Pipeline.
Import Py Webcam Bot.

(** ** The window after a run *)

Lemma window_items (t0 : Q) (ticks : list Tick) :
  items (window (webcam_loop (initial t0) ticks)) = last_n 5 (sampled t0 ticks).
Proof.
  rewrite webcam_loop_window. simpl.
  destruct (fold_append_items (sampled t0 ticks) emotion_window) as [_ Hi];
    [simpl; lia |].
  exact Hi.
Qed.

(** ** What the producer serves can always be read *)




(** ** The label set is closed along the pipeline *)

Lemma detect_emotion_range (float_of_str : string -> option Q) (fetch : Fetch)
  (send_message : string -> Reply) (user_input : option string) :
  In (detect_emotion float_of_str fetch send_message user_input)
     ("neutral" :: LABELS ++ fetched_labels float_of_str fetch).
Proof.
  unfold detect_emotion, detect_emotion_try.
  destruct fetch as [e | status_code body]; [left; reflexivity |].
  destruct (negb (status_code =? 200)%Z); [left; reflexivity |].
  destruct body as [| payload]; [left; reflexivity |].
  destruct payload as [| b | q | s | xs | kvs]; try (left; reflexivity).
  cbn [get fetched_labels].
  destruct (assoc "data" kvs) as [frames |]; [| left; reflexivity].
  cbn [bind]. destruct (negb (truthy frames)); [left; reflexivity |].
  destruct (iter frames) as [fs | e]; [| left; reflexivity].
  cbn [bind].
  destruct (group float_of_str fs []) as [counts | e] eqn:Eg; [| left; reflexivity].
  cbn [bind].
  destruct (choose counts _) as [l | e] eqn:Ec; [| left; reflexivity].
  cbn [try_except]. apply choose_range in Ec. destruct Ec as [-> | Hl].
  - pose proof (llm_emotion_fallback_range send_message user_input) as H.
    destruct H as [H | H]; [left; exact H |].
    right. apply in_or_app. left. exact H.
  - destruct (group_keys float_of_str fs [] counts l Eg Hl) as [[] | H].
    right. apply in_or_app. right. exact H.
Qed.

Lemma fetched_labels_served (float_of_str : string -> option Q) (w : list Sample) :
  fetched_labels float_of_str (served w) = map label w.
Proof.
  unfold fetched_labels, served, get_emotion_window. cbn [assoc items].
  change (String.eqb "window_size" "data") with false.
  change (String.eqb "data" "data") with true.
  cbn [iter]. unfold frame_labels.
  induction w as [| s w IH]; [reflexivity |].
  cbn [map flat_map]. rewrite frame_entry_sample. cbn [fst app].
  rewrite IH. reflexivity.
Qed.

Lemma sampled_predictions (ticks : list Tick) : forall last s,
  In s (sampled last ticks) ->
  exists out now, In (Frame out now) ticks /\ emotion s = p_emotion out.
Proof.
  induction ticks as [| t ticks IH]; intros last s Hs; simpl in Hs; [destruct Hs |].
  destruct t as [| out now].
  - destruct (IH _ _ Hs) as (o & n & Hin & E). exists o, n. split; [right; exact Hin | exact E].
  - destruct (Qle_bool 1 (now - last)).
    + destruct Hs as [<- | Hs].
      * exists out, now. split; [left; reflexivity | reflexivity].
      * destruct (IH _ _ Hs) as (o & n & Hin & E).
        exists o, n. split; [right; exact Hin | exact E].
    + destruct (IH _ _ Hs) as (o & n & Hin & E).
      exists o, n. split; [right; exact Hin | exact E].
Qed.

Lemma In_skipn_In {A : Type} (n : nat) : forall (l : list A) (x : A),
  In x (skipn n l) -> In x l.
Proof.
  induction n as [| n IH]; intros l x H; [exact H |].
  destruct l as [| a l]; [destruct H |]. right. apply IH, H.
Qed.

(** When every prediction the loop receives carries one of the seven
    classes, so does every sample of the window, and [detect_emotion], fed
    with the window the producer serves, returns one of the seven classes
    whatever the language model does. *)
Theorem pipeline_stays_in_classes (float_of_str : string -> option Q)
  (t0 : Q) (ticks : list Tick) (send_message : string -> Reply)
  (user_input : option string) :
  (forall out now, In (Frame out now) ticks -> In (p_emotion out) CLASSES) ->
  let w := items (window (webcam_loop (initial t0) ticks)) in
  (forall s, In s w -> In (emotion s) CLASSES) /\
  In (detect_emotion float_of_str (served w) send_message user_input) CLASSES.
Proof.
  intros Hticks w.
  assert (Hw : forall s, In s w -> In (emotion s) CLASSES).
  { intros s Hs. subst w. rewrite window_items in Hs. unfold last_n in Hs.
    apply In_skipn_In in Hs.
    destruct (sampled_predictions _ _ _ Hs) as (out & now & Hin & ->).
    apply (Hticks out now Hin). }
  split; [exact Hw |].
  pose proof (detect_emotion_range float_of_str (served w) send_message user_input)
    as Hr.
  rewrite fetched_labels_served in Hr.
  destruct Hr as [<- | Hr]; [vm_compute; tauto |].
  apply in_app_or in Hr. destruct Hr as [Hr | Hr].
  - revert Hr. generalize (detect_emotion float_of_str (served w) send_message user_input).
    intros l Hl. unfold LABELS in Hl. simpl in Hl.
    destruct Hl as [<- | [<- | [<- | [<- | [<- | [<- | []]]]]]]; vm_compute; tauto.
  - apply in_map_iff in Hr. destruct Hr as (s & <- & Hs).
    unfold label. rewrite (lower_CLASSES _ (Hw s Hs)). apply Hw, Hs.
Qed.

(** Seven ticks, one every 1.5 s, with predictions from the classes. *)
Definition seven_ticks : list Tick :=
  [Frame (mkPrediction "neutral" 0.9) 1.5; Frame (mkPrediction "neutral" 0.8) 3;
   Frame (mkPrediction "happy" 0.7) 4.5; Frame (mkPrediction "neutral" 0.9) 6;
   Frame (mkPrediction "sad" 0.6) 7.5; Frame (mkPrediction "neutral" 0.9) 9;
   Frame (mkPrediction "happy" 0.5) 10.5].

Lemma pipeline_stays_in_classes_witness :
  let w := items (window (webcam_loop (initial 0) seven_ticks)) in
  (forall s, In s w -> In (emotion s) CLASSES) /\
  In (detect_emotion no_float (served w) unreachable_model None) CLASSES.
Proof.
  apply (pipeline_stays_in_classes no_float 0 seven_ticks unreachable_model None).
  intros out now Hin. unfold seven_ticks in Hin. simpl in Hin.
  destruct Hin as [E | [E | [E | [E | [E | [E | [E | []]]]]]]];
    injection E as <- _; vm_compute; tauto.
Defined.

Example pipeline_on_seven_ticks :
  map emotion (items (window (webcam_loop (initial 0) seven_ticks)))
    = ["happy"; "neutral"; "sad"; "neutral"; "happy"] /\
  detect_emotion no_float
    (served (items (window (webcam_loop (initial 0) seven_ticks))))
    unreachable_model None = "happy".
Proof. split; reflexivity. Qed.

End Pipeline.

(* ===================================================================== *)
(** * main_integrated.py: the dialogue                                    *)
(* ===================================================================== *)

Module Dialogue.
Import Py Bot.

(** ** More string methods *)

Definition is_lower (c : ascii) : bool :=
  let n := nat_of_ascii c in (97 <=? n)%nat && (n <=? 122)%nat.

Definition upper_ascii (c : ascii) : ascii :=
  if is_lower c then ascii_of_nat (nat_of_ascii c - 32) else c.

(** [s.capitalize()]: the first character in upper case, the rest in lower
    case. *)
Definition capitalize (s : string) : string :=
  match s with
  | EmptyString => EmptyString
  | String c rest => String (upper_ascii c) (lower rest)
  end.

Definition is_empty (s : string) : bool :=
  match s with
  | EmptyString => true
  | String _ _ => false
  end.

(** [s.split()]: the maximal runs of characters that are not white space;
    [word] is the run being read. *)
Fixpoint split_acc (word : string) (s : string) : list string :=
  match s with
  | EmptyString => if is_empty word then [] else [word]
  | String c rest =>
      if is_space c then
        if is_empty word then split_acc EmptyString rest
        else word :: split_acc EmptyString rest
      else split_acc (word +:+ String c EmptyString) rest
  end.

Definition split (s : string) : list string := split_acc EmptyString s.

(** [w in text] on strings: [w] occurs in [text] as a substring. *)
Fixpoint occurs (w text : string) : bool :=
  String.prefix w text ||
  match text with
  | EmptyString => false
  | String _ rest => occurs w rest
  end.

(** ** [extract_name], [is_yes], [is_no], [paraphrase] *)

Definition IGNORE : list string :=
  ["my"; "name"; "is"; "i'm"; "im"; "call"; "me"].

Definition extract_name (text : string) : string :=
  match List.filter (fun w => negb (contains IGNORE w)) (split (lower text)) with
  | w :: _ => capitalize w
  | [] => "Friend"
  end.

Definition YES_WORDS : list string :=
  ["yes"; "yeah"; "yep"; "sure"; "ok"; "okay"; "please";
   "alright"; "i want"; "i would"; "i'd like"; "lets"; "let's";
   "go ahead"; "1"; "first"].

Definition NO_WORDS : list string :=
  ["no"; "nah"; "nope"; "not"; "don't"; "do not"; "dont";
   "stop"; "2"; "second"].

Definition is_yes (text : string) : bool :=
  existsb (fun w => occurs w (lower text)) YES_WORDS.

Definition is_no (text : string) : bool :=
  existsb (fun w => occurs w (lower text)) NO_WORDS.

Definition paraphrase_prompt (fixed_reply user_input : string) : string :=
  "User said: '" +:+ user_input +:+ "'" +:+ nl +:+
  "Original response: '" +:+ fixed_reply +:+ "'" +:+ nl +:+
  "Paraphrase warmly for an elderly listener.".

Definition paraphrase (send_message : string -> Reply)
  (fixed_reply user_input : string) : string :=
  match send_message (paraphrase_prompt fixed_reply user_input) with
  | Text (Some text) => strip text
  | Text None => fixed_reply
  | SendRaises _ => fixed_reply
  end.

(** ** The robot

    What the Furhat does when called: whether the n-th [say] and the n-th
    [gesture] raise, and what the n-th [listen] gives (an exception, or the
    message of the response; [None] when there is no response or no
    message).  [on_fetch] is the outcome of the n-th request of
    [detect_emotion]. *)
Record Furhat : Type := mkFurhat {
  on_say : nat -> option exn;
  on_listen : nat -> result (option string);
  on_gesture : nat -> option exn;
  on_fetch : nat -> Fetch
}.

Inductive Act : Type :=
| Say (text : string)
| Listen
| Gesture (name : string)
| Sleep (d : Q).

(** The bot object and what it has done so far. *)
Record Robot : Type := mkRobot {
  user_name : string;
  last_emotion : string;
  says : nat;
  listens : nat;
  gestures : nat;
  fetches : nat;
  acts : list Act
}.

(** [ElderCompanionBot.__init__] *)
Definition new_robot : Robot := mkRobot "Friend" "neutral" 0 0 0 0 [].

(** A method of the bot: it returns or raises, and changes the robot. *)
Definition M (A : Type) : Type := Robot -> result A * Robot.

Definition ret {A : Type} (a : A) : M A := fun r => (Ok a, r).

Definition seq {A B : Type} (m : M A) (k : A -> M B) : M B :=
  fun r =>
    match m r with
    | (Ok a, r1) => k a r1
    | (Raise e, r1) => (Raise e, r1)
    end.

Notation "x <~ m ;; k" := (seq m (fun x => k))
  (at level 100, m at next level, right associativity).
Notation "m ;;; k" := (seq m (fun _ => k))
  (at level 100, right associativity).

Definition emotion_gestures : list (string * list string) :=
  [("happy", ["BigSmile"; "Nod"]);
   ("sad", ["Thoughtful"; "LookDown"]);
   ("angry", ["ShakeHead"]);
   ("fear", ["GazeAway"; "Thoughtful"]);
   ("surprise", ["Surprised"; "RaiseBrows"]);
   ("disgust", ["ShakeHead"; "LookAway"]);
   ("neutral", ["Smile"])].

(** [response and response.message] *)
Definition message_of (heard : option string) : option string :=
  match heard with
  | Some m => if is_empty m then None else Some m
  | None => None
  end.

Section Bot.

Variable fh : Furhat.
Variable float_of_str : string -> option Q.
Variable send_message : string -> Reply.

(** [self.say(text)] *)
Definition say (text : string) : M unit :=
  fun r =>
    let r1 := mkRobot (user_name r) (last_emotion r) (S (says r)) (listens r)
                      (gestures r) (fetches r) (acts r ++ [Say text]) in
    match on_say fh (says r) with
    | Some e => (Raise e, r1)
    | None => (Ok tt, r1)
    end.

(** [self.furhat.listen()] *)
Definition listen : M (option string) :=
  fun r =>
    (on_listen fh (listens r),
     mkRobot (user_name r) (last_emotion r) (says r) (S (listens r))
             (gestures r) (fetches r) (acts r ++ [Listen])).

(** [self.furhat.gesture(name=name)] *)
Definition gesture (name : string) : M unit :=
  fun r =>
    let r1 := mkRobot (user_name r) (last_emotion r) (says r) (listens r)
                      (S (gestures r)) (fetches r) (acts r ++ [Gesture name]) in
    match on_gesture fh (gestures r) with
    | Some e => (Raise e, r1)
    | None => (Ok tt, r1)
    end.

(** [time.sleep(d)] *)
Definition sleep (d : Q) : M unit :=
  fun r =>
    (Ok tt, mkRobot (user_name r) (last_emotion r) (says r) (listens r)
                    (gestures r) (fetches r) (acts r ++ [Sleep d])).

Definition safe_gesture (name : string) : M unit :=
  if is_empty name then ret tt
  else fun r =>
         match gesture name r with
         | (Ok _, r1) => (Ok tt, r1)
         | (Raise _, r1) => (Ok tt, r1)
         end.

Fixpoint for_each {A : Type} (xs : list A) (body : A -> M unit) : M unit :=
  match xs with
  | [] => ret tt
  | x :: rest => body x ;;; for_each rest body
  end.

Definition express_emotion (emotion : string) : M unit :=
  let gs := match assoc emotion emotion_gestures with
            | Some gs => gs
            | None => []
            end in
  for_each gs (fun g => safe_gesture g ;;; sleep 0.2).

(** What one answer decides: [Some true] for yes, [Some false] for no. *)
Definition verdict (heard : option string) : option bool :=
  match message_of heard with
  | Some m =>
      if is_yes m then Some true
      else if is_no m then Some false
      else None
  | None => None
  end.

Definition ask_yes_no (question reprompt : string) : M (option bool) :=
  say question ;;;
  r1 <~ listen ;;
  match verdict r1 with
  | Some b => ret (Some b)
  | None =>
      say reprompt ;;;
      r2 <~ listen ;;
      ret (verdict r2)
  end.

Definition default_reprompt : string := "Sorry, is that a yes or a no?".

Definition continue_chat_prompt : M bool :=
  say "I understand. I will be here for you." ;;; ret true.

Definition do_one_breath : M unit :=
  say "Okay. Let’s do one slow breath together." ;;;
  say "Breathe in... one... two... three..." ;;;
  sleep 0.3 ;;;
  say "Hold... one... two..." ;;;
  sleep 0.3 ;;;
  say "Breathe out... one... two... three... four...".

Definition do_grounding_3_things : M unit :=
  say "Okay. Let’s do a quick grounding exercise." ;;;
  say "Name one thing you can see, one thing you can hear, and one thing you can feel." ;;;
  _ <~ listen ;;
  say "Good job. Let’s take one slow breath together." ;;;
  say "Breathe in... and breathe out slowly.".

Definition do_music_reco : M unit :=
  say "Okay. Here are a few options: soft piano, calm lo-fi, or peaceful nature sounds." ;;;
  say "Would you like something more relaxing, or something more uplifting?" ;;;
  _ <~ listen ;;
  say "Alright. Try listening for a minute and notice how your body feels.".

Definition do_journal_prompt : M unit :=
  say "Okay. You can start by writing what happened and how you felt." ;;;
  say "What is one detail you want to remember from today?" ;;;
  _ <~ listen ;;
  say "That sounds meaningful. Writing it down can help you remember this moment.".

(** [if choice:] on the answer of [ask_yes_no]. *)
Definition chosen (choice : option bool) : bool :=
  match choice with
  | Some true => true
  | _ => false
  end.

Definition sad_flow (user_input : string) : M bool :=
  let fixed := "I’m sorry that you’re feeling sad and it is completely okay to feel this way. Would you like some music recommendations to help you feel a bit better?" in
  choice <~ ask_yes_no (paraphrase send_message fixed user_input) default_reprompt ;;
  safe_gesture "Tilt(direction='left)" ;;;
  if chosen choice then
    safe_gesture "Nod" ;;; do_music_reco ;;; ret true
  else
    safe_gesture "Nod" ;;; _ <~ continue_chat_prompt ;; ret true.

Definition angry_flow (user_input : string) : M bool :=
  let fixed := "It seems you're upset. Would you like a quick reset, like a calming breath?" in
  choice <~ ask_yes_no (paraphrase send_message fixed user_input) default_reprompt ;;
  if chosen choice then
    safe_gesture "Nod" ;;; do_one_breath ;;; ret true
  else
    safe_gesture "Nod" ;;; _ <~ continue_chat_prompt ;; ret true.

Definition fear_flow (user_input : string) : M bool :=
  let fixed := "You look worried. Would you like a quick grounding exercise to feel better?" in
  safe_gesture "ExpressSad" ;;;
  choice <~ ask_yes_no (paraphrase send_message fixed user_input) default_reprompt ;;
  if chosen choice then
    safe_gesture "Nod" ;;; do_grounding_3_things ;;; ret true
  else
    safe_gesture "Nod" ;;; _ <~ continue_chat_prompt ;; ret true.

Definition happy_flow (user_input : string) : M bool :=
  let fixed := "Oh, how wonderful! I am glad that you are happy! Would you like to pen down your thoughts to remember this eventful day?" in
  choice <~ ask_yes_no (paraphrase send_message fixed user_input) default_reprompt ;;
  if chosen choice then
    safe_gesture "Nod" ;;; safe_gesture "BigSmile" ;;; do_journal_prompt ;;; ret true
  else
    safe_gesture "Nod" ;;; _ <~ continue_chat_prompt ;; ret true.

Definition surprise_flow (user_input : string) : M bool :=
  let fixed := "Oh my, that is so surprising! I understand you got a shock, would you like to calm down with a slow breath?" in
  safe_gesture "Tilt(direction='left')" ;;;
  choice <~ ask_yes_no (paraphrase send_message fixed user_input) default_reprompt ;;
  if chosen choice then
    safe_gesture "Nod" ;;; do_one_breath ;;; ret true
  else
    safe_gesture "Nod" ;;; _ <~ continue_chat_prompt ;; ret true.

Definition disgust_flow (user_input : string) : M bool :=
  let fixed := "That seems really unpleasant, it is fine to feel unsettled. Would you like to take a moment to reset with a calming breath?" in
  choice <~ ask_yes_no (paraphrase send_message fixed user_input) default_reprompt ;;
  if chosen choice then
    safe_gesture "Nod" ;;; do_one_breath ;;; ret true
  else
    safe_gesture "Nod" ;;; _ <~ continue_chat_prompt ;; ret true.

(** [emotion = self.detect_emotion(user_input); self.last_emotion = emotion] *)
Definition sense_emotion (user_input : string) : M string :=
  fun r =>
    let emotion := detect_emotion float_of_str (on_fetch fh (fetches r))
                     send_message (Some user_input) in
    (Ok emotion,
     mkRobot (user_name r) emotion (says r) (listens r) (gestures r)
             (S (fetches r)) (acts r)).

Definition respond (user_input : string) : M bool :=
  emotion <~ sense_emotion user_input ;;
  express_emotion emotion ;;;
  if String.eqb emotion "sad" then sad_flow user_input
  else if String.eqb emotion "angry" then angry_flow user_input
  else if String.eqb emotion "fear" then fear_flow user_input
  else if String.eqb emotion "happy" then happy_flow user_input
  else if String.eqb emotion "surprise" then surprise_flow user_input
  else if String.eqb emotion "disgust" then disgust_flow user_input
  else say "I'm here with you. Tell me what's on your mind." ;;; ret true.

Definition set_user_name (name : string) : M unit :=
  fun r =>
    (Ok tt, mkRobot name (last_emotion r) (says r) (listens r) (gestures r)
                    (fetches r) (acts r)).

Definition greet_user : M unit :=
  safe_gesture "Smile" ;;;
  say "Hello! I'm your companion Furhat." ;;;
  say "May I know your name?" ;;;
  response <~ listen ;;
  (match message_of response with
   | Some m => set_user_name (extract_name m)
   | None => ret tt
   end) ;;;
  fun r => say ("Nice to meet you, " +:+ user_name r +:+ ".") r.

End Bot.

(** ** Facts about the string methods *)

Lemma lower_ascii_idem (c : ascii) : lower_ascii (lower_ascii c) = lower_ascii c.
Proof. destruct c as [[] [] [] [] [] [] [] []]; reflexivity. Qed.

Lemma lower_upper_ascii (c : ascii) : lower_ascii (upper_ascii c) = lower_ascii c.
Proof. destruct c as [[] [] [] [] [] [] [] []]; reflexivity. Qed.

Lemma is_space_lower_ascii (c : ascii) : is_space (lower_ascii c) = is_space c.
Proof. destruct c as [[] [] [] [] [] [] [] []]; reflexivity. Qed.

Lemma is_space_upper_ascii (c : ascii) : is_space (upper_ascii c) = is_space c.
Proof. destruct c as [[] [] [] [] [] [] [] []]; reflexivity. Qed.

Lemma lower_idem (s : string) : lower (lower s) = lower s.
Proof.
  induction s as [| c s IH]; [reflexivity |].
  simpl. rewrite lower_ascii_idem, IH. reflexivity.
Qed.

Lemma lower_app (a b : string) : lower (a +:+ b) = lower a +:+ lower b.
Proof.
  induction a as [| c a IH]; [reflexivity |]. simpl. rewrite IH. reflexivity.
Qed.

Lemma append_assoc (a b c : string) : (a +:+ b) +:+ c = a +:+ (b +:+ c).
Proof.
  induction a as [| x a IH]; [reflexivity |].
  exact (f_equal (String x) IH).
Qed.


Lemma prefix_spec (w : string) : forall text,
  String.prefix w text = true <-> exists b, text = w +:+ b.
Proof.
  induction w as [| c w IH]; intros text.
  - split; [intros _; exists text; reflexivity | intros _; destruct text; reflexivity].
  - destruct text as [| d text]; simpl.
    + split; [discriminate | intros (b & E); discriminate].
    + destruct (Ascii.ascii_dec c d) as [-> | Hne].
      * rewrite IH. split; intros (b & E); exists b; [rewrite E; reflexivity |].
        injection E as E. exact E.
      * split; [discriminate |]. intros (b & E). injection E as E1 E2. congruence.
Qed.

(** [occurs] is the substring test. *)
Lemma occurs_spec (w : string) : forall text,
  occurs w text = true <-> exists a b, text = a +:+ w +:+ b.
Proof.
  induction text as [| d text IH]; cbn [occurs].
  - rewrite orb_false_r, prefix_spec. split.
    + intros (b & E). exists EmptyString, b. exact E.
    + intros (a & b & E). destruct a as [| x a]; [exists b; exact E | discriminate].
  - rewrite orb_true_iff, prefix_spec, IH. split.
    + intros [(b & E) | (a & b & E)].
      * exists EmptyString, b. exact E.
      * exists (String d a), b. simpl. rewrite E. reflexivity.
    + intros (a & b & E). destruct a as [| x a].
      * left. exists b. exact E.
      * right. simpl in E. injection E as _ E. exists a, b. exact E.
Qed.

Fixpoint has_space (s : string) : bool :=
  match s with
  | EmptyString => false
  | String c rest => is_space c || has_space rest
  end.

Lemma has_space_app (a b : string) :
  has_space (a +:+ b) = has_space a || has_space b.
Proof.
  induction a as [| c a IH]; [reflexivity |]. simpl. rewrite IH, orb_assoc. reflexivity.
Qed.

Lemma is_empty_app_char (word : string) (c : ascii) :
  is_empty (word +:+ String c EmptyString) = false.
Proof. destruct word; reflexivity. Qed.

(** The words [split] returns are not empty and hold no white space. *)
Lemma split_acc_words (s : string) : forall word w,
  has_space word = false ->
  In w (split_acc word s) -> is_empty w = false /\ has_space w = false.
Proof.
  induction s as [| c s IH]; intros word w Hword Hw; simpl in Hw.
  - destruct (is_empty word) eqn:E; [destruct Hw |].
    destruct Hw as [<- | []]. auto.
  - destruct (is_space c) eqn:Ec.
    + destruct (is_empty word) eqn:E.
      * apply (IH EmptyString w eq_refl Hw).
      * destruct Hw as [<- | Hw]; [auto | apply (IH EmptyString w eq_refl Hw)].
    + apply (IH (word +:+ String c EmptyString) w); [| exact Hw].
      rewrite has_space_app, Hword. simpl. rewrite Ec. reflexivity.
Qed.

(** The words of a lower-case string are lower-case. *)
Lemma split_acc_lower (s : string) : forall word w,
  lower word = word -> lower s = s ->
  In w (split_acc word s) -> lower w = w.
Proof.
  induction s as [| c s IH]; intros word w Hword Hs Hw; simpl in Hw.
  - destruct (is_empty word); [destruct Hw |]. destruct Hw as [<- | []]. exact Hword.
  - simpl in Hs. injection Hs as Hc Hs.
    destruct (is_space c).
    + destruct (is_empty word).
      * apply (IH EmptyString w eq_refl Hs Hw).
      * destruct Hw as [<- | Hw]; [exact Hword | apply (IH EmptyString w eq_refl Hs Hw)].
    + apply (IH (word +:+ String c EmptyString) w); [| exact Hs | exact Hw].
      rewrite lower_app, Hword. simpl. rewrite Hc. reflexivity.
Qed.

Lemma filter_first {A : Type} (p : A -> bool) (l : list A) :
  match List.filter p l with
  | [] => forall x, In x l -> p x = false
  | y :: _ => exists pre post, l = pre ++ y :: post /\ p y = true /\
                               forall x, In x pre -> p x = false
  end.
Proof.
  induction l as [| a l IH]; simpl; [intros x [] |].
  destruct (p a) eqn:E.
  - exists [], l. split; [reflexivity |]. split; [exact E | intros x []].
  - destruct (List.filter p l) as [| y ys].
    + intros x [<- | Hx]; [exact E | apply IH, Hx].
    + destruct IH as (pre & post & -> & Hy & Hpre).
      exists (a :: pre), post. split; [reflexivity |]. split; [exact Hy |].
      intros x [<- | Hx]; [exact E | apply Hpre, Hx].
Qed.

(** A word of a lower-cased text, capitalised. *)
Lemma capitalize_word (text w : string) :
  In w (split (lower text)) ->
  is_empty (capitalize w) = false /\ has_space (capitalize w) = false /\
  lower (capitalize w) = w.
Proof.
  intros Hw.
  destruct (split_acc_words (lower text) EmptyString w eq_refl Hw) as [Hne Hns].
  pose proof (split_acc_lower (lower text) EmptyString w eq_refl
                (lower_idem text) Hw) as Hlow.
  destruct w as [| c w]; [discriminate |].
  simpl in Hns, Hlow. apply orb_false_iff in Hns. destruct Hns as [Hc Hr].
  injection Hlow as Hlc Hlw.
  split; [reflexivity |]. split.
  - simpl. rewrite is_space_upper_ascii, Hc, Hlw, Hr. reflexivity.
  - simpl. rewrite lower_upper_ascii, Hlc, lower_idem, Hlw. reflexivity.
Qed.

Lemma extract_name_not_empty (text : string) :
  is_empty (extract_name text) = false.
Proof.
  unfold extract_name.
  pose proof (filter_first (fun w => negb (contains IGNORE w)) (split (lower text)))
    as Hf.
  destruct (List.filter (fun w => negb (contains IGNORE w)) (split (lower text)))
    as [| y ys]; [reflexivity |].
  destruct Hf as (pre & post & E & _).
  apply (capitalize_word text y). rewrite E. apply in_elt.
Qed.

(** [extract_name] never returns an empty name or one with white space.
    It returns "Friend" when every word of the text is one of the ignored
    words (in any letter case), in particular for an empty or blank text;
    otherwise it returns the first word that is not ignored, lower-cased
    and then capitalised.  The letter case of the text does not matter. *)
Theorem extract_name_spec (text : string) :
  is_empty (extract_name text) = false /\
  has_space (extract_name text) = false /\
  ((forall w, In w (split (lower text)) -> In w IGNORE) ->
   extract_name text = "Friend") /\
  ((exists w, In w (split (lower text)) /\ ~ In w IGNORE) ->
   exists pre w post,
     split (lower text) = pre ++ w :: post /\
     (forall x, In x pre -> In x IGNORE) /\ ~ In w IGNORE /\
     extract_name text = capitalize w /\ lower (extract_name text) = w) /\
  extract_name (lower text) = extract_name text.
Proof.
  pose proof (capitalize_word text) as Hcap.
  unfold extract_name.
  pose proof (filter_first (fun w => negb (contains IGNORE w)) (split (lower text)))
    as Hf.
  rewrite lower_idem.
  destruct (List.filter (fun w => negb (contains IGNORE w)) (split (lower text)))
    as [| y ys].
  - split; [reflexivity |]. split; [reflexivity |]. split; [reflexivity |].
    split; [| reflexivity].
    intros (w & Hw & Hn). exfalso. specialize (Hf w Hw).
    apply negb_false_iff, contains_In in Hf. contradiction.
  - destruct Hf as (pre & post & E & Hy & Hpre).
    assert (Hin : In y (split (lower text))) by (rewrite E; apply in_elt).
    destruct (Hcap y Hin) as (H1 & H2 & H3).
    apply negb_true_iff, contains_not_In in Hy.
    split; [exact H1 |]. split; [exact H2 |]. split.
    + intros Hall. exfalso. apply Hy, Hall, Hin.
    + split; [| reflexivity].
      intros _. exists pre, y, post. split; [exact E |].
      split; [| auto].
      intros x Hx. specialize (Hpre x Hx).
      apply negb_false_iff, contains_In in Hpre. exact Hpre.
Qed.

Lemma extract_name_spec_witness :
  extract_name "call me" = "Friend" /\
  exists pre w post,
    split (lower "  My NAME is   alice cooper ") = pre ++ w :: post /\
    (forall x, In x pre -> In x IGNORE) /\ ~ In w IGNORE /\
    extract_name "  My NAME is   alice cooper " = capitalize w /\
    lower (extract_name "  My NAME is   alice cooper ") = w.
Proof.
  destruct (extract_name_spec "  My NAME is   alice cooper ")
    as (_ & _ & _ & Hfirst & _).
  destruct (extract_name_spec "call me") as (_ & _ & Hfriend & _).
  split.
  - apply Hfriend. intros w Hw. vm_compute in Hw.
    destruct Hw as [<- | [<- | []]]; vm_compute; tauto.
  - apply Hfirst. exists "alice". split; [vm_compute; tauto |].
    vm_compute. intuition discriminate.
Defined.

Example extract_name_examples :
  extract_name "  My NAME is   alice cooper " = "Alice" /\
  extract_name "I'm BOB" = "Bob" /\
  extract_name EmptyString = "Friend" /\
  extract_name "i am carol" = "I".
Proof. repeat split; reflexivity. Qed.

(** ** Yes and no *)

Lemma any_occurs (words : list string) (text : string) :
  existsb (fun w => occurs w text) words = true <->
  exists w a b, In w words /\ text = a +:+ w +:+ b.
Proof.
  rewrite existsb_exists. split.
  - intros (w & Hw & Ho). apply occurs_spec in Ho. destruct Ho as (a & b & E).
    exists w, a, b. auto.
  - intros (w & a & b & Hw & E). exists w. split; [exact Hw |].
    apply occurs_spec. exists a, b. exact E.
Qed.

(** [is_yes] holds exactly when the lower-cased text contains one of the
    yes words as a substring, anywhere, also inside a longer word;
    likewise [is_no] with the no words.  Neither depends on the letter case
    of the text, and both stay true when text is added before or after. *)
Theorem yes_no_by_substring (text : string) :
  (is_yes text = true <->
   exists w a b, In w YES_WORDS /\ lower text = a +:+ w +:+ b) /\
  (is_no text = true <->
   exists w a b, In w NO_WORDS /\ lower text = a +:+ w +:+ b) /\
  is_yes (lower text) = is_yes text /\
  is_no (lower text) = is_no text /\
  (forall before after,
     (is_yes text = true -> is_yes (before +:+ text +:+ after) = true) /\
     (is_no text = true -> is_no (before +:+ text +:+ after) = true)).
Proof.
  split; [apply any_occurs |]. split; [apply any_occurs |].
  split; [unfold is_yes; rewrite lower_idem; reflexivity |].
  split; [unfold is_no; rewrite lower_idem; reflexivity |].
  assert (Hgrow : forall words before after,
            existsb (fun w => occurs w (lower text)) words = true ->
            existsb (fun w => occurs w (lower (before +:+ text +:+ after))) words
              = true).
  { intros words before after H. apply any_occurs in H.
    destruct H as (w & a & b & Hw & E). apply any_occurs.
    exists w, (lower before +:+ a), (b +:+ lower after). split; [exact Hw |].
    rewrite !lower_app, E, !append_assoc. reflexivity. }
  intros before after. split; apply Hgrow.
Qed.

Lemma yes_no_by_substring_witness :
  is_yes "Well... OKAY then" = true /\ is_no "I don't know" = true /\
  is_yes ("hm, " +:+ "sure" +:+ " thing") = true.
Proof.
  destruct (yes_no_by_substring "Well... OKAY then") as (Hyes & _).
  destruct (yes_no_by_substring "I don't know") as (_ & Hno & _).
  destruct (yes_no_by_substring "sure") as (_ & _ & _ & _ & Hgrow).
  split; [| split].
  - apply Hyes. exists "ok", "well... ", "ay then".
    split; [vm_compute; tauto | reflexivity].
  - apply Hno. exists "no", "i don't k", "w".
    split; [vm_compute; tauto | reflexivity].
  - apply (Hgrow "hm, " " thing"). reflexivity.
Defined.

Example yes_and_no_overlap :
  is_no "I know" = true /\ is_yes "I know" = false /\
  is_yes "not okay" = true /\ is_no "not okay" = true.
Proof. repeat split; reflexivity. Qed.

(** ** [strip] and [paraphrase] *)


Definition starts_with_space (s : string) : bool :=
  match s with
  | EmptyString => false
  | String c _ => is_space c
  end.









Lemma lstrip_fixed (s : string) : starts_with_space s = false -> lstrip s = s.
Proof.
  destruct s as [| c s]; [reflexivity |]. simpl. intros ->. reflexivity.
Qed.

Lemma starts_with_space_app (a b : string) :
  starts_with_space a = false -> is_empty a = false ->
  starts_with_space (a +:+ b) = false.
Proof. destruct a; [discriminate | auto]. Qed.





(** ** Reasoning about methods of the bot *)

(** No [say] and no [listen] of the robot raises. *)
Definition quiet (fh : Furhat) : Prop :=
  (forall n, on_say fh n = None) /\ (forall n, exists h, on_listen fh n = Ok h).

(** What the method leaves alone: the user's name, the last emotion and
    the number of requests made. *)
Definition same_memory (r r' : Robot) : Prop :=
  user_name r' = user_name r /\ last_emotion r' = last_emotion r /\
  fetches r' = fetches r.

(** [m] leaves the memory alone and, when it returns, returns a value that
    satisfies [Q]. *)
Definition post {A : Type} (Q : A -> Prop) (m : M A) : Prop :=
  forall r,
    same_memory r (snd (m r)) /\
    match fst (m r) with
    | Ok a => Q a
    | Raise _ => True
    end.

(** [m] returns. *)
Definition total {A : Type} (m : M A) : Prop :=
  forall r, exists a, fst (m r) = Ok a.

Lemma same_memory_refl (r : Robot) : same_memory r r.
Proof. repeat split. Qed.

Lemma same_memory_trans (r1 r2 r3 : Robot) :
  same_memory r1 r2 -> same_memory r2 r3 -> same_memory r1 r3.
Proof. unfold same_memory. intuition congruence. Qed.

Lemma post_ret {A : Type} (Q : A -> Prop) (a : A) : Q a -> post Q (ret a).
Proof. intros H r. split; [apply same_memory_refl | exact H]. Qed.

Lemma post_seq {A B : Type} (P : A -> Prop) (Q : B -> Prop) (m : M A)
  (k : A -> M B) :
  post P m -> (forall a, P a -> post Q (k a)) -> post Q (seq m k).
Proof.
  intros Hm Hk r. unfold seq. specialize (Hm r).
  destruct (m r) as [[a | e] r1]; cbn [fst snd] in *.
  - destruct Hm as [Hmem Ha]. destruct (Hk a Ha r1) as [Hmem' Hq].
    split; [apply (same_memory_trans _ _ _ Hmem Hmem') | exact Hq].
  - destruct Hm as [Hmem _]. split; [exact Hmem | exact I].
Qed.

Lemma post_weaken {A : Type} (P Q : A -> Prop) (m : M A) :
  (forall a, P a -> Q a) -> post P m -> post Q m.
Proof.
  intros H Hm r. destruct (Hm r) as [Hmem Hp]. split; [exact Hmem |].
  destruct (fst (m r)); auto.
Qed.

Lemma total_ret {A : Type} (a : A) : total (ret a).
Proof. intros r. exists a. reflexivity. Qed.

Lemma total_seq {A B : Type} (m : M A) (k : A -> M B) :
  total m -> (forall a, total (k a)) -> total (seq m k).
Proof.
  intros Hm Hk r. unfold seq. destruct (Hm r) as [a Ha].
  destruct (m r) as [[a' | e] r1]; cbn [fst] in Ha; [| discriminate].
  apply Hk.
Qed.

Section BotFacts.

Variable fh : Furhat.
Variable float_of_str : string -> option Q.
Variable send_message : string -> Reply.

Lemma post_say (text : string) : post (fun _ => True) (say fh text).
Proof.
  intros r. unfold say. destruct (on_say fh (says r)); cbn; repeat split.
Qed.

Lemma post_listen : post (fun _ => True) (listen fh).
Proof.
  intros r. unfold listen. cbn. destruct (on_listen fh (listens r)); repeat split.
Qed.

Lemma post_sleep (d : Q) : post (fun _ => True) (sleep d).
Proof. intros r. cbn. repeat split. Qed.

Lemma post_safe_gesture (name : string) : post (fun _ => True) (safe_gesture fh name).
Proof.
  intros r. unfold safe_gesture. destruct (is_empty name); [cbn; repeat split |].
  unfold gesture. destruct (on_gesture fh (gestures r)); cbn; repeat split.
Qed.

Lemma total_say (text : string) : quiet fh -> total (say fh text).
Proof.
  intros [Hs _] r. unfold say. rewrite Hs. exists tt. reflexivity.
Qed.

Lemma total_listen : quiet fh -> total (listen fh).
Proof.
  intros [_ Hl] r. unfold listen. cbn. destruct (Hl (listens r)) as [h ->].
  exists h. reflexivity.
Qed.

Lemma total_sleep (d : Q) : total (sleep d).
Proof. intros r. exists tt. reflexivity. Qed.

(** A gesture that fails is swallowed, whatever the robot does. *)
Lemma total_safe_gesture (name : string) : total (safe_gesture fh name).
Proof.
  intros r. unfold safe_gesture. destruct (is_empty name); [exists tt; reflexivity |].
  unfold gesture. destruct (on_gesture fh (gestures r)); exists tt; reflexivity.
Qed.

Lemma safe_gesture_step (g : string) (r : Robot) :
  is_empty g = false ->
  safe_gesture fh g r =
    (Ok tt, mkRobot (user_name r) (last_emotion r) (says r) (listens r)
                    (S (gestures r)) (fetches r) (acts r ++ [Gesture g])).
Proof.
  intros Hg. unfold safe_gesture. rewrite Hg. unfold gesture.
  destruct (on_gesture fh (gestures r)); reflexivity.
Qed.

Lemma for_each_gestures (gs : list string) : forall r,
  (forall g, In g gs -> is_empty g = false) ->
  exists r',
    for_each gs (fun g => safe_gesture fh g ;;; sleep 0.2) r = (Ok tt, r') /\
    acts r' = acts r ++ flat_map (fun g => [Gesture g; Sleep 0.2]) gs /\
    gestures r' = (gestures r + List.length gs)%nat /\
    says r' = says r /\ listens r' = listens r /\ same_memory r r'.
Proof.
  induction gs as [| g gs IH]; intros r Hne.
  - exists r. cbn. rewrite app_nil_r, Nat.add_0_r. repeat split.
  - assert (Hg : is_empty g = false) by (apply Hne; left; reflexivity).
    cbn [for_each]. unfold seq. rewrite (safe_gesture_step g r Hg). cbn [sleep].
    match goal with
    | |- context [for_each gs _ ?r1] =>
        destruct (IH r1) as (r' & Hr & Hacts & Hcount & Hsays & Hlis & Hmem)
    end.
    { intros g' Hg'. apply Hne. right. exact Hg'. }
    exists r'. split; [exact Hr |].
    split; [rewrite Hacts; cbn; rewrite <- !app_assoc; reflexivity |].
    split; [rewrite Hcount; cbn; lia |].
    split; [exact Hsays |]. split; [exact Hlis | exact Hmem].
Qed.

End BotFacts.

Lemma emotion_gestures_named (emotion : string) (gs : list string) :
  assoc emotion emotion_gestures = Some gs ->
  forall g, In g gs -> is_empty g = false.
Proof.
  unfold emotion_gestures. cbn [assoc].
  repeat match goal with
         | |- context [String.eqb ?k emotion] => destruct (String.eqb k emotion)
         end;
    intros E; try discriminate; injection E as <-;
    intros g Hg; cbn in Hg; intuition (subst; reflexivity).
Qed.

Lemma express_emotion_returns (fh : Furhat) (emotion : string) (r : Robot) :
  exists r', express_emotion fh emotion r = (Ok tt, r') /\ same_memory r r'.
Proof.
  unfold express_emotion.
  destruct (assoc emotion emotion_gestures) as [gs |] eqn:E.
  - destruct (for_each_gestures fh gs r (emotion_gestures_named emotion gs E))
      as (r' & Hr & _ & _ & _ & _ & Hm).
    exists r'. split; [exact Hr | exact Hm].
  - exists r. split; [reflexivity | apply same_memory_refl].
Qed.

(** [express_emotion] never raises, whatever the robot does with the
    gestures: it performs the gestures listed for the emotion in order, each
    followed by a 0.2 s sleep, also after a gesture that failed; for an
    emotion that is not in the table it does nothing at all.  It neither
    speaks nor listens. *)
Theorem express_emotion_acts (fh : Furhat) (emotion : string) (r : Robot) :
  exists r',
    express_emotion fh emotion r = (Ok tt, r') /\
    acts r' = acts r ++
      flat_map (fun g => [Gesture g; Sleep 0.2])
        (match assoc emotion emotion_gestures with
         | Some gs => gs
         | None => []
         end) /\
    (assoc emotion emotion_gestures = None -> r' = r) /\
    says r' = says r /\ listens r' = listens r /\ same_memory r r'.
Proof.
  unfold express_emotion.
  destruct (assoc emotion emotion_gestures) as [gs |] eqn:E.
  - destruct (for_each_gestures fh gs r (emotion_gestures_named emotion gs E))
      as (r' & Hr & Hacts & _ & Hs & Hl & Hm).
    exists r'. split; [exact Hr |]. split; [exact Hacts |].
    split; [discriminate | auto].
  - exists r. cbn. rewrite app_nil_r. repeat split.
Qed.

(** A robot whose every gesture fails and that hears nothing. *)
Definition clumsy_furhat : Furhat :=
  mkFurhat (fun _ => None) (fun _ => Ok None) (fun _ => Some APIError)
           (fun _ => GetRaises RequestException).

Example express_emotion_with_failing_gestures :
  express_emotion clumsy_furhat "happy" new_robot =
    (Ok tt, mkRobot "Friend" "neutral" 0 0 2 0
                    [Gesture "BigSmile"; Sleep 0.2; Gesture "Nod"; Sleep 0.2]) /\
  express_emotion clumsy_furhat "bored" new_robot = (Ok tt, new_robot).
Proof. split; reflexivity. Qed.

(** ** Asking yes or no *)

(** With a robot whose [say] and [listen] do not raise, [ask_yes_no] asks
    once and, only when the first answer decides nothing, a second time
    with the reprompt; it never listens a third time.  The answer is what
    the first deciding answer decides; a yes word wins over a no word in
    the same answer; it is [None] exactly when neither answer decides.  The
    bot's memory is untouched. *)
Theorem ask_yes_no_spec (fh : Furhat) (question reprompt : string) (r : Robot) :
  quiet fh ->
  exists h1 h2 r',
    on_listen fh (listens r) = Ok h1 /\
    on_listen fh (S (listens r)) = Ok h2 /\
    ask_yes_no fh question reprompt r =
      (Ok (match verdict h1 with
           | Some b => Some b
           | None => verdict h2
           end), r') /\
    acts r' = acts r ++
      (match verdict h1 with
       | Some _ => [Say question; Listen]
       | None => [Say question; Listen; Say reprompt; Listen]
       end) /\
    (forall m, message_of h1 = Some m -> is_yes m = true ->
       fst (ask_yes_no fh question reprompt r) = Ok (Some true)) /\
    (fst (ask_yes_no fh question reprompt r) = Ok None <->
       verdict h1 = None /\ verdict h2 = None) /\
    same_memory r r'.
Proof.
  intros [Hsay Hlisten].
  destruct (Hlisten (listens r)) as [h1 Hl1].
  destruct (Hlisten (S (listens r))) as [h2 Hl2].
  exists h1, h2.
  assert (Hrun : exists r',
     ask_yes_no fh question reprompt r =
       (Ok (match verdict h1 with Some b => Some b | None => verdict h2 end), r') /\
     acts r' = acts r ++
       (match verdict h1 with
        | Some _ => [Say question; Listen]
        | None => [Say question; Listen; Say reprompt; Listen]
        end) /\
     same_memory r r').
  { unfold ask_yes_no, seq, say, listen. rewrite Hsay. cbn [listens]. rewrite Hl1.
    destruct (verdict h1) as [b |].
    - eexists. split; [reflexivity |]. cbn. rewrite <- app_assoc.
      split; [reflexivity | repeat split].
    - cbn [says]. rewrite Hsay. cbn [listens]. rewrite Hl2.
      eexists. split; [reflexivity |]. cbn. rewrite <- !app_assoc.
      split; [reflexivity | repeat split]. }
  destruct Hrun as (r' & Hr & Hacts & Hmem). exists r'.
  split; [exact Hl1 |]. split; [exact Hl2 |]. split; [exact Hr |].
  split; [exact Hacts |]. rewrite Hr. cbn [fst].
  split; [| split; [| exact Hmem]].
  - intros m Hm Hyes. unfold verdict at 1. rewrite Hm, Hyes. reflexivity.
  - destruct (verdict h1) as [b |]; split.
    + discriminate.
    + intros [H _]. discriminate.
    + intros H. injection H as H. auto.
    + intros [_ ->]. reflexivity.
Qed.

(** A robot that always works; it hears "no thanks, okay" first and then
    nothing. *)
Definition polite_furhat : Furhat :=
  mkFurhat (fun _ => None)
           (fun n => match n with
                     | O => Ok (Some "no thanks, okay")
                     | S _ => Ok None
                     end)
           (fun _ => None)
           (fun _ => GetRaises RequestException).

Lemma polite_is_quiet : quiet polite_furhat.
Proof.
  split; [intros n; reflexivity |].
  intros [| n]; eexists; reflexivity.
Defined.

Lemma ask_yes_no_spec_witness :
  exists h1 h2 r',
    on_listen polite_furhat (listens new_robot) = Ok h1 /\
    on_listen polite_furhat (S (listens new_robot)) = Ok h2 /\
    ask_yes_no polite_furhat "Shall we?" default_reprompt new_robot =
      (Ok (match verdict h1 with
           | Some b => Some b
           | None => verdict h2
           end), r') /\
    acts r' = acts new_robot ++
      (match verdict h1 with
       | Some _ => [Say "Shall we?"; Listen]
       | None => [Say "Shall we?"; Listen; Say default_reprompt; Listen]
       end) /\
    (forall m, message_of h1 = Some m -> is_yes m = true ->
       fst (ask_yes_no polite_furhat "Shall we?" default_reprompt new_robot)
         = Ok (Some true)) /\
    (fst (ask_yes_no polite_furhat "Shall we?" default_reprompt new_robot) = Ok None <->
       verdict h1 = None /\ verdict h2 = None) /\
    same_memory new_robot r'.
Proof.
  refine (ask_yes_no_spec polite_furhat "Shall we?" default_reprompt new_robot _).
  split; [intros n; reflexivity |].
  intros [| n]; eexists; reflexivity.
Defined.

Example yes_wins_over_no :
  fst (ask_yes_no polite_furhat "Shall we?" default_reprompt new_robot)
    = Ok (Some true).
Proof. reflexivity. Qed.

(** ** [respond] *)

Ltac post_step :=
  first
    [ apply post_say
    | apply post_listen
    | apply post_sleep
    | apply post_safe_gesture
    | apply post_ret; solve [reflexivity | exact I]
    | eapply post_seq;
      [ first [ apply post_say | apply post_listen | apply post_sleep
              | apply post_safe_gesture | eassumption ]
      | intros ? _ ] ].

Ltac total_step Hq :=
  first
    [ apply (total_say _ _ Hq)
    | apply (total_listen _ Hq)
    | apply total_sleep
    | apply total_safe_gesture
    | apply total_ret
    | assumption
    | apply total_seq; [| intros ?] ].

Section Flows.

Variable fh : Furhat.
Variable send_message : string -> Reply.

Lemma post_ask_yes_no (question reprompt : string) :
  post (fun _ => True) (ask_yes_no fh question reprompt).
Proof.
  unfold ask_yes_no. post_step. post_step.
  destruct (verdict a0); repeat post_step.
Qed.

Lemma total_ask_yes_no (question reprompt : string) :
  quiet fh -> total (ask_yes_no fh question reprompt).
Proof.
  intros Hq. unfold ask_yes_no. repeat total_step Hq.
  destruct (verdict a0); repeat total_step Hq.
Qed.

Lemma post_continue_chat_prompt : post (fun _ => True) (continue_chat_prompt fh).
Proof. unfold continue_chat_prompt. repeat post_step. Qed.

Lemma post_do_one_breath : post (fun _ => True) (do_one_breath fh).
Proof. unfold do_one_breath. repeat post_step. Qed.

Lemma post_do_grounding_3_things : post (fun _ => True) (do_grounding_3_things fh).
Proof. unfold do_grounding_3_things. repeat post_step. Qed.

Lemma post_do_music_reco : post (fun _ => True) (do_music_reco fh).
Proof. unfold do_music_reco. repeat post_step. Qed.

Lemma post_do_journal_prompt : post (fun _ => True) (do_journal_prompt fh).
Proof. unfold do_journal_prompt. repeat post_step. Qed.

Lemma total_continue_chat_prompt : quiet fh -> total (continue_chat_prompt fh).
Proof. intros Hq. unfold continue_chat_prompt. repeat total_step Hq. Qed.

Lemma total_do_one_breath : quiet fh -> total (do_one_breath fh).
Proof. intros Hq. unfold do_one_breath. repeat total_step Hq. Qed.

Lemma total_do_grounding_3_things : quiet fh -> total (do_grounding_3_things fh).
Proof. intros Hq. unfold do_grounding_3_things. repeat total_step Hq. Qed.

Lemma total_do_music_reco : quiet fh -> total (do_music_reco fh).
Proof. intros Hq. unfold do_music_reco. repeat total_step Hq. Qed.

Lemma total_do_journal_prompt : quiet fh -> total (do_journal_prompt fh).
Proof. intros Hq. unfold do_journal_prompt. repeat total_step Hq. Qed.

Lemma post_express_emotion (emotion : string) :
  post (fun _ => True) (express_emotion fh emotion).
Proof.
  intros r. destruct (express_emotion_returns fh emotion r) as (r' & E & Hm).
  rewrite E. split; [exact Hm | exact I].
Qed.

Lemma total_express_emotion (emotion : string) : total (express_emotion fh emotion).
Proof.
  intros r. destruct (express_emotion_returns fh emotion r) as (r' & E & _).
  rewrite E. exists tt. reflexivity.
Qed.

End Flows.

Section Respond.

Variable fh : Furhat.
Variable float_of_str : string -> option Q.
Variable send_message : string -> Reply.

Ltac flow_post :=
  repeat first
    [ apply post_ret; reflexivity
    | eapply post_seq;
      [ first [ apply post_ask_yes_no | apply post_safe_gesture
              | apply post_continue_chat_prompt | apply post_do_one_breath
              | apply post_do_grounding_3_things | apply post_do_music_reco
              | apply post_do_journal_prompt | apply post_say ]
      | intros ? _ ]
    | match goal with
      | |- post _ (if ?c then _ else _) => destruct c
      end ].

Ltac flow_total Hq :=
  repeat first
    [ apply total_ret
    | apply (total_ask_yes_no _ _ _ Hq)
    | apply total_safe_gesture
    | apply (total_continue_chat_prompt _ Hq)
    | apply (total_do_one_breath _ Hq)
    | apply (total_do_grounding_3_things _ Hq)
    | apply (total_do_music_reco _ Hq)
    | apply (total_do_journal_prompt _ Hq)
    | apply (total_say _ _ Hq)
    | apply total_seq; [| intros ?]
    | match goal with
      | |- total (if ?c then _ else _) => destruct c
      end ].

(** What follows the detection in [respond]. *)
Definition react (emotion user_input : string) : M bool :=
  express_emotion fh emotion ;;;
  if String.eqb emotion "sad" then sad_flow fh send_message user_input
  else if String.eqb emotion "angry" then angry_flow fh send_message user_input
  else if String.eqb emotion "fear" then fear_flow fh send_message user_input
  else if String.eqb emotion "happy" then happy_flow fh send_message user_input
  else if String.eqb emotion "surprise" then surprise_flow fh send_message user_input
  else if String.eqb emotion "disgust" then disgust_flow fh send_message user_input
  else say fh "I'm here with you. Tell me what's on your mind." ;;; ret true.

Lemma post_react (emotion user_input : string) :
  post (fun b => b = true) (react emotion user_input).
Proof.
  unfold react. eapply post_seq; [apply post_express_emotion | intros ? _].
  unfold sad_flow, angry_flow, fear_flow, happy_flow, surprise_flow, disgust_flow.
  flow_post.
Qed.

Lemma total_react (emotion user_input : string) :
  quiet fh -> total (react emotion user_input).
Proof.
  intros Hq. unfold react. apply total_seq; [apply total_express_emotion | intros ?].
  unfold sad_flow, angry_flow, fear_flow, happy_flow, surprise_flow, disgust_flow.
  flow_total Hq.
Qed.

Lemma respond_react (user_input : string) (r : Robot) :
  respond fh float_of_str send_message user_input r =
  react (detect_emotion float_of_str (on_fetch fh (fetches r)) send_message
           (Some user_input)) user_input
        (mkRobot (user_name r)
           (detect_emotion float_of_str (on_fetch fh (fetches r)) send_message
              (Some user_input))
           (says r) (listens r) (gestures r) (S (fetches r)) (acts r)).
Proof. reflexivity. Qed.

End Respond.



(** A producer that serves a window with one sad sample. *)
Definition sad_furhat : Furhat :=
  mkFurhat (fun _ => None)
           (fun n => match n with
                     | O => Ok (Some "yes please")
                     | S _ => Ok None
                     end)
           (fun _ => Some APIError)
           (fun _ => served [Webcam.mkSample 1 "sad" 0.8]).

Example respond_to_sadness :
  let out := respond sad_furhat no_float unreachable_model "I feel low" new_robot in
  fst out = Ok true /\ last_emotion (snd out) = "sad" /\
  says (snd out) = 4%nat /\ listens (snd out) = 2%nat /\ gestures (snd out) = 4%nat.
Proof. repeat split; reflexivity. Qed.

(** ** [greet_user] *)


(** With a robot whose [say] and [listen] do not raise, [greet_user]
    returns; it keeps the stored name when nothing is heard and otherwise
    stores [extract_name] of what it heard; the stored name is not empty
    afterwards if it was not before; and the last thing the robot says is
    the greeting with the stored name. *)
Theorem greet_user_names (fh : Furhat) (r : Robot) :
  quiet fh ->
  exists h r',
    on_listen fh (listens r) = Ok h /\
    greet_user fh r = (Ok tt, r') /\
    user_name r' =
      (match message_of h with
       | Some m => extract_name m
       | None => user_name r
       end) /\
    (is_empty (user_name r) = false -> is_empty (user_name r') = false) /\
    (exists before,
       acts r' = before ++ [Say ("Nice to meet you, " +:+ user_name r' +:+ ".")]) /\
    listens r' = S (listens r) /\ last_emotion r' = last_emotion r.
Proof.
  intros [Hsay Hlisten]. destruct (Hlisten (listens r)) as [h Hl].
  exists h. unfold greet_user, seq.
  rewrite (safe_gesture_step fh "Smile" r eq_refl).
  unfold say at 1. cbn [says]. rewrite Hsay.
  unfold say at 1. cbn [says]. rewrite Hsay.
  unfold listen. cbn [listens]. rewrite Hl.
  destruct (message_of h) as [m |] eqn:Em.
  - unfold set_user_name, say. cbn [says user_name]. rewrite Hsay.
    eexists. split; [reflexivity |]. split; [reflexivity |]. cbn.
    split; [reflexivity |].
    split; [intros _; apply extract_name_not_empty |].
    split; [eexists; reflexivity | auto].
  - unfold ret, say. cbn [says user_name]. rewrite Hsay.
    eexists. split; [reflexivity |]. split; [reflexivity |]. cbn.
    split; [reflexivity |]. split; [auto |].
    split; [eexists; reflexivity | auto].
Qed.

(** A robot that always works; it hears a name first and then "no thanks"
    to everything. *)
Definition leaving_furhat : Furhat :=
  mkFurhat (fun _ => None)
           (fun n => match n with
                     | O => Ok (Some "I'm Alice")
                     | S _ => Ok (Some "no thanks")
                     end)
           (fun _ => None)
           (fun _ => GetRaises RequestException).

Lemma leaving_is_quiet : quiet leaving_furhat.
Proof.
  split; [intros n; reflexivity |].
  intros [| n]; eexists; reflexivity.
Defined.

Lemma greet_user_names_witness :
  exists r',
    greet_user leaving_furhat new_robot = (Ok tt, r') /\
    user_name r' = "Alice" /\
    exists before, acts r' = before ++ [Say "Nice to meet you, Alice."].
Proof.
  destruct (greet_user_names leaving_furhat new_robot leaving_is_quiet)
    as (h & r' & Hh & Hrun & Hname & _ & (before & Hacts) & _).
  cbn in Hh. injection Hh as <-. cbn in Hname.
  exists r'. split; [exact Hrun |]. split; [exact Hname |].
  exists before. rewrite Hacts, Hname. reflexivity.
Defined.

(** ** [run]

    One turn of the [while True] loop returns [true] to go round again and
    [false] at a [break].  The loop itself need not end, so it is given the
    number of turns it may take: [None] says that the chat is still going
    on after that many turns. *)

Section Run.

Variable fh : Furhat.
Variable float_of_str : string -> option Q.
Variable send_message : string -> Reply.

Definition continue_question : string := "Would you like to continue the chat?".

(** [cont = self.ask_yes_no(...); if cont is False: break] *)
Definition ask_to_continue : M bool :=
  cont <~ ask_yes_no fh continue_question default_reprompt ;;
  match cont with
  | Some false => ret false
  | _ => ret true
  end.

Definition turn : M bool :=
  say fh "How are you feeling today?" ;;;
  response <~ listen fh ;;
  match message_of response with
  | Some m =>
      should_continue <~ respond fh float_of_str send_message m ;;
      if should_continue then ask_to_continue else ret false
  | None => ask_to_continue
  end.

Fixpoint chat_loop (turns : nat) (r : Robot) : option (result unit * Robot) :=
  match turns with
  | O => None
  | S n =>
      match turn r with
      | (Ok true, r1) => chat_loop n r1
      | (Ok false, r1) => Some (Ok tt, r1)
      | (Raise e, r1) => Some (Raise e, r1)
      end
  end.

Definition farewell (r : Robot) : string :=
  "It was nice talking to you, " +:+ user_name r +:+ ". Take care.".

Definition run (turns : nat) (r : Robot) : option (result unit * Robot) :=
  match greet_user fh r with
  | (Raise e, r1) => Some (Raise e, r1)
  | (Ok _, r1) =>
      match chat_loop turns r1 with
      | None => None
      | Some (Raise e, r2) => Some (Raise e, r2)
      | Some (Ok _, r2) => Some (say fh (farewell r2) r2)
      end
  end.

End Run.

Section RunFacts.

Variable fh : Furhat.
Variable float_of_str : string -> option Q.
Variable send_message : string -> Reply.
Hypothesis Hquiet : quiet fh.

(** The listen with which the robot has just heard a plain no. *)
Definition heard_no (r : Robot) : Prop :=
  exists n h, listens r = S n /\ on_listen fh n = Ok h /\ verdict h = Some false.

Lemma ask_yes_no_last (question reprompt : string) (r : Robot) :
  exists v r',
    ask_yes_no fh question reprompt r = (Ok v, r') /\
    user_name r' = user_name r /\
    forall b, v = Some b ->
      exists n h, listens r' = S n /\ on_listen fh n = Ok h /\ verdict h = Some b.
Proof.
  destruct Hquiet as [Hsay Hlisten].
  destruct (Hlisten (listens r)) as [h1 Hl1].
  destruct (Hlisten (S (listens r))) as [h2 Hl2].
  unfold ask_yes_no, seq, say, listen. rewrite Hsay. cbn [listens]. rewrite Hl1.
  destruct (verdict h1) as [b1 |] eqn:E1.
  - eexists _, _. split; [reflexivity |]. split; [reflexivity |].
    intros b Hb. injection Hb as <-. exists (listens r), h1. cbn. auto.
  - cbn [says]. rewrite Hsay. cbn [listens]. rewrite Hl2.
    eexists _, _. split; [reflexivity |]. split; [reflexivity |].
    intros b Hb. exists (S (listens r)), h2. cbn. auto.
Qed.

Lemma ask_to_continue_run (r : Robot) :
  exists b r',
    ask_to_continue fh r = (Ok b, r') /\ user_name r' = user_name r /\
    (b = false -> heard_no r').
Proof.
  unfold ask_to_continue, seq.
  destruct (ask_yes_no_last continue_question default_reprompt r)
    as (v & r' & -> & Hname & Hv).
  destruct v as [[|] |].
  - exists true, r'. split; [reflexivity |]. split; [exact Hname | discriminate].
  - exists false, r'. split; [reflexivity |]. split; [exact Hname |].
    intros _. apply Hv. reflexivity.
  - exists true, r'. split; [reflexivity |]. split; [exact Hname | discriminate].
Qed.

Lemma respond_run (user_input : string) (r : Robot) :
  exists r',
    respond fh float_of_str send_message user_input r = (Ok true, r') /\
    user_name r' = user_name r.
Proof.
  rewrite respond_react.
  set (emotion := detect_emotion _ _ _ _).
  set (r1 := mkRobot _ _ _ _ _ _ _).
  destruct (post_react fh send_message emotion user_input r1) as [(Hname & _) Hres].
  destruct (total_react fh send_message emotion user_input Hquiet r1) as [b Hb].
  rewrite Hb in Hres. subst b.
  destruct (react fh send_message emotion user_input r1) as [res r'].
  cbn [fst snd] in *. subst res. exists r'. split; [reflexivity | exact Hname].
Qed.

Lemma turn_run (r : Robot) :
  exists b r',
    turn fh float_of_str send_message r = (Ok b, r') /\
    user_name r' = user_name r /\ (b = false -> heard_no r').
Proof.
  destruct Hquiet as [Hsay Hlisten].
  destruct (Hlisten (listens r)) as [h Hl].
  unfold turn, seq, say at 1, listen at 1. rewrite Hsay. cbn [listens]. rewrite Hl.
  destruct (message_of h) as [m |].
  - match goal with
    | |- context [respond _ _ _ m ?r1] =>
        destruct (respond_run m r1) as (r2 & -> & Hname)
    end.
    destruct (ask_to_continue_run r2) as (b & r' & Hrun & Hname' & Hno).
    exists b, r'. split; [exact Hrun |].
    split; [rewrite Hname', Hname; reflexivity | exact Hno].
  - match goal with
    | |- context [ask_to_continue _ ?r1] =>
        destruct (ask_to_continue_run r1) as (b & r' & Hrun & Hname' & Hno)
    end.
    exists b, r'. split; [exact Hrun |].
    split; [rewrite Hname'; reflexivity | exact Hno].
Qed.



Lemma chat_loop_goes_on :
  (forall n h, on_listen fh n = Ok h -> verdict h <> Some false) ->
  forall turns r, chat_loop fh float_of_str send_message turns r = None.
Proof.
  intros Hnever turns. induction turns as [| n IH]; intros r; [reflexivity |].
  cbn [chat_loop].
  destruct (turn_run r) as (b & r1 & -> & _ & Hno). destruct b; [apply IH |].
  destruct (Hno eq_refl) as (k & h & _ & Hh & Hv).
  exfalso. exact (Hnever k h Hh Hv).
Qed.

End RunFacts.



(** A chat with a robot that only ever hears "no thanks" after the name. *)
Example run_one_turn :
  match run leaving_furhat no_float unreachable_model 1 new_robot with
  | Some (Ok tt, r) =>
      user_name r = "Alice" /\ last_emotion r = "neutral" /\
      acts r =
        [Gesture "Smile"; Say "Hello! I'm your companion Furhat.";
         Say "May I know your name?"; Listen; Say "Nice to meet you, Alice.";
         Say "How are you feeling today?"; Listen;
         Gesture "Smile"; Sleep 0.2;
         Say "I'm here with you. Tell me what's on your mind.";
         Say continue_question; Listen;
         Say "It was nice talking to you, Alice. Take care."]
  | _ => False
  end.
Proof. vm_compute. repeat split. Qed.

(** With the robot that hears "no thanks, okay" and then nothing, the chat
    is still going on after any number of turns. *)
Example run_goes_on (turns : nat) :
  run polite_furhat no_float unreachable_model turns new_robot = None.
Proof.
  unfold run.
  destruct (greet_user polite_furhat new_robot) as [[[] | e] r1] eqn:G;
    [| vm_compute in G; discriminate].
  rewrite (chat_loop_goes_on polite_furhat no_float unreachable_model polite_is_quiet);
    [reflexivity |].
  intros [| n] h Hh; cbn in Hh; injection Hh as <-; vm_compute; discriminate.
Qed.

End Dialogue.

(* ================================================================== *)
(** * The latest prediction and the window (emotion_webcam.py)        *)
(* ================================================================== *)

Module Latest.
Import Py Webcam.

(** [jsonify(latest)]: the [latest] dict has the keys "emotion",
    "confidence" and "timestamp". *)
Definition get_emotion_json (st : LoopState) : json :=
  JObj [("emotion", JStr (emotion (latest st)));
        ("confidence", JNum (confidence (latest st)));
        ("timestamp", JNum (timestamp (latest st)))].

(** [jsonify(list(emotion_window))] *)
Definition get_window (st : LoopState) : json :=
  JArr (map sample_to_json (items (window st))).

(** The prediction of the last frame that was read, [d] if none was. *)
Fixpoint last_frame (d : Sample) (ticks : list Tick) : Sample :=
  match ticks with
  | [] => d
  | ReadFailed :: rest => last_frame d rest
  | Frame out now :: rest => last_frame (sample_of out now) rest
  end.

(** The right end of the window. *)
Fixpoint newest (l : list Sample) : option Sample :=
  match l with
  | [] => None
  | [s] => Some s
  | _ :: rest => newest rest
  end.

Lemma newest_app (l : list Sample) (x : Sample) : newest (l ++ [x]) = Some x.
Proof.
  induction l as [| a l IH]; [reflexivity |].
  cbn [app newest]. rewrite IH. destruct (l ++ [x]) eqn:E; [| reflexivity].
  destruct l; discriminate.
Qed.

Lemma newest_append (d : deque Sample) (x : Sample) :
  (1 <= maxlen d)%nat -> newest (items (deque_append d x)) = Some x.
Proof.
  intros Hmax. unfold deque_append.
  destruct (maxlen d <? List.length (items d ++ [x]))%nat eqn:E; cbn [items].
  - apply Nat.ltb_lt in E. rewrite length_app in E. cbn in E.
    destruct (items d) as [| a l]; [cbn in E; lia |].
    cbn [app tl]. apply newest_app.
  - apply newest_app.
Qed.

(** What the loop keeps true from one pass to the next. *)
Definition in_step (t0 : Q) (st : LoopState) : Prop :=
  (1 <= maxlen (window st))%nat /\
  match newest (items (window st)) with
  | None => last_sample_time st = t0
  | Some s =>
      last_sample_time st = timestamp s /\
      (latest st = s \/ (timestamp (latest st) - timestamp s < 1)%Q)
  end.

Lemma webcam_step_in_step (t0 : Q) (st : LoopState) (t : Tick) :
  in_step t0 st -> in_step t0 (webcam_step st t).
Proof.
  intros [Hmax Hinv]. destruct t as [| out now]; [split; assumption |].
  cbn [webcam_step].
  destruct (Qle_bool 1 (now - last_sample_time st)) eqn:E.
  - split; [cbn [window]; unfold deque_append;
            destruct (_ <? _)%nat; exact Hmax |].
    cbn [window]. rewrite (newest_append _ _ Hmax). cbn. auto.
  - split; [exact Hmax |]. cbn [window last_sample_time latest].
    assert (Hlt : (now - last_sample_time st < 1)%Q).
    { apply Qnot_le_lt. intros Hle. apply Qle_bool_iff in Hle. congruence. }
    destruct (newest (items (window st))) as [s |]; [| exact Hinv].
    destruct Hinv as [Hlast _]. split; [exact Hlast |].
    right. cbn. rewrite <- Hlast. exact Hlt.
Qed.

Lemma webcam_loop_in_step (t0 : Q) (ticks : list Tick) : forall st,
  in_step t0 st -> in_step t0 (webcam_loop st ticks).
Proof.
  induction ticks as [| t ticks IH]; intros st Hst; [exact Hst |].
  apply IH, webcam_step_in_step, Hst.
Qed.

Lemma webcam_loop_latest (ticks : list Tick) : forall st,
  latest (webcam_loop st ticks) = last_frame (latest st) ticks.
Proof.
  induction ticks as [| t ticks IH]; intros st; [reflexivity |].
  cbn [webcam_loop fold_left last_frame]. fold (webcam_loop (webcam_step st t) ticks).
  rewrite IH. destruct t as [| out now]; [reflexivity |].
  cbn [webcam_step]. destruct (Qle_bool 1 (now - last_sample_time st)); reflexivity.
Qed.

(** After any run of the loop, [latest] is the prediction of the last
    frame that was read, sampled or not (failed reads leave it alone), and
    that is what [GET /emotion_json] serves.  The newest sample of the
    window is the one taken at [last_sample_time]; [latest] is that sample
    or a frame whose clock reading is less than a second past it.  While
    the window is empty [last_sample_time] is still the time at which the
    loop started. *)
Theorem latest_is_last_frame (t0 : Q) (ticks : list Tick) :
  let st := webcam_loop (initial t0) ticks in
  latest st = last_frame (latest (initial t0)) ticks /\
  get (get_emotion_json st) "emotion" JNull
    = Ok (JStr (emotion (last_frame (latest (initial t0)) ticks))) /\
  (newest (items (window st)) = None -> last_sample_time st = t0) /\
  (forall s, newest (items (window st)) = Some s ->
     last_sample_time st = timestamp s /\
     (latest st = s \/ (timestamp (latest st) - timestamp s < 1)%Q)).
Proof.
  cbn zeta.
  assert (Hinv : in_step t0 (webcam_loop (initial t0) ticks)).
  { apply webcam_loop_in_step. split; [cbn; lia | reflexivity]. }
  destruct Hinv as [_ Hinv].
  split; [apply webcam_loop_latest |].
  split; [cbn; rewrite webcam_loop_latest; reflexivity |].
  destruct (newest (items (window (webcam_loop (initial t0) ticks)))) as [s |].
  - split; [discriminate |]. intros s' E. injection E as <-. exact Hinv.
  - split; [intros _; exact Hinv | discriminate].
Qed.

(** A frame sampled at 1 s and one read at 1.5 s: the window holds the
    first, [latest] the second. *)
Example latest_runs_ahead_of_the_window :
  let st := webcam_loop (initial 0)
              [Frame (mkPrediction "sad" 0.8) 1; ReadFailed;
               Frame (mkPrediction "happy" 0.6) 1.5] in
  items (window st) = [mkSample 1 "sad" 0.8] /\
  latest st = mkSample 1.5 "happy" 0.6 /\
  get_window st = JArr [sample_to_json (mkSample 1 "sad" 0.8)].
Proof. repeat split; reflexivity. Qed.

End Latest.

(* ===================================================================== *)
(** * Sampling once per second, on doubles (emotion_webcam.py)            *)
(* ===================================================================== *)

Module Sampling.
Import Py Webcam Latest.

Section Doubles.

(** [a - b] on doubles: the exact difference, rounded to a double.  The
    subtraction is the machine's, not code of the repository, and stays a
    parameter. *)
Variable fsub : Q -> Q -> Q.

(** One pass through the loop, with [now - last_sample_time >= 1.0]
    evaluated on doubles. *)
Definition webcam_step_rounded (st : LoopState) (t : Tick) : LoopState :=
  match t with
  | ReadFailed => st
  | Frame out now =>
      if Qle_bool 1 (fsub now (last_sample_time st))
      then mkLoop (deque_append (window st) (sample_of out now)) now
                  (sample_of out now)
      else mkLoop (window st) (last_sample_time st) (sample_of out now)
  end.

Definition webcam_loop_rounded (st : LoopState) (ticks : list Tick) : LoopState :=
  fold_left webcam_step_rounded ticks st.

End Doubles.

(** With the exact difference this is the loop of [Webcam]. *)
Lemma webcam_step_exact (st : LoopState) (t : Tick) :
  webcam_step_rounded Qminus st t = webcam_step st t.
Proof. reflexivity. Qed.

(** Half the distance from 1.0 to the double below it, which is
    [1 - 2^-53]: a difference of [1 - 2^-54] lies midway between the two
    and is rounded to 1.0, the one with the even mantissa; a smaller one is
    rounded to a double below 1.0. *)
Definition half_ulp : Q := 1 # (2 ^ 54).

(** The least exact difference that the test on doubles lets pass. *)
Definition least_gap : Q := 1 - half_ulp.

Lemma least_gap_bounds : (0 <= least_gap)%Q /\ (least_gap < 1)%Q.
Proof. split; [unfold Qle | unfold Qlt]; vm_compute; [discriminate | reflexivity]. Qed.

(** Neighbouring samples are at least [g] apart. *)
Fixpoint chain (g : Q) (l : list Sample) : Prop :=
  match l with
  | a :: rest =>
      match rest with
      | b :: _ => (timestamp a + g <= timestamp b)%Q /\ chain g rest
      | [] => True
      end
  | [] => True
  end.

Lemma chain_tl (g : Q) (l : list Sample) : chain g l -> chain g (tl l).
Proof.
  destruct l as [| a [| b l]]; cbn; [auto | auto |]. intros [_ H]. exact H.
Qed.

Lemma chain_app (g : Q) (x : Sample) (l : list Sample) :
  chain g l ->
  (forall s, newest l = Some s -> (timestamp s + g <= timestamp x)%Q) ->
  chain g (l ++ [x]).
Proof.
  induction l as [| a l IH]; intros Hc Hn; [exact I |].
  destruct l as [| b l].
  - cbn. split; [apply Hn; reflexivity | exact I].
  - destruct Hc as [Hab Hc]. split; [exact Hab |].
    apply IH; [exact Hc |]. intros s Hs. apply Hn. exact Hs.
Qed.

Lemma chain_nth (g : Q) (l : list Sample) : forall i a b,
  chain g l -> nth_error l i = Some a -> nth_error l (S i) = Some b ->
  (timestamp a + g <= timestamp b)%Q.
Proof.
  induction l as [| x l IH]; intros i a b Hc Ha Hb; [destruct i; discriminate |].
  destruct l as [| y l]; [destruct i; discriminate |].
  destruct Hc as [Hxy Hc]. destruct i as [| i].
  - cbn in Ha, Hb. injection Ha as <-. injection Hb as <-. exact Hxy.
  - apply (IH i a b Hc); [exact Ha | exact Hb].
Qed.

Lemma newest_tl_app (l : list Sample) (x s : Sample) :
  newest (tl (l ++ [x])) = Some s -> s = x.
Proof.
  destruct l as [| a l]; [discriminate |].
  cbn [app tl]. rewrite newest_app. intros E. injection E as <-. reflexivity.
Qed.

Lemma In_tl {A : Type} (l : list A) (x : A) : In x (tl l) -> In x l.
Proof. destruct l; [auto | right; assumption]. Qed.

Section Spacing.

Variable fsub : Q -> Q -> Q.
Variables g t0 : Q.
Hypothesis g_nonneg : (0 <= g)%Q.
Hypothesis fsub_gap : forall a b, (1 <= fsub a b)%Q -> (g <= a - b)%Q.

(** What the loop keeps true from one pass to the next. *)
Definition well_spaced (st : LoopState) : Prop :=
  chain g (items (window st)) /\
  (forall s, In s (items (window st)) -> (t0 + g <= timestamp s)%Q) /\
  (forall s, newest (items (window st)) = Some s ->
     timestamp s = last_sample_time st) /\
  (last_sample_time st = t0 \/ (t0 + g <= last_sample_time st)%Q).

Lemma webcam_step_rounded_keeps (st : LoopState) (t : Tick) :
  well_spaced st -> well_spaced (webcam_step_rounded fsub st t).
Proof.
  intros (Hc & Hall & Hnew & Hlast). destruct t as [| out now]; [repeat split; auto |].
  cbn [webcam_step_rounded].
  destruct (Qle_bool 1 (fsub now (last_sample_time st))) eqn:E;
    [| repeat split; auto].
  apply Qle_bool_iff, fsub_gap in E.
  assert (Hnow : (t0 + g <= now)%Q).
  { destruct Hlast as [Hl | Hl]; [rewrite Hl in E; lra | lra]. }
  assert (Hgrown : chain g (items (window st) ++ [sample_of out now])).
  { apply chain_app; [exact Hc |]. intros s Hs. rewrite (Hnew s Hs). cbn. lra. }
  assert (Hin : forall s, In s (items (window st) ++ [sample_of out now]) ->
                  (t0 + g <= timestamp s)%Q).
  { intros s Hs. apply in_app_or in Hs. destruct Hs as [Hs | [<- | []]];
      [apply Hall, Hs | exact Hnow]. }
  unfold well_spaced. cbn [window last_sample_time]. unfold deque_append.
  destruct (maxlen (window st) <? _)%nat; cbn [items].
  - split; [apply chain_tl, Hgrown |].
    split; [intros s Hs; apply Hin, In_tl, Hs |].
    split; [| right; exact Hnow].
    intros s Hs. apply newest_tl_app in Hs. subst s. reflexivity.
  - split; [exact Hgrown |]. split; [exact Hin |].
    split; [| right; exact Hnow].
    intros s Hs. rewrite newest_app in Hs. injection Hs as <-. reflexivity.
Qed.

Lemma webcam_loop_rounded_keeps (ticks : list Tick) : forall st,
  well_spaced st -> well_spaced (webcam_loop_rounded fsub st ticks).
Proof.
  induction ticks as [| t ticks IH]; intros st Hst; [exact Hst |].
  apply IH, webcam_step_rounded_keeps, Hst.
Qed.

End Spacing.

(** The window never holds two samples that are a second, less the
    rounding of one subtraction, or less apart.  The loop compares the
    rounded difference of two clock readings with 1.0; whenever the rounded
    difference is at least 1.0 only if the exact one is at least
    [1 - 2^-54], as it is for doubles, then after any run of the loop
    started at clock reading [t0] neighbouring samples of the window are at
    least [1 - 2^-54] s apart, in increasing order of time, and every sample
    was taken at [t0 + 1 - 2^-54] or later.  (This does not need the clock
    to be monotone.) *)
Theorem window_samples_apart (fsub : Q -> Q -> Q) (t0 : Q) (ticks : list Tick) :
  (forall a b, (1 <= fsub a b)%Q -> (least_gap <= a - b)%Q) ->
  let w := items (window (webcam_loop_rounded fsub (initial t0) ticks)) in
  (forall s, In s w -> (t0 + least_gap <= timestamp s)%Q) /\
  (forall i a b, nth_error w i = Some a -> nth_error w (S i) = Some b ->
     (timestamp a + least_gap <= timestamp b)%Q).
Proof.
  intros Hgap. cbn zeta.
  assert (Hg : (0 <= least_gap)%Q) by apply least_gap_bounds.
  destruct (webcam_loop_rounded_keeps fsub least_gap t0 Hg Hgap ticks (initial t0))
    as (Hc & Hall & _).
  { split; [exact I |]. split; [intros s [] |].
    split; [discriminate | left; reflexivity]. }
  split; [exact Hall |].
  intros i a b Ha Hb. exact (chain_nth least_gap _ i a b Hc Ha Hb).
Qed.

(** A subtraction that rounds the differences between [1 - 2^-54] and 1 up
    to 1, as the one on doubles does, and is exact elsewhere. *)
Definition rounds_up_to_one (a b : Q) : Q :=
  let d := (a - b)%Q in
  if Qle_bool 1 d then d
  else if Qle_bool least_gap d then 1%Q
  else d.

Lemma rounds_up_to_one_gap (a b : Q) :
  (1 <= rounds_up_to_one a b)%Q -> (least_gap <= a - b)%Q.
Proof.
  unfold rounds_up_to_one. cbn zeta.
  destruct (Qle_bool 1 (a - b)) eqn:E1.
  - apply Qle_bool_iff in E1. intros _.
    destruct least_gap_bounds as [_ Hlt]. lra.
  - destruct (Qle_bool least_gap (a - b)) eqn:E2.
    + apply Qle_bool_iff in E2. intros _. exact E2.
    + intros H. apply Qle_bool_iff in H. congruence.
Defined.

(** Two frames whose clock readings are [1 - 2^-54] s apart are both
    sampled. *)
Definition close_ticks : list Tick :=
  [Frame (mkPrediction "sad" 0.8) 1;
   Frame (mkPrediction "happy" 0.6) (1 + least_gap)].

Lemma window_samples_apart_witness :
  let w := items (window (webcam_loop_rounded rounds_up_to_one (initial 0)
                            close_ticks)) in
  w = [mkSample 1 "sad" 0.8; mkSample (1 + least_gap) "happy" 0.6] /\
  (forall i a b, nth_error w i = Some a -> nth_error w (S i) = Some b ->
     (timestamp a + least_gap <= timestamp b)%Q).
Proof.
  split; [reflexivity |].
  apply (window_samples_apart rounds_up_to_one 0 close_ticks).
  exact rounds_up_to_one_gap.
Defined.

(** The exact test does not sample the second of these frames. *)
Example exact_test_skips_the_frame :
  items (window (webcam_loop (initial 0) close_ticks)) = [mkSample 1 "sad" 0.8].
Proof. reflexivity. Qed.

End Sampling.
